(** * Guardian: tiered approval engine of the gateway

    A shallow embedding of the Guardian decision pipeline
    (src/infra/guardian/rules.ts, budget.ts, llm-evaluator.ts, hook.ts and
    gateway/guardian-approval-manager.ts with its request handler), and the
    properties of it that the design document states.

    Conventions of the embedding.
    - A JavaScript exception is an explicit [Throw] of the [completion]
      monad; every function that can throw returns a [completion].
    - Strings are byte strings ([String.string]); case folding and white
      space are the ASCII ones, so a statement that rests on [trim], on [\s]
      or on the [.] of a regular expression is made for ASCII text.
      JavaScript numbers that are counted (costs, limits) are exact
      rationals [Q]: they stand for the doubles of the code where the sums
      are exact; time stamps are integers [Z].
    - A parameter map ([Record<string, unknown>]) is a plain object: the
      list of its own entries in [Object.entries] order, read by [obj[key]]
      through [Object.prototype]; the table of default risks is read in
      the same way.  The objects keyed by an agent id or a tool name
      ([perAgent], [perToolCosts], [agents]) are finite maps of their own
      entries: what is stated of a read of them is stated for keys that are
      not names on [Object.prototype].
    - The budget file is absent, not parseable, parseable to a value
      without a [daily] array, or a [daily] array of entries of the declared
      type.
    - Platform services the code calls but does not define ([new RegExp]
      on a user pattern, [JSON.parse], [String.prototype.localeCompare],
      the tool-name normaliser, [randomUUID], the clock) are parameters of
      the definitions that use them.
    - An [async] function is one run from its call to its settlement.  What
      it awaits (the adjudicator raced against its timer, the approval
      channel) is a function from the request to the outcome of the wait;
      the state a hook or a manager owns is passed in and returned.  Runs
      of several calls that interleave at their awaits are not modelled. *)

From Stdlib Require Import String Ascii List ZArith QArith Bool Lia Lqa.
From stdpp Require Import gmap strings list pretty.

Set Default Proof Using "Type".
Set Warnings "-register-all".
Local Open Scope string_scope.
Local Open Scope Z_scope.

(** ** Completions: normal results and thrown exceptions *)

Inductive completion (A : Type) : Type :=
| Ok (a : A)
| Throw (err : string).
Arguments Ok {A} a.
Arguments Throw {A} err.

Definition cbind {A B} (c : completion A) (k : A -> completion B) : completion B :=
  match c with
  | Ok a => k a
  | Throw e => Throw e
  end.

Notation "'let!' x ':=' c 'in' k" := (cbind c (fun x => k))
  (at level 10, x name, c at level 100, k at level 200).

Definition returns {A} (c : completion A) : Prop := exists a, c = Ok a.

(** ** JavaScript values and their serialisation *)

Module Js.

(** The values a tool parameter can hold.  [VCyclic] is an object whose
    property graph reaches the object itself ([const o = {}; o.self = o]);
    [VFunction] stands for the values [JSON.stringify] drops (functions and
    symbols). *)
Inductive value : Type :=
| VUndefined
| VNull
| VBool (b : bool)
| VNum (n : Z)
| VStr (s : string)
| VArr (items : list value)
| VObj (props : list (string * value))
| VFunction
| VCyclic.

Definition dquote : ascii := ascii_of_nat 34.
Definition backslash : ascii := ascii_of_nat 92.
Definition newline : ascii := ascii_of_nat 10.

Definition str1 (c : ascii) : string := String c EmptyString.

Definition hexdigit (n : nat) : ascii :=
  if (n <? 10)%nat then ascii_of_nat (48 + n) else ascii_of_nat (87 + n).

(** The escape [JSON.stringify] writes for one character of a string. *)
Definition json_escape_char (c : ascii) : string :=
  let n := nat_of_ascii c in
  if (n =? 34)%nat then String backslash (str1 dquote)
  else if (n =? 92)%nat then String backslash (str1 backslash)
  else if (n =? 8)%nat then String backslash "b"
  else if (n =? 9)%nat then String backslash "t"
  else if (n =? 10)%nat then String backslash "n"
  else if (n =? 12)%nat then String backslash "f"
  else if (n =? 13)%nat then String backslash "r"
  else if (n <? 32)%nat then
    String backslash ("u00" ++ String (hexdigit (n / 16)) (str1 (hexdigit (n mod 16))))
  else str1 c.

Fixpoint json_escape (s : string) : string :=
  match s with
  | EmptyString => EmptyString
  | String c rest => json_escape_char c ++ json_escape rest
  end.

Definition json_quote (s : string) : string :=
  String dquote (json_escape s ++ str1 dquote).

Fixpoint join (sep : string) (l : list string) : string :=
  match l with
  | [] => EmptyString
  | [x] => x
  | x :: rest => x ++ sep ++ join sep rest
  end.

(** [JSON.stringify(v, null, gap)], with [indent] the current indentation.
    An empty [gap] gives the compact form.  [None] is the JavaScript
    [undefined] that the serialiser returns for a value it drops. *)
Fixpoint stringify_at (gap indent : string) (v : value) : completion (option string) :=
  let inner := indent ++ gap in
  let pretty_on := negb (String.eqb gap EmptyString) in
  let wrap (o c : string) (parts : list string) : string :=
    match parts with
    | [] => o ++ c
    | _ => if pretty_on
           then o ++ str1 newline ++ inner
                  ++ join ("," ++ str1 newline ++ inner) parts
                  ++ str1 newline ++ indent ++ c
           else o ++ join "," parts ++ c
    end in
  match v with
  | VUndefined | VFunction => Ok None
  | VNull => Ok (Some "null")
  | VBool true => Ok (Some "true")
  | VBool false => Ok (Some "false")
  | VNum n => Ok (Some (pretty n))
  | VStr s => Ok (Some (json_quote s))
  | VCyclic => Throw "TypeError: Converting circular structure to JSON"
  | VArr items =>
      let fix go (l : list value) : completion (list string) :=
        match l with
        | [] => Ok []
        | x :: rest =>
            let! sx := stringify_at gap inner x in
            let! srest := go rest in
            Ok (match sx with Some t => t | None => "null" end :: srest)
        end in
      let! parts := go items in
      Ok (Some (wrap "[" "]" parts))
  | VObj props =>
      let fix go (l : list (string * value)) : completion (list string) :=
        match l with
        | [] => Ok []
        | (k, x) :: rest =>
            let! sx := stringify_at gap inner x in
            let! srest := go rest in
            Ok (match sx with
                | Some t =>
                    (json_quote k ++ (if pretty_on then ": " else ":") ++ t) :: srest
                | None => srest
                end)
        end in
      let! parts := go props in
      Ok (Some (wrap "{" "}" parts))
  end.

(** [JSON.stringify(v)] *)
Definition JSON_stringify (v : value) : completion (option string) :=
  stringify_at EmptyString EmptyString v.

(** [String(v)] on a value; nested values print as JavaScript does. *)
Fixpoint String_of (v : value) : string :=
  match v with
  | VUndefined => "undefined"
  | VNull => "null"
  | VBool true => "true"
  | VBool false => "false"
  | VNum n => pretty n
  | VStr s => s
  | VArr items =>
      join "," (map (fun x => match x with
                              | VUndefined | VNull => EmptyString
                              | _ => String_of x
                              end) items)
  | VObj _ | VCyclic => "[object Object]"
  | VFunction => "function () { [native code] }"
  end.

(** The string a [RegExp.prototype.test] or a template literal sees when it
    is handed the result of [JSON.stringify]. *)
Definition coerce_string (o : option string) : string :=
  match o with
  | Some s => s
  | None => "undefined"
  end.

(** The own property [key] of a plain object, if it has one. *)
Fixpoint own (params : list (string * value)) (key : string) : option value :=
  match params with
  | [] => None
  | (k, v) :: rest => if String.eqb k key then Some v else own rest key
  end.

(** The names of the members of [Object.prototype], which every plain
    object inherits. *)
Definition Object_prototype : list string :=
  [ "constructor"; "__defineGetter__"; "__defineSetter__"; "hasOwnProperty";
    "__lookupGetter__"; "__lookupSetter__"; "isPrototypeOf"; "propertyIsEnumerable";
    "toString"; "valueOf"; "__proto__"; "toLocaleString" ].

Definition is_inherited (key : string) : bool :=
  existsb (String.eqb key) Object_prototype.

(** The inherited member: a built-in function, or for [__proto__] the
    prototype itself, an object without own enumerable properties. *)
Definition inherited (key : string) : value :=
  if String.eqb key "__proto__" then VObj [] else VFunction.

(** [String(v)] of the inherited member [key]. *)
Definition inherited_text (key : string) : string :=
  if String.eqb key "__proto__" then "[object Object]"
  else "function " ++ (if String.eqb key "constructor" then "Object" else key)
         ++ "() { [native code] }".

(** Property read [obj[key]] on a plain object: the own property, else the
    member inherited from [Object.prototype], else [undefined]. *)
Definition get (params : list (string * value)) (key : string) : value :=
  match own params key with
  | Some v => v
  | None => if is_inherited key then inherited key else VUndefined
  end.

Definition is_nullish (v : value) : bool :=
  match v with
  | VUndefined | VNull => true
  | _ => false
  end.

(** ASCII white space, the part of [\s] and of [trim] that byte strings see. *)
Definition is_space (c : ascii) : bool :=
  let n := nat_of_ascii c in
  ((9 <=? n) && (n <=? 13) || (n =? 32))%nat.

Definition lower_char (c : ascii) : ascii :=
  let n := nat_of_ascii c in
  if ((65 <=? n) && (n <=? 90))%nat then ascii_of_nat (n + 32) else c.

Fixpoint toLowerCase (s : string) : string :=
  match s with
  | EmptyString => EmptyString
  | String c rest => String (lower_char c) (toLowerCase rest)
  end.

Fixpoint trimStart (s : string) : string :=
  match s with
  | EmptyString => EmptyString
  | String c rest => if is_space c then trimStart rest else s
  end.

Fixpoint trimEnd (s : string) : string :=
  match s with
  | EmptyString => EmptyString
  | String c rest =>
      match trimEnd rest with
      | EmptyString => if is_space c then EmptyString else str1 c
      | r => String c r
      end
  end.

Definition trim (s : string) : string := trimEnd (trimStart s).

(** Truthiness of an optional string: [undefined] and the empty string are
    falsy. *)
Definition truthy (o : option string) : bool :=
  match o with
  | Some (String _ _) => true
  | _ => false
  end.

(** Nothing for [trimStart] to remove. *)
Definition starts_clean (u : string) : Prop :=
  match u with
  | EmptyString => True
  | String c _ => is_space c = false
  end.

(** [s.includes(t)] *)
Fixpoint includes (s t : string) : bool :=
  if String.prefix t s then true
  else match s with
       | EmptyString => false
       | String _ rest => includes rest t
       end.

End Js.


(** ** Regular expressions

    The patterns of the built-in escalation table and of the glob
    translation, with a matcher by derivatives.  [ci] is the [i] flag. *)

Module Regex.

Inductive cclass : Type :=
| CAny                       (* every character: the implicit padding of a search *)
| CDot                       (* [.]: every character but a line terminator *)
| CLit (c : ascii)
| CRange (lo hi : ascii)
| CSpace.                    (* [\s] *)

Inductive regex : Type :=
| RNone
| REps
| RChr (k : cclass)
| RSeq (a b : regex)
| RAlt (a b : regex)
| RStar (a : regex).

Definition in_range (lo hi c : ascii) : bool :=
  ((nat_of_ascii lo <=? nat_of_ascii c) && (nat_of_ascii c <=? nat_of_ascii hi))%nat.

Definition upper_char (c : ascii) : ascii :=
  let n := nat_of_ascii c in
  if ((97 <=? n) && (n <=? 122))%nat then ascii_of_nat (n - 32) else c.

Definition class_matches (ci : bool) (k : cclass) (c : ascii) : bool :=
  match k with
  | CAny => true
  | CDot => negb ((nat_of_ascii c =? 10) || (nat_of_ascii c =? 13))%nat
  | CLit d => if ci then Ascii.eqb (Js.lower_char d) (Js.lower_char c) else Ascii.eqb d c
  | CRange lo hi =>
      if ci then in_range lo hi (Js.lower_char c) || in_range lo hi (upper_char c)
      else in_range lo hi c
  | CSpace => Js.is_space c
  end.

Fixpoint nullable (r : regex) : bool :=
  match r with
  | RNone | RChr _ => false
  | REps | RStar _ => true
  | RSeq a b => nullable a && nullable b
  | RAlt a b => nullable a || nullable b
  end.

Definition seq (a b : regex) : regex :=
  match a, b with
  | RNone, _ | _, RNone => RNone
  | REps, _ => b
  | _, REps => a
  | _, _ => RSeq a b
  end.

Definition alt (a b : regex) : regex :=
  match a, b with
  | RNone, _ => b
  | _, RNone => a
  | _, _ => RAlt a b
  end.

Fixpoint deriv (ci : bool) (c : ascii) (r : regex) : regex :=
  match r with
  | RNone | REps => RNone
  | RChr k => if class_matches ci k c then REps else RNone
  | RSeq a b =>
      if nullable a then alt (seq (deriv ci c a) b) (deriv ci c b)
      else seq (deriv ci c a) b
  | RAlt a b => alt (deriv ci c a) (deriv ci c b)
  | RStar a => seq (deriv ci c a) (RStar a)
  end.

(** The whole of [s] is a word of [r]. *)
Fixpoint matches (ci : bool) (r : regex) (s : string) : bool :=
  match s with
  | EmptyString => nullable r
  | String c rest => matches ci (deriv ci c r) rest
  end.

(** [r.test(s)] for a pattern without anchors: some substring matches. *)
Definition test (ci : bool) (r : regex) (s : string) : bool :=
  matches ci (RSeq (RStar (RChr CAny)) (RSeq r (RStar (RChr CAny)))) s.

Fixpoint lit (s : string) : regex :=
  match s with
  | EmptyString => REps
  | String c rest => seq (RChr (CLit c)) (lit rest)
  end.

Definition plus (r : regex) : regex := RSeq r (RStar r).

Fixpoint seqs (l : list regex) : regex :=
  match l with
  | [] => REps
  | r :: rest => seq r (seqs rest)
  end.

Fixpoint alts (l : list regex) : regex :=
  match l with
  | [] => RNone
  | r :: rest => alt r (alts rest)
  end.

End Regex.

(** ** The shared types (types.ts) *)

Inductive GuardianRiskLevel : Type := low | medium | high | critical.
Inductive GuardianTrustLevel : Type := owner | allowed | unknown | subagent.
Inductive GuardianRuleAction : Type := allow | deny | escalate.
Inductive GuardianDecision : Type := allow_once | allow_session | allow_always | deny_decision.
Inductive ExceededAction : Type := exceeded_deny | exceeded_escalate.

Record GuardianRule : Type := {
  rule_id : option string;
  rule_tool : option string;
  rule_paramMatches : option (list (string * string));
  rule_minTrust : option GuardianTrustLevel;
  rule_riskLevel : option GuardianRiskLevel;
  rule_action : option GuardianRuleAction;
  rule_label : option string
}.

Record GuardianBudgetConfig : Type := {
  budget_enabled : option bool;
  sessionLimit : option Q;
  dailyLimit : option Q;
  perToolCosts : option (list (string * Q));
  defaultToolCost : option Q;
  onExceeded : option ExceededAction
}.

Record GuardianAgentConfig : Type := {
  agent_approvalThreshold : option GuardianRiskLevel;
  agent_rules : option (list GuardianRule);
  agent_constitution : option string;
  agent_budget : option GuardianBudgetConfig
}.

Record GuardianConfig : Type := {
  enabled : option bool;
  approvalThreshold : option GuardianRiskLevel;
  timeoutMs : option Z;
  rules : option (list GuardianRule);
  constitution : option string;
  constitutionPath : option string;
  budget : option GuardianBudgetConfig;
  agents : option (list (string * GuardianAgentConfig))
}.

(** What a variable declared as a risk level can hold: a level, or, for a
    tool name that the table of defaults inherits from [Object.prototype],
    that inherited member. *)
Inductive RiskValue : Type :=
| Level (l : GuardianRiskLevel)
| Inherited (name : string).

Record GuardianRuleResult : Type := {
  decision : GuardianRuleAction;
  riskLevel : RiskValue;
  trustLevel : GuardianTrustLevel;
  reason : option string;
  ruleLabel : option string
}.

Record GuardianLLMResult : Type := {
  llm_decision : GuardianRuleAction;
  llm_reason : option Js.value
}.

Record GuardianBudgetResult : Type := {
  exceeded : bool;
  budget_action : option ExceededAction;
  budget_reason : option string
}.

Definition risk_name (r : GuardianRiskLevel) : string :=
  match r with
  | low => "low" | medium => "medium" | high => "high" | critical => "critical"
  end.

(** A risk value in a template literal. *)
Definition risk_text (v : RiskValue) : string :=
  match v with
  | Level l => risk_name l
  | Inherited name => Js.inherited_text name
  end.

Definition trust_name (t : GuardianTrustLevel) : string :=
  match t with
  | owner => "owner" | allowed => "allowed" | unknown => "unknown" | subagent => "subagent"
  end.

(** [a ?? b] *)
Definition orElse {A} (a : option A) (b : A) : A :=
  match a with
  | Some x => x
  | None => b
  end.

Definition orElseOpt {A} (a b : option A) : option A :=
  match a with
  | Some x => Some x
  | None => b
  end.

(** [config.agents?.[agentId]] *)
Fixpoint lookup_agent (l : list (string * GuardianAgentConfig)) (agentId : string)
  : option GuardianAgentConfig :=
  match l with
  | [] => None
  | (k, a) :: rest => if String.eqb k agentId then Some a else lookup_agent rest agentId
  end.

Definition agent_config (config : GuardianConfig) (agentId : string)
  : option GuardianAgentConfig :=
  match agents config with
  | Some l => lookup_agent l agentId
  | None => None
  end.

(** ** Tier 1: risk classification and rules (rules.ts) *)

Module Rules.

Import Js Regex.

Definition TOOL_RISK_DEFAULTS : list (string * GuardianRiskLevel) :=
  [ ("read", low); ("memory_search", low); ("memory_get", low);
    ("web_search", low); ("web_fetch", low); ("session_status", low);
    ("sessions_list", low); ("sessions_history", low); ("agents_list", low);
    ("image", low);
    ("write", medium); ("edit", medium); ("apply_patch", medium);
    ("message", medium); ("browser", medium); ("canvas", medium);
    ("cron", medium); ("nodes", medium);
    ("exec", high); ("process", high); ("sessions_send", high);
    ("sessions_spawn", high);
    ("gateway", critical); ("whatsapp_login", critical) ].

Record ParamEscalation : Type := {
  esc_tool : string + regex;
  paramKey : string;
  pattern : regex;
  escalateTo : GuardianRiskLevel;
  esc_label : string
}.

(** [/(?:config|\.env|secret|credential|\.ssh|\.gnupg)/i] *)
Definition sensitive_path : regex :=
  alts [lit "config"; lit ".env"; lit "secret"; lit "credential"; lit ".ssh"; lit ".gnupg"].

(** [/(?:rm\s+-rf|DROP\s+TABLE|DELETE\s+FROM|TRUNCATE\s+TABLE|mkfs|dd\s+if=|format\s+[a-z]:|shutdown|reboot)/i] *)
Definition destructive_command : regex :=
  let sp := plus (RChr CSpace) in
  alts [ seqs [lit "rm"; sp; lit "-rf"];
         seqs [lit "DROP"; sp; lit "TABLE"];
         seqs [lit "DELETE"; sp; lit "FROM"];
         seqs [lit "TRUNCATE"; sp; lit "TABLE"];
         lit "mkfs";
         seqs [lit "dd"; sp; lit "if="];
         seqs [lit "format"; sp; RChr (CRange "a" "z"); lit ":"];
         lit "shutdown";
         lit "reboot" ].

Definition PARAM_ESCALATIONS : list ParamEscalation :=
  [ {| esc_tool := inl "write"; paramKey := "path"; pattern := sensitive_path;
       escalateTo := critical; esc_label := "write to sensitive path" |};
    {| esc_tool := inl "edit"; paramKey := "path"; pattern := sensitive_path;
       escalateTo := critical; esc_label := "edit sensitive path" |};
    {| esc_tool := inl "exec"; paramKey := "command"; pattern := destructive_command;
       escalateTo := critical; esc_label := "destructive command" |};
    {| esc_tool := inl "message"; paramKey := "action"; pattern := lit "broadcast";
       escalateTo := critical; esc_label := "broadcast message" |} ].

Definition RISK_ORDER (r : GuardianRiskLevel) : Z :=
  match r with
  | low => 0 | medium => 1 | high => 2 | critical => 3
  end.

Definition TRUST_ORDER (t : GuardianTrustLevel) : Z :=
  match t with
  | owner => 3 | allowed => 2 | unknown => 1 | subagent => 0
  end.

Definition riskAtLeast (level threshold : GuardianRiskLevel) : bool :=
  RISK_ORDER level >=? RISK_ORDER threshold.

Definition maxRisk (a b : GuardianRiskLevel) : GuardianRiskLevel :=
  if RISK_ORDER a >=? RISK_ORDER b then a else b.

Definition trustAtLeast (level min : GuardianTrustLevel) : bool :=
  TRUST_ORDER level >=? TRUST_ORDER min.

Definition resolveTrustLevel (senderIsOwner isSubagent isAllowed : option bool)
  : GuardianTrustLevel :=
  if orElse senderIsOwner false then owner
  else if orElse isSubagent false then subagent
  else if orElse isAllowed false then allowed
  else unknown.

Fixpoint lookup_risk (l : list (string * GuardianRiskLevel)) (toolName : string)
  : option GuardianRiskLevel :=
  match l with
  | [] => None
  | (k, r) :: rest => if String.eqb k toolName then Some r else lookup_risk rest toolName
  end.

(** [RISK_ORDER[v]] on any risk value: [undefined] for one that is no
    level. *)
Definition rank (v : RiskValue) : option Z :=
  match v with
  | Level l => Some (RISK_ORDER l)
  | Inherited _ => None
  end.

(** [a >= b] on two numbers, each possibly [undefined]. *)
Definition js_ge (a b : option Z) : bool :=
  match a, b with
  | Some x, Some y => x >=? y
  | _, _ => false
  end.

(** [riskAtLeast] and [maxRisk] as the code applies them to a value that
    need not be a level. *)
Definition riskAtLeast_value (level : RiskValue) (threshold : GuardianRiskLevel) : bool :=
  js_ge (rank level) (Some (RISK_ORDER threshold)).

Definition maxRisk_value (a : RiskValue) (b : GuardianRiskLevel) : RiskValue :=
  if js_ge (rank a) (Some (RISK_ORDER b)) then a else Level b.

(** [TOOL_RISK_DEFAULTS[toolName] ?? "medium"]: the table is a plain object,
    so the read goes through [Object.prototype]. *)
Definition getBaseRisk (toolName : string) : RiskValue :=
  match lookup_risk TOOL_RISK_DEFAULTS toolName with
  | Some r => Level r
  | None => if is_inherited toolName then Inherited toolName else Level medium
  end.

(** [typeof v === "string" ? v : JSON.stringify(v)]; the serialiser is not
    guarded here, so its exception is the exception of the caller. *)
Definition stringifyParam (v : value) : completion (option string) :=
  match v with
  | VStr s => Ok (Some s)
  | _ => JSON_stringify v
  end.

Fixpoint checkParamEscalations_from (escs : list ParamEscalation)
    (toolName : string) (toolParams : list (string * value))
  : completion (option (GuardianRiskLevel * string)) :=
  match escs with
  | [] => Ok None
  | esc :: rest =>
      let toolMatch :=
        match esc_tool esc with
        | inl name => String.eqb name toolName
        | inr re => test false re toolName
        end in
      if negb toolMatch then checkParamEscalations_from rest toolName toolParams
      else
        let paramValue := get toolParams (paramKey esc) in
        if is_nullish paramValue then checkParamEscalations_from rest toolName toolParams
        else
          let! str := stringifyParam paramValue in
          if test true (pattern esc) (coerce_string str)
          then Ok (Some (escalateTo esc, esc_label esc))
          else checkParamEscalations_from rest toolName toolParams
  end.

Definition checkParamEscalations := checkParamEscalations_from PARAM_ESCALATIONS.

(** A value the rule functions can turn into a string: absent, a string,
    or something [JSON.stringify] gives a text for. *)
Definition serialisable_value (v : value) : Prop :=
  is_nullish v = true \/ exists s, stringifyParam v = Ok (Some s).

(** Parameter maps all of whose reads under the [keys] are such values. *)
Definition serialisable (keys : list string) (toolParams : list (string * value)) : Prop :=
  forall key, In key keys -> serialisable_value (get toolParams key).

(** The parameter keys that the escalation table and the rules read. *)
Definition escalationKeys : list string := map paramKey PARAM_ESCALATIONS.

Definition ruleKeys (allRules : list GuardianRule) : list string :=
  flat_map (fun rule => map fst (orElse (rule_paramMatches rule) [])) allRules.

(** The expression the glob is turned into: [*] is [.*], [?] is [.], every
    other character stands for itself (the metacharacters are escaped). *)
Fixpoint glob_regex (pat : string) : regex :=
  match pat with
  | EmptyString => REps
  | String c rest =>
      let here :=
        if Ascii.eqb c "*" then RStar (RChr CDot)
        else if Ascii.eqb c "?" then RChr CDot
        else RChr (CLit c) in
      seq here (glob_regex rest)
  end.

Definition globMatch (pat value : string) : bool :=
  if String.eqb pat "*" then true
  else if negb (includes pat "*") && negb (includes pat "?") then String.eqb pat value
  else matches false (glob_regex pat) value.

Section WithRegExp.

(** [new RegExp(pattern, "i")] on a pattern of the configuration: the
    compiled expression, or [None] when the constructor throws. *)
Variable compileRegExp : string -> option regex.

Fixpoint matchParams (entries : list (string * string)) (toolParams : list (string * value))
  : completion bool :=
  match entries with
  | [] => Ok true
  | (key, pat) :: rest =>
      let paramValue := get toolParams key in
      if is_nullish paramValue then Ok false
      else
        let! str := stringifyParam paramValue in
        match compileRegExp pat with
        | Some re =>
            if test true re (coerce_string str) then matchParams rest toolParams
            else Ok false
        | None =>
            (* Invalid regex, treat as literal substring match *)
            match str with
            | Some s => if includes s pat then matchParams rest toolParams else Ok false
            | None => Throw "TypeError: Cannot read properties of undefined (reading 'includes')"
            end
        end
  end.

Definition matchRule (rule : GuardianRule) (toolName : string)
    (toolParams : list (string * value)) (trust : GuardianTrustLevel) : completion bool :=
  if truthy (rule_tool rule) && negb (globMatch (orElse (rule_tool rule) EmptyString) toolName)
  then Ok false
  else if match rule_minTrust rule with
          | Some m => negb (trustAtLeast trust m)
          | None => false
          end
  then Ok false
  else match rule_paramMatches rule with
       | Some entries => matchParams entries toolParams
       | None => Ok true
       end.

End WithRegExp.

Definition effectiveThreshold (config : GuardianConfig) (agentId : option string)
  : GuardianRiskLevel :=
  match (if truthy agentId
         then match agent_config config (orElse agentId EmptyString) with
              | Some a => agent_approvalThreshold a
              | None => None
              end
         else None) with
  | Some t => t
  | None => orElse (approvalThreshold config) high
  end.

(** [{ ...a, ...b }] on two budget configurations: a field of [b] that is
    present wins. *)
Definition spread_budget (a : option GuardianBudgetConfig) (b : GuardianBudgetConfig)
  : GuardianBudgetConfig :=
  match a with
  | None => b
  | Some a =>
      {| budget_enabled := orElseOpt (budget_enabled b) (budget_enabled a);
         sessionLimit := orElseOpt (sessionLimit b) (sessionLimit a);
         dailyLimit := orElseOpt (dailyLimit b) (dailyLimit a);
         perToolCosts := orElseOpt (perToolCosts b) (perToolCosts a);
         defaultToolCost := orElseOpt (defaultToolCost b) (defaultToolCost a);
         onExceeded := orElseOpt (onExceeded b) (onExceeded a) |}
  end.

Definition effectiveBudget (config : GuardianConfig) (agentId : option string)
  : option GuardianBudgetConfig :=
  match (if truthy agentId
         then match agent_config config (orElse agentId EmptyString) with
              | Some a => agent_budget a
              | None => None
              end
         else None) with
  | Some b => Some (spread_budget (budget config) b)
  | None => budget config
  end.

Section Evaluate.

Variable normalizeToolName : string -> string.
Variable compileRegExp : string -> option regex.

(** The risk of a call and the label of the escalation that raised it:
    the first block of [evaluateRules]. *)
Definition classify (toolName : string) (toolParams : list (string * value))
  : completion (RiskValue * option string) :=
  let riskLevel := getBaseRisk toolName in
  let! paramEscalation := checkParamEscalations toolName toolParams in
  match paramEscalation with
  | Some (risk, label) => Ok (maxRisk_value riskLevel risk, Some label)
  | None => Ok (riskLevel, None)
  end.

(** The loop over [allRules]: the first rule that matches. *)
Fixpoint firstMatch (allRules : list GuardianRule) (toolName : string)
    (toolParams : list (string * value)) (trust : GuardianTrustLevel)
  : completion (option GuardianRule) :=
  match allRules with
  | [] => Ok None
  | rule :: rest =>
      let! m := matchRule compileRegExp rule toolName toolParams trust in
      if m then Ok (Some rule) else firstMatch rest toolName toolParams trust
  end.

Definition levels : list GuardianRiskLevel := [low; medium; high; critical].

(** Subagents get a stricter threshold (one level lower). *)
Definition adjustedThreshold (threshold : GuardianRiskLevel) (trust : GuardianTrustLevel)
  : GuardianRiskLevel :=
  match trust with
  | subagent =>
      if RISK_ORDER threshold >? 0
      then orElse (levels !! Z.to_nat (RISK_ORDER threshold - 1)) threshold
      else threshold
  | _ => threshold
  end.

Definition is_owner (t : GuardianTrustLevel) : bool :=
  match t with owner => true | _ => false end.

Definition evaluateRules (rawToolName : string) (toolParams : list (string * value))
    (globalRules agentRules : option (list GuardianRule))
    (threshold : GuardianRiskLevel) (trust : GuardianTrustLevel)
  : completion GuardianRuleResult :=
  let toolName := normalizeToolName rawToolName in
  let! cl := classify toolName toolParams in
  let riskLevel := fst cl in
  let escalationLabel := snd cl in
  let allRules := (orElse agentRules [] ++ orElse globalRules [])%list in
  let! hit := firstMatch allRules toolName toolParams trust in
  match hit with
  | Some rule =>
      let action := orElse (rule_action rule) escalate in
      let ruleRisk :=
        match rule_riskLevel rule with
        | Some r => maxRisk_value riskLevel r
        | None => riskLevel
        end in
      Ok {| decision := action;
            riskLevel := ruleRisk;
            trustLevel := trust;
            reason :=
              Some (orElse escalationLabel
                      (orElse (rule_label rule)
                         ("matched rule: "
                            ++ orElse (rule_id rule) (orElse (rule_tool rule) "*"))));
            ruleLabel := orElseOpt (rule_label rule) (rule_id rule) |}
  | None =>
      if is_owner trust && negb (riskAtLeast_value riskLevel critical)
      then Ok {| decision := allow; riskLevel := riskLevel; trustLevel := trust;
                 reason := Some "owner bypass (risk below critical)";
                 ruleLabel := None |}
      else
        let adjusted := adjustedThreshold threshold trust in
        if riskAtLeast_value riskLevel adjusted
        then Ok {| decision := escalate; riskLevel := riskLevel; trustLevel := trust;
                   reason :=
                     Some (orElse escalationLabel
                             ("risk " ++ risk_text riskLevel ++ " >= threshold "
                                ++ risk_name adjusted));
                   ruleLabel := None |}
        else Ok {| decision := allow; riskLevel := riskLevel; trustLevel := trust;
                   reason :=
                     Some ("risk " ++ risk_text riskLevel ++ " < threshold "
                             ++ risk_name adjusted);
                   ruleLabel := None |}
  end.

End Evaluate.

End Rules.

(** ** Host services

    What the Guardian calls and the repository does not define.  The
    theorems below hold for every host. *)

Record Platform : Type := {
  (* agents/tool-policy.js *)
  normalizeToolName : string -> string;
  (* [new RegExp(pattern, "i")]; [None] when the constructor throws *)
  compileRegExp : string -> option Regex.regex;
  (* the sign of [a.localeCompare(b)] *)
  localeCompare : string -> string -> comparison;
  (* [x.toFixed(4)] and the conversion of a number in a template literal *)
  toFixed4 : Q -> string;
  Number_toString : Q -> string;
  (* [JSON.parse(text)]; [None] when it throws a SyntaxError *)
  JSON_parse : string -> option Js.value;
  (* the text matched by the search of [parseDecision] for an opening brace
     followed, before any closing brace, by a quoted [decision] key, a colon
     and a non-empty quoted value; [None] when there is no match *)
  matchDecisionObject : string -> option string;
  (* [readFileSync(path, "utf8")]; [None] when it throws *)
  readFileSync : string -> option string
}.

(** ** The budget ledger (budget.ts) *)

Module Budget.

Import Js.

(** A calendar day ([todayKey()], an ISO date) is its day number, so that
    the comparison of two dates is the comparison of the numbers. *)
Record DailyBudgetEntry : Type := {
  date : Z;
  totalCost : Q;
  perAgent : gmap string Q
}.

(** The file at [budgetPath]: absent; not parseable; parseable to a value
    whose [daily] is not an array ([{}], [null], [{"daily": 5}]), on which
    [data.daily?.find] finds nothing or throws and [data.daily.filter] throws
    the [TypeError] [err]; or a [daily] array of entries of the declared
    type, as [saveDaily] writes it. *)
Inductive BudgetFile : Type :=
| Missing
| Unparseable
| NoDailyArray (err : string)
| Stored (daily : list DailyBudgetEntry).

(** The variables a tracker closes over, and what it sees of its host: the
    file it persists to, whether [writeFileSync] succeeds ([writable]), and
    the clock.  The cutoff of [saveDaily] is set seven days back in local
    time and printed in UTC; [cutoffDrift] is the number of days by which
    that date differs from seven days before today's UTC date: 0, or, when
    the clock was changed during the week, -1 or 1. *)
Record BudgetTracker : Type := {
  budgetPath : option string;
  sessionCosts : gmap string Q;
  sessionTotal : Q;
  dailyCache : option DailyBudgetEntry;
  file : BudgetFile;
  writable : bool;
  cutoffDrift : Z
}.

(** A new tracker, on a host without a change of the clock. *)
Definition createBudgetTracker (path : option string) (f : BudgetFile) (w : bool)
  : BudgetTracker :=
  {| budgetPath := path; sessionCosts := ∅; sessionTotal := 0%Q;
     dailyCache := None; file := f; writable := w; cutoffDrift := 0 |}.

Definition set_cutoffDrift (t : BudgetTracker) (d : Z) : BudgetTracker :=
  {| budgetPath := budgetPath t; sessionCosts := sessionCosts t;
     sessionTotal := sessionTotal t; dailyCache := dailyCache t; file := file t;
     writable := writable t; cutoffDrift := d |}.

Fixpoint lookup_cost (l : list (string * Q)) (toolName : string) : option Q :=
  match l with
  | [] => None
  | (k, c) :: rest => if String.eqb k toolName then Some c else lookup_cost rest toolName
  end.

Definition resolveToolCost (toolName : string) (config : option GuardianBudgetConfig) : Q :=
  match config with
  | Some c =>
      match (match perToolCosts c with
             | Some l => lookup_cost l toolName
             | None => None
             end) with
      | Some cost => cost
      | None => orElse (defaultToolCost c) (1 # 100)%Q
      end
  | None => (1 # 100)%Q
  end.

Definition set_dailyCache (t : BudgetTracker) (e : option DailyBudgetEntry) : BudgetTracker :=
  {| budgetPath := budgetPath t; sessionCosts := sessionCosts t;
     sessionTotal := sessionTotal t; dailyCache := e; file := file t;
     writable := writable t; cutoffDrift := cutoffDrift t |}.

Definition set_file (t : BudgetTracker) (f : BudgetFile) : BudgetTracker :=
  {| budgetPath := budgetPath t; sessionCosts := sessionCosts t;
     sessionTotal := sessionTotal t; dailyCache := dailyCache t; file := f;
     writable := writable t; cutoffDrift := cutoffDrift t |}.

Definition set_session (t : BudgetTracker) (total : Q) (costs : gmap string Q)
  : BudgetTracker :=
  {| budgetPath := budgetPath t; sessionCosts := costs;
     sessionTotal := total; dailyCache := dailyCache t; file := file t;
     writable := writable t; cutoffDrift := cutoffDrift t |}.

Definition exists_file (t : BudgetTracker) : bool :=
  match file t with
  | Missing => false
  | _ => true
  end.

(** [loadDaily()]: today's entry, read from the cache, else from the file,
    else started afresh; the entry becomes the cache. *)
Definition loadDaily (today : Z) (t : BudgetTracker) : DailyBudgetEntry * BudgetTracker :=
  let cached :=
    match dailyCache t with
    | Some c => if date c =? today then Some c else None
    | None => None
    end in
  match cached with
  | Some c => (c, t)
  | None =>
      let stored :=
        if truthy (budgetPath t) && exists_file t
        then match file t with
             | Stored daily => List.find (fun d => date d =? today) daily
             | _ => None
             end
        else None in
      let entry := orElse stored {| date := today; totalCost := 0%Q; perAgent := ∅ |} in
      (entry, set_dailyCache t (Some entry))
  end.

(** What the tracker has counted: the session totals, the persisted file
    and today's totals. *)
Definition ledger (today : Z) (t : BudgetTracker)
  : Q * gmap string Q * BudgetFile * DailyBudgetEntry :=
  (sessionTotal t, sessionCosts t, file t, fst (loadDaily today t)).

(** [saveDaily(entry)]: rewrite the file with the entries from the cutoff
    on and the entry.  A failing write is swallowed; the [filter] is outside
    every [try], so on a file without a [daily] array it throws and nothing
    is written. *)
Definition saveDaily (today : Z) (entry : DailyBudgetEntry) (t : BudgetTracker)
  : completion unit * BudgetTracker :=
  if negb (truthy (budgetPath t)) then (Ok tt, t)
  else
    match file t with
    | NoDailyArray err => (Throw err, t)
    | f =>
        let data :=
          match f with
          | Stored daily => daily
          | _ => []
          end in
        let cutoff := today - 7 + cutoffDrift t in
        let kept :=
          List.filter (fun d => (date d >=? cutoff) && negb (date d =? date entry)) data in
        (Ok tt, if writable t then set_file t (Stored (kept ++ [entry])%list) else t)
    end.

Definition getSessionCost (agentId : option string) (t : BudgetTracker) : Q :=
  if truthy agentId
  then orElse (sessionCosts t !! orElse agentId EmptyString) 0%Q
  else sessionTotal t.

Definition getDailyCost (today : Z) (agentId : option string) (t : BudgetTracker)
  : Q * BudgetTracker :=
  let '(daily, t1) := loadDaily today t in
  if truthy agentId
  then (orElse (perAgent daily !! orElse agentId EmptyString) 0%Q, t1)
  else (totalCost daily, t1).

(** [recordCost(toolName, cost, agentId)]: how it completes, and the
    tracker it leaves.  When [saveDaily] throws, the session costs and the
    cached entry have already been updated. *)
Definition recordCost_run (today : Z) (toolName : string) (cost : Q)
    (agentId : option string) (t : BudgetTracker) : completion unit * BudgetTracker :=
  let total := (sessionTotal t + cost)%Q in
  let costs :=
    if truthy agentId
    then let a := orElse agentId EmptyString in
         <[a := (orElse (sessionCosts t !! a) 0 + cost)%Q]> (sessionCosts t)
    else sessionCosts t in
  let t1 := set_session t total costs in
  let '(daily, t2) := loadDaily today t1 in
  let daily' :=
    {| date := date daily;
       totalCost := (totalCost daily + cost)%Q;
       perAgent :=
         if truthy agentId
         then let a := orElse agentId EmptyString in
              <[a := (orElse (perAgent daily !! a) 0 + cost)%Q]> (perAgent daily)
         else perAgent daily |} in
  saveDaily today daily' (set_dailyCache t2 (Some daily')).

(** The tracker after [recordCost], whether it returned or threw. *)
Definition recordCost (today : Z) (toolName : string) (cost : Q)
    (agentId : option string) (t : BudgetTracker) : BudgetTracker :=
  snd (recordCost_run today toolName cost agentId t).

Definition reset (t : BudgetTracker) : BudgetTracker :=
  set_dailyCache (set_session t 0%Q ∅) None.

Definition gt (a b : Q) : bool := negb (Qle_bool a b).

Section Check.

Variable P : Platform.

Definition checkBudget (today : Z) (toolName : string)
    (budgetConfig : option GuardianBudgetConfig) (agentId : option string)
    (t : BudgetTracker) : GuardianBudgetResult * BudgetTracker :=
  let unexceeded := {| exceeded := false; budget_action := None; budget_reason := None |} in
  match budgetConfig with
  | None => (unexceeded, t)
  | Some c =>
      if negb (orElse (budget_enabled c) false) then (unexceeded, t)
      else
        let cost := resolveToolCost toolName budgetConfig in
        let action := orElse (onExceeded c) exceeded_deny in
        let overSession :=
          match sessionLimit c with
          | Some limit =>
              let currentSession := getSessionCost agentId t in
              if gt (currentSession + cost) limit
              then Some ("Session budget exceeded: $"
                           ++ toFixed4 P (currentSession + cost) ++ " > $"
                           ++ Number_toString P limit ++ " limit")
              else None
          | None => None
          end in
        match overSession with
        | Some why =>
            ({| exceeded := true; budget_action := Some action;
                budget_reason := Some why |}, t)
        | None =>
            match dailyLimit c with
            | Some limit =>
                let '(currentDaily, t1) := getDailyCost today agentId t in
                if gt (currentDaily + cost) limit
                then ({| exceeded := true; budget_action := Some action;
                         budget_reason :=
                           Some ("Daily budget exceeded: $"
                                   ++ toFixed4 P (currentDaily + cost) ++ " > $"
                                   ++ Number_toString P limit ++ " limit") |}, t1)
                else (unexceeded, t1)
            | None => (unexceeded, t)
            end
        end
  end.

End Check.

Definition recordToolCost_run (today : Z) (toolName : string)
    (budgetConfig : option GuardianBudgetConfig) (agentId : option string)
    (t : BudgetTracker) : completion unit * BudgetTracker :=
  let cost := resolveToolCost toolName budgetConfig in
  recordCost_run today toolName cost agentId t.

(** The tracker after [recordToolCost], whether it returned or threw. *)
Definition recordToolCost (today : Z) (toolName : string)
    (budgetConfig : option GuardianBudgetConfig) (agentId : option string)
    (t : BudgetTracker) : BudgetTracker :=
  let cost := resolveToolCost toolName budgetConfig in
  recordCost today toolName cost agentId t.

End Budget.

(** [try { body } catch (err) { handler(String(err)) }] *)
Definition try_catch {A} (body : completion A) (handler : string -> completion A)
  : completion A :=
  match body with
  | Ok a => Ok a
  | Throw e => handler e
  end.

(** ** Tier 2: the delegated adjudicator (llm-evaluator.ts) *)

Module LLM.

Import Js.

Definition q : string := str1 dquote.
Definition nl : string := str1 newline.

Definition DEFAULT_GUARDIAN_CONSTITUTION : string :=
  join nl
    [ "You are the Guardian, a policy enforcement agent for OpenClaw.";
      "Your job is to evaluate whether a proposed tool call should be allowed.";
      EmptyString;
      "## Core Policies";
      "- NEVER allow deletion of databases, production data, or critical infrastructure without explicit operator approval.";
      "- NEVER allow sending messages to large groups or broadcasts without approval.";
      "- NEVER allow modification of authentication credentials or secrets.";
      "- NEVER allow gateway/system configuration changes without approval.";
      "- File writes to config files, .env files, or credential stores require approval.";
      "- Bash commands with destructive potential (rm -rf, DROP TABLE, etc.) require approval.";
      "- Be PERMISSIVE for read-only operations, file edits in working directories, and routine development tasks.";
      "- When uncertain, escalate to human rather than blocking.";
      EmptyString;
      "## Trust Adjustments";
      "- Owner-initiated actions deserve higher trust.";
      "- Subagent actions deserve lower trust; they may be operating on stale or incorrect context.";
      "- Unknown senders should be treated with caution.";
      EmptyString;
      "## Decision Format";
      "Respond with JSON only: { " ++ q ++ "decision" ++ q ++ ": " ++ q ++ "allow" ++ q
        ++ " | " ++ q ++ "deny" ++ q ++ " | " ++ q ++ "escalate" ++ q ++ ", " ++ q
        ++ "reason" ++ q ++ ": " ++ q ++ "brief explanation" ++ q ++ " }" ].

Definition LLM_TIMEOUT_MS : Z := 5000.

(** How the race of the call against the timer ends: the call answers, the
    call fails ([err] is [String(err)] of what it threw or rejected with), or
    the timer wins. *)
Inductive LLMOutcome : Type :=
| Responded (text : string)
| Failed (err : string)
| TimedOut.

(** [callLLM({ system, user, maxTokens })] raced against [timeoutMs]. *)
Definition GuardianLLMCaller : Type := string -> string -> Z -> Z -> LLMOutcome.

Definition buildSystemPrompt (constitution : option string) : string :=
  let trimmed := match constitution with Some c => Some (trim c) | None => None end in
  let base := if truthy trimmed then orElse trimmed EmptyString
              else DEFAULT_GUARDIAN_CONSTITUTION in
  join nl
    [ base;
      EmptyString;
      "## Important";
      "- You MUST respond with valid JSON only: { " ++ q ++ "decision" ++ q ++ ": " ++ q
        ++ "allow" ++ q ++ " | " ++ q ++ "deny" ++ q ++ " | " ++ q ++ "escalate" ++ q
        ++ ", " ++ q ++ "reason" ++ q ++ ": " ++ q ++ "brief explanation" ++ q ++ " }";
      "- No markdown fences, no extra text, just the JSON object." ].

Definition buildUserMessage (toolName : string) (toolParams : list (string * value))
    (risk : RiskValue) (trust : GuardianTrustLevel) (agentId : option string)
  : string :=
  let paramsStr :=
    match stringify_at "  " EmptyString (VObj toolParams) with
    | Ok (Some s) =>
        if (2000 <? String.length s)%nat
        then substring 0 2000 s ++ nl ++ "... (truncated)"
        else s
    | _ => "(unable to serialize params)"
    end in
  let head :=
    [ "An agent wants to execute the following tool call:";
      "Tool: " ++ toolName;
      "Parameters: " ++ paramsStr;
      "Risk Level: " ++ risk_text risk;
      "Trust Level: " ++ trust_name trust ] in
  let agent := if truthy agentId then ["Agent: " ++ orElse agentId EmptyString] else [] in
  let tail := [ EmptyString; "Based on the policies, should this be allowed?" ] in
  join nl (List.app head (List.app agent tail)).

(** Property read [v.key] on a parsed value: a [TypeError] on [null]. *)
Definition prop (v : value) (key : string) : completion value :=
  match v with
  | VObj props => Ok (get props key)
  | VNull | VUndefined => Throw "TypeError: Cannot read properties of null"
  | _ => Ok VUndefined
  end.

Definition js_truthy (v : value) : bool :=
  match v with
  | VUndefined | VNull => false
  | VBool b => b
  | VNum n => negb (n =? 0)
  | VStr s => negb (String.eqb s EmptyString)
  | _ => true
  end.

(** [v.toLowerCase().trim()]: a [TypeError] unless [v] is a string. *)
Definition lowerTrimmed (v : value) : completion string :=
  match v with
  | VStr s => Ok (trim (toLowerCase s))
  | _ => Throw "TypeError: toLowerCase is not a function"
  end.

Definition as_action (d : string) : option GuardianRuleAction :=
  if String.eqb d "allow" then Some allow
  else if String.eqb d "deny" then Some deny
  else if String.eqb d "escalate" then Some escalate
  else None.

(** The value of a parsed [reason] as the result carries it. *)
Definition reason_of (v : value) : option value :=
  match v with
  | VUndefined => None
  | _ => Some v
  end.

(** [s.indexOf(t)] *)
Definition indexOf (s t : string) : Z :=
  match String.index 0 t s with
  | Some n => Z.of_nat n
  | None => -1
  end.

(** [s.slice(from, to)] *)
Definition slice (s : string) (from to : Z) : string :=
  let len := Z.of_nat (String.length s) in
  let a := if from <? 0 then Z.max (len + from) 0 else Z.min from len in
  let b := if to <? 0 then Z.max (len + to) 0 else Z.min to len in
  substring (Z.to_nat a) (Z.to_nat (Z.max (b - a) 0)) s.

Fixpoint drop_chars (n : nat) (s : string) : string :=
  match n, s with
  | O, _ => s
  | S n', String _ rest => drop_chars n' rest
  | S _, EmptyString => EmptyString
  end.

(** The scan for the closing brace: the index at which the depth first
    comes back to zero. *)
Fixpoint closingBrace (rest : string) (i depth : Z) : option Z :=
  match rest with
  | EmptyString => None
  | String c rest' =>
      let depth1 := if Ascii.eqb c "{" then depth + 1 else depth in
      if Ascii.eqb c "}"
      then if depth1 - 1 =? 0 then Some i else closingBrace rest' (i + 1) (depth1 - 1)
      else closingBrace rest' (i + 1) depth1
  end.

Section Parse.

Variable P : Platform.

Definition parse (text : string) : completion value :=
  match JSON_parse P text with
  | Some v => Ok v
  | None => Throw "SyntaxError: Unexpected token in JSON"
  end.

(** The body of the outer [try]: [Some] is an early return. *)
Definition parseWhole (cleaned : string) : completion (option GuardianLLMResult) :=
  let! parsed := parse cleaned in
  let! dv := prop parsed "decision" in
  if js_truthy dv
  then
    let! d := lowerTrimmed dv in
    match as_action d with
    | Some a =>
        let! r := prop parsed "reason" in
        Ok (Some {| llm_decision := a; llm_reason := reason_of r |})
    | None => Ok None
    end
  else Ok None.

(** The body of the inner [try], on the span between the braces. *)
Definition parseSpan (span : string) : completion (option GuardianLLMResult) :=
  let! obj := parse span in
  let! dv := prop obj "decision" in
  if is_nullish dv then Ok None
  else
    let! d := lowerTrimmed dv in
    match as_action d with
    | Some a =>
        let! r := prop obj "reason" in
        Ok (Some {| llm_decision := a; llm_reason := reason_of r |})
    | None => Ok None
    end.

(** The [catch] block: look for an object with a decision inside the text. *)
Definition parseEmbedded (cleaned : string) : completion (option GuardianLLMResult) :=
  match matchDecisionObject P cleaned with
  | None => Ok None
  | Some jsonMatch =>
      let start := indexOf cleaned jsonMatch in
      let first := Z.max start 0 in
      match closingBrace (drop_chars (Z.to_nat first) cleaned) first 0 with
      | Some i =>
          try_catch (parseSpan (slice cleaned start (i + 1))) (fun _ => Ok None)
      | None => Ok None
      end
  end.

Definition could_not_parse : GuardianLLMResult :=
  {| llm_decision := escalate;
     llm_reason := Some (VStr "Could not parse LLM response") |}.

Definition parseDecision (text : string) : completion GuardianLLMResult :=
  let cleaned := trim text in
  let! early := try_catch (parseWhole cleaned) (fun _ => parseEmbedded cleaned) in
  Ok (orElse early could_not_parse).

(** A decision that a parse attempt on [span] extracted. *)
Definition extracted (span : string) (r : GuardianLLMResult) : Prop :=
  exists props s,
    JSON_parse P span = Some (VObj props)
    /\ get props "decision" = VStr s
    /\ as_action (trim (toLowerCase s)) = Some (llm_decision r).

Definition raceOutcome (o : LLMOutcome) : completion string :=
  match o with
  | Responded text => Ok text
  | Failed err => Throw err
  | TimedOut => Throw "Error: LLM evaluation timed out"
  end.

Definition evaluateWithLLM (toolName : string) (toolParams : list (string * value))
    (risk : RiskValue) (trust : GuardianTrustLevel)
    (constitution agentId : option string) (callLLM : GuardianLLMCaller)
    (timeout : option Z) : completion GuardianLLMResult :=
  let timeoutMs := orElse timeout LLM_TIMEOUT_MS in
  let system := buildSystemPrompt constitution in
  let user := buildUserMessage toolName toolParams risk trust agentId in
  try_catch
    (let! text := raceOutcome (callLLM system user 256 timeoutMs) in
     parseDecision text)
    (fun err =>
       Ok {| llm_decision := escalate;
             llm_reason := Some (VStr ("LLM evaluation failed: " ++ err)) |}).

Definition resolveConstitution (config : GuardianConfig)
    (agentConfig : option GuardianAgentConfig) : string :=
  let agentText := match agentConfig with
                   | Some a => agent_constitution a
                   | None => None
                   end in
  if truthy agentText then orElse agentText EmptyString
  else
    match (if truthy (constitutionPath config)
           then readFileSync P (orElse (constitutionPath config) EmptyString)
           else None) with
    | Some text => text
    | None =>
        if truthy (constitution config) then orElse (constitution config) EmptyString
        else DEFAULT_GUARDIAN_CONSTITUTION
    end.

End Parse.

End LLM.

(** ** The orchestrator (hook.ts) *)

Module Hook.

Import Js Rules Budget LLM.

Record PluginHookBeforeToolCallEvent : Type := {
  ev_toolName : string;
  ev_params : list (string * value)
}.

Record PluginHookToolContext : Type := {
  ctx_agentId : option string;
  ctx_senderIsOwner : option bool
}.

Record PluginHookBeforeToolCallResult : Type := {
  block : bool;
  blockReason : value
}.

Record HumanApprovalRequest : Type := {
  req_toolName : string;
  req_toolParams : list (string * value);
  req_riskLevel : RiskValue;
  req_trustLevel : string;
  req_reason : option string;
  req_agentId : option string;
  req_sessionKey : option string;
  req_timeoutMs : Z
}.

(** The answer of the approval channel: a decision, [null] on timeout, or
    a rejection. *)
Definition GuardianHumanApprovalFn : Type :=
  HumanApprovalRequest -> completion (option GuardianDecision).

Record GuardianHookParams : Type := {
  config : GuardianConfig;
  agentId : option string;
  sessionKey : option string;
  senderIsOwner : option bool;
  isSubagent : option bool;
  isAllowed : option bool;
  callLLM : option GuardianLLMCaller;
  requestHumanApproval : option GuardianHumanApprovalFn
}.

(** What a hook owns and mutates: its two caches and, when one was passed
    to [createGuardianHook], the budget tracker. *)
Record HookState : Type := {
  taskAllowCache : gset string;
  alwaysAllowCache : gset string;
  budgetTracker : option BudgetTracker
}.

Definition createGuardianHook (tracker : option BudgetTracker) : HookState :=
  {| taskAllowCache := ∅; alwaysAllowCache := ∅; budgetTracker := tracker |}.

Definition set_tracker (st : HookState) (t : BudgetTracker) : HookState :=
  {| taskAllowCache := taskAllowCache st; alwaysAllowCache := alwaysAllowCache st;
     budgetTracker := Some t |}.

(** Hook parameters with another approval channel. *)
Definition with_approval (p : GuardianHookParams) (approve : GuardianHumanApprovalFn)
  : GuardianHookParams :=
  {| config := config p; agentId := agentId p; sessionKey := sessionKey p;
     senderIsOwner := senderIsOwner p; isSubagent := isSubagent p;
     isAllowed := isAllowed p; callLLM := callLLM p;
     requestHumanApproval := Some approve |}.

(** Two approval channels that differ only in answering [null] where the
    other answers [deny]. *)
Definition deny_or_timeout (a1 a2 : GuardianHumanApprovalFn) : Prop :=
  forall req,
    a1 req = a2 req
    \/ (a1 req = Ok (Some deny_decision) /\ a2 req = Ok None)
    \/ (a1 req = Ok None /\ a2 req = Ok (Some deny_decision)).

(** The state with one more key in the session cache, in the permanent
    cache. *)
Definition cache_session (key : string) (st : HookState) : HookState :=
  {| taskAllowCache := {[key]} ∪ taskAllowCache st;
     alwaysAllowCache := alwaysAllowCache st;
     budgetTracker := budgetTracker st |}.

Definition cache_always (key : string) (st : HookState) : HookState :=
  {| taskAllowCache := taskAllowCache st;
     alwaysAllowCache := {[key]} ∪ alwaysAllowCache st;
     budgetTracker := budgetTracker st |}.

Definition cache_add (permanent : bool) (key : string) (st : HookState) : HookState :=
  if permanent then cache_always key st else cache_session key st.

(** What the budget tracker of a hook has counted. *)
Definition counted (today : Z) (st : HookState)
  : option (Q * gmap string Q * BudgetFile * DailyBudgetEntry) :=
  match budgetTracker st with
  | Some t => Some (ledger today t)
  | None => None
  end.

(** Two states with the same caches and the same counts; they can differ
    in whether today's entry is already cached. *)
Definition same_books (today : Z) (st st' : HookState) : Prop :=
  taskAllowCache st' = taskAllowCache st
  /\ alwaysAllowCache st' = alwaysAllowCache st
  /\ counted today st' = counted today st.

(** A result with one more key cached in its state. *)
Definition and_cached {A} (permanent : bool) (key : string) (x : A * HookState)
  : A * HookState :=
  (fst x, cache_add permanent key (snd x)).

Section WithPlatform.

Variable P : Platform.

(** [toSorted] with the comparison of keys: a stable insertion. *)
Fixpoint insertEntry (e : string * value) (l : list (string * value))
  : list (string * value) :=
  match l with
  | [] => [e]
  | y :: rest =>
      match localeCompare P (fst e) (fst y) with
      | Gt => y :: insertEntry e rest
      | _ => e :: y :: rest
      end
  end.

Definition toSorted (l : list (string * value)) : list (string * value) :=
  fold_right insertEntry [] l.

Definition serializeEntry (e : string * value) : string :=
  let vs := match JSON_stringify (snd e) with
            | Ok o => coerce_string o
            | Throw _ => String_of (snd e)
            end in
  fst e ++ "=" ++ vs.

Definition cacheKey (toolName : string) (toolParams : list (string * value)) : string :=
  toolName ++ ":" ++ join "&" (map serializeEntry (toSorted toolParams)).

Definition resolveDecision (decision : option GuardianDecision) (key : string)
    (st : HookState) : option PluginHookBeforeToolCallResult * HookState :=
  match decision with
  | None | Some deny_decision =>
      (Some {| block := true; blockReason := VStr "Denied by operator" |}, st)
  | Some allow_session => (None, cache_session key st)
  | Some allow_always => (None, cache_always key st)
  | Some allow_once => (None, st)
  end.

Section Handler.

Variable params : GuardianHookParams.
Variable today : Z.

(** [recordCostIfEnabled(toolName, agentId)], and the same recording on
    the cache hit: how it completes, and the state it leaves. *)
Definition recordCostIfEnabled_run (toolName : string) (agent : option string)
    (st : HookState) : completion unit * HookState :=
  match budgetTracker st with
  | Some t =>
      let '(c, t1) :=
        recordToolCost_run today toolName (effectiveBudget (config params) agent) agent t in
      (c, set_tracker st t1)
  | None => (Ok tt, st)
  end.

(** The state after the recording, whether it returned or threw. *)
Definition recordCostIfEnabled (toolName : string) (agent : option string)
    (st : HookState) : HookState :=
  match budgetTracker st with
  | Some t =>
      set_tracker st
        (recordToolCost today toolName (effectiveBudget (config params) agent) agent t)
  | None => st
  end.

(** A call that proceeds after its cost was recorded; an exception of the
    recording is the exception of the handler. *)
Definition proceed (toolName : string) (agent : option string) (st : HookState)
  : completion (option PluginHookBeforeToolCallResult) * HookState :=
  let '(c, st1) := recordCostIfEnabled_run toolName agent st in
  (match c with
   | Ok _ => Ok None
   | Throw e => Throw e
   end, st1).

Definition trustOf (ctx : PluginHookToolContext) : GuardianTrustLevel :=
  resolveTrustLevel (orElseOpt (ctx_senderIsOwner ctx) (senderIsOwner params))
    (isSubagent params) (isAllowed params).

Definition blocked (why : value) : option PluginHookBeforeToolCallResult :=
  Some {| block := true; blockReason := why |}.

(** Tier 3, as both the budget gate and the rule tiers enter it. *)
Definition askHuman (approve : GuardianHumanApprovalFn) (request : HumanApprovalRequest)
    (key : string) (st : HookState)
  : completion (option PluginHookBeforeToolCallResult) * HookState :=
  match approve request with
  | Ok decision =>
      let '(r, st1) := resolveDecision decision key st in (Ok r, st1)
  | Throw e => (Throw e, st)
  end.

(** Tier 1 to Tier 3: the handler after the cache and the budget gate. *)
Definition tiers (toolName : string) (toolParams : list (string * value))
    (agent : option string) (key : string) (ctx : PluginHookToolContext)
    (st : HookState)
  : completion (option PluginHookBeforeToolCallResult) * HookState :=
  let cfg := config params in
  let trust := trustOf ctx in
  let agentRules :=
    match agent_config cfg (orElse agent EmptyString) with
    | Some a => agent_rules a
    | None => None
    end in
  match evaluateRules (normalizeToolName P) (compileRegExp P) toolName toolParams
          (rules cfg) agentRules (effectiveThreshold cfg agent) trust with
  | Throw e => (Throw e, st)
  | Ok ruleResult =>
      let tier3 :=
        match requestHumanApproval params with
        | Some approve =>
            askHuman approve
              {| req_toolName := toolName; req_toolParams := toolParams;
                 req_riskLevel := riskLevel ruleResult;
                 req_trustLevel := trust_name (trustLevel ruleResult);
                 req_reason := reason ruleResult;
                 req_agentId := agent; req_sessionKey := sessionKey params;
                 req_timeoutMs := orElse (timeoutMs cfg) 120000 |}
              key st
        | None =>
            (Ok (blocked
                   (VStr (orElse (reason ruleResult)
                            "Escalated but no human approval handler configured"))), st)
        end in
      match decision ruleResult with
      | allow => proceed toolName agent st
      | deny =>
          (Ok (blocked (VStr (orElse (reason ruleResult) "Denied by guardian rule"))), st)
      | escalate =>
          match callLLM params with
          | Some call =>
              let constitution :=
                resolveConstitution P cfg
                  (if truthy agent then agent_config cfg (orElse agent EmptyString)
                   else None) in
              let timeout :=
                match timeoutMs cfg with
                | Some t => if t =? 0 then 5000 else Z.min t 5000
                | None => 5000
                end in
              match evaluateWithLLM P toolName toolParams (riskLevel ruleResult)
                      (trustLevel ruleResult) (Some constitution) agent call
                      (Some timeout) with
              | Throw e => (Throw e, st)
              | Ok llmResult =>
                  match llm_decision llmResult with
                  | allow => proceed toolName agent st
                  | deny =>
                      (Ok (blocked (match llm_reason llmResult with
                                    | Some VNull | None => VStr "Denied by guardian LLM"
                                    | Some r => r
                                    end)), st)
                  | escalate => tier3
                  end
              end
          | None => tier3
          end
      end
  end.

Definition handler (event : PluginHookBeforeToolCallEvent) (ctx : PluginHookToolContext)
    (st : HookState)
  : completion (option PluginHookBeforeToolCallResult) * HookState :=
  let cfg := config params in
  if negb (orElse (enabled cfg) false) then (Ok None, st)
  else
    let toolName := normalizeToolName P (ev_toolName event) in
    let toolParams := ev_params event in
    let agent := orElseOpt (ctx_agentId ctx) (agentId params) in
    let key := cacheKey toolName toolParams in
    if bool_decide (key ∈ alwaysAllowCache st) || bool_decide (key ∈ taskAllowCache st)
    then proceed toolName agent st
    else
      match budgetTracker st with
      | Some t =>
          let '(budgetResult, t1) :=
            checkBudget P today toolName (effectiveBudget cfg agent) agent t in
          let st1 := set_tracker st t1 in
          let why := VStr (orElse (budget_reason budgetResult) "Budget exceeded") in
          if exceeded budgetResult
          then
            match budget_action budgetResult with
            | Some exceeded_deny => (Ok (blocked why), st1)
            | _ =>
                match requestHumanApproval params with
                | Some approve =>
                    askHuman approve
                      {| req_toolName := toolName; req_toolParams := toolParams;
                         req_riskLevel := Level critical;
                         req_trustLevel := trust_name (trustOf ctx);
                         req_reason :=
                           Some (orElse (budget_reason budgetResult) "Budget exceeded");
                         req_agentId := agent; req_sessionKey := sessionKey params;
                         req_timeoutMs := orElse (timeoutMs cfg) 120000 |}
                      key st1
                | None => (Ok (blocked why), st1)
                end
            end
          else tiers toolName toolParams agent key ctx st1
      | None => tiers toolName toolParams agent key ctx st
      end.

End Handler.

End WithPlatform.

End Hook.

(** ** Tier 3: pending approvals (gateway/guardian-approval-manager.ts and
    the request handler of gateway/server-methods/guardian-approval.ts)

    Records are objects that the manager and its callers share, so they
    live in a store and are named by their location.  A promise is settled
    at most once; a timer is armed until it fires or is cleared. *)

Module Approvals.

Import Js.

Record GuardianApprovalRequestPayload : Type := {
  toolName : string;
  params : list (string * value);
  riskLevel : option string;
  trustLevel : option string;
  reason : option string;
  agentId : option string;
  sessionKey : option string
}.

Record GuardianApprovalRecord : Type := {
  id : string;
  request : GuardianApprovalRequestPayload;
  createdAtMs : Z;
  expiresAtMs : Z;
  resolvedAtMs : option Z;
  decision : option GuardianDecision;
  resolvedBy : option (option string)
}.

Record PendingEntry : Type := {
  record : nat;        (* location of the record *)
  promise : nat;       (* the promise that [resolve] settles *)
  timer : nat          (* handle of the timeout *)
}.

Record Manager : Type := {
  pending : gmap string PendingEntry;
  records : gmap nat GuardianApprovalRecord;
  (* armed timers, each with the record and the promise of its callback *)
  timers : gmap nat (nat * nat);
  (* settled promises and the value they were settled with *)
  promises : gmap nat (option GuardianDecision);
  fresh : nat
}.

Definition empty : Manager :=
  {| pending := ∅; records := ∅; timers := ∅; promises := ∅; fresh := 0 |}.

(** Settling a promise that is already settled does nothing. *)
Definition settle (p : nat) (v : option GuardianDecision)
    (ps : gmap nat (option GuardianDecision)) : gmap nat (option GuardianDecision) :=
  match ps !! p with
  | Some _ => ps
  | None => <[p := v]> ps
  end.

(** [create(request, timeoutMs, id)]; [now] is [Date.now()] and [uuid] the
    value [randomUUID()] would give.  The new record is returned by its
    location. *)
Definition create (request : GuardianApprovalRequestPayload) (timeoutMs : Z)
    (explicit : option string) (now : Z) (uuid : string) (m : Manager)
  : nat * Manager :=
  let resolvedId :=
    match explicit with
    | Some s =>
        if truthy explicit && (0 <? String.length (trim s))%nat then trim s else uuid
    | None => uuid
    end in
  let rec := {| id := resolvedId; request := request; createdAtMs := now;
                expiresAtMs := now + timeoutMs; resolvedAtMs := None;
                decision := None; resolvedBy := None |} in
  (fresh m,
   {| pending := pending m; records := <[fresh m := rec]> (records m);
      timers := timers m; promises := promises m; fresh := S (fresh m) |}).

(** [waitForDecision(record, timeoutMs)]: arms the timer and registers the
    entry under the id of the record; returns the promise. *)
Definition waitForDecision (loc : nat) (timeoutMs : Z) (m : Manager)
  : option (nat * Manager) :=
  match records m !! loc with
  | None => None
  | Some rec =>
      let p := fresh m in
      let t := S (fresh m) in
      Some (p,
            {| pending := <[id rec := {| record := loc; promise := p; timer := t |}]>
                            (pending m);
               records := records m;
               timers := <[t := (loc, p)]> (timers m);
               promises := promises m;
               fresh := S (S (fresh m)) |})
  end.

(** The callback of timer [t] runs: the entry under the id of its record is
    deleted and its promise is settled with [null]. *)
Definition fire (t : nat) (m : Manager) : Manager :=
  match timers m !! t with
  | None => m
  | Some (loc, p) =>
      {| pending := match records m !! loc with
                    | Some rec => delete (id rec) (pending m)
                    | None => pending m
                    end;
         records := records m;
         timers := delete t (timers m);
         promises := settle p None (promises m);
         fresh := fresh m |}
  end.

Definition stamp (rec : GuardianApprovalRecord) (now : Z) (d : GuardianDecision)
    (by_ : option string) : GuardianApprovalRecord :=
  {| id := id rec; request := request rec; createdAtMs := createdAtMs rec;
     expiresAtMs := expiresAtMs rec; resolvedAtMs := Some now;
     decision := Some d; resolvedBy := Some by_ |}.

(** [resolve(recordId, decision, resolvedBy)] *)
Definition resolve (recordId : string) (d : GuardianDecision) (by_ : option string)
    (now : Z) (m : Manager) : bool * Manager :=
  match pending m !! recordId with
  | None => (false, m)
  | Some e =>
      (true,
       {| pending := delete recordId (pending m);
          records := alter (fun rec => stamp rec now d by_) (record e) (records m);
          timers := delete (timer e) (timers m);
          promises := settle (promise e) (Some d) (promises m);
          fresh := fresh m |})
  end.

(** [getSnapshot(recordId)] *)
Definition getSnapshot (recordId : string) (m : Manager) : option GuardianApprovalRecord :=
  match pending m !! recordId with
  | Some e => records m !! record e
  | None => None
  end.

(** The validated parameters of [guardian.approval.request]. *)
Record RequestParams : Type := {
  p_id : option string;
  p_toolName : string;
  p_params : option (list (string * value));
  p_riskLevel : option string;
  p_trustLevel : option string;
  p_reason : option string;
  p_agentId : option string;
  p_sessionKey : option string;
  p_timeoutMs : option Z
}.

Inductive Registration : Type :=
| Refused (message : string)
| Registered (loc promise : nat).

(** The request handler up to its [await]: the guard on the explicit id,
    then [create] and [waitForDecision]. *)
Definition approvalRequest (p : RequestParams) (now : Z) (uuid : string) (m : Manager)
  : Registration * Manager :=
  let timeoutMs := orElse (p_timeoutMs p) 120000 in
  let explicitId :=
    match p_id p with
    | Some s => if (0 <? String.length (trim s))%nat then Some (trim s) else None
    | None => None
    end in
  if truthy explicitId
     && bool_decide (is_Some (getSnapshot (orElse explicitId EmptyString) m))
  then (Refused "approval id already pending", m)
  else
    let request :=
      {| toolName := p_toolName p; params := orElse (p_params p) [];
         riskLevel := p_riskLevel p; trustLevel := p_trustLevel p;
         reason := p_reason p; agentId := p_agentId p;
         sessionKey := p_sessionKey p |} in
    let '(loc, m1) := create request timeoutMs explicitId now uuid m in
    match waitForDecision loc timeoutMs m1 with
    | Some (promise, m2) => (Registered loc promise, m2)
    | None => (Refused "unreachable: the record was just created", m1)
    end.

(** Every pending entry names a record of the store, filed under the id of
    that record. *)
Definition wf (m : Manager) : Prop :=
  (forall i e, pending m !! i = Some e ->
     exists rec, records m !! record e = Some rec /\ id rec = i)
  /\ (forall l rec, records m !! l = Some rec -> (l < fresh m)%nat).

(** A request for approval under the explicit id [a], and the manager in
    which it is pending. *)
Definition requestA : RequestParams :=
  {| p_id := Some "a"; p_toolName := "exec"; p_params := None; p_riskLevel := None;
     p_trustLevel := None; p_reason := None; p_agentId := None; p_sessionKey := None;
     p_timeoutMs := Some 1000 |}.

Definition pendingA : Manager := snd (approvalRequest requestA 0 "u1" empty).

Definition payloadA : GuardianApprovalRequestPayload :=
  {| toolName := "exec"; params := []; riskLevel := None; trustLevel := None;
     reason := None; agentId := None; sessionKey := None |}.

(** The operations on a manager that register nothing. *)
Inductive Op : Type :=
| OpFire (t : nat)
| OpResolve (recordId : string) (d : GuardianDecision) (by_ : option string) (now : Z).

Definition step (o : Op) (m : Manager) : Manager :=
  match o with
  | OpFire t => fire t m
  | OpResolve i d by_ now => snd (resolve i d by_ now m)
  end.

Definition run (ops : list Op) (m : Manager) : Manager :=
  fold_left (fun acc o => step o acc) ops m.

(** The id that [create] gives a record. *)
Definition chosenId (explicit : option string) (uuid : string) : string :=
  match explicit with
  | Some s => if (0 <? String.length (trim s))%nat then trim s else uuid
  | None => uuid
  end.

End Approvals.

(** ** A host and a few configurations to run examples on *)

Module Host.

Import Js.

(** Modelled from the spec: [normalizeToolName] of agents/tool-policy.js is
    not among the sources; section 4.1 describes its result as the trimmed,
    case-folded tool name. *)
Definition normalize (s : string) : string := toLowerCase (trim s).

(** A [RegExp] constructor that reads its pattern as literal text. *)
Definition literalRegExp (pat : string) : option Regex.regex := Some (Regex.lit pat).

(** Comparison of keys by their bytes; on lower-case ASCII words this is
    the order every locale gives. *)
Definition byteCompare (a b : string) : comparison := String.compare a b.

(** [x.toFixed(4)] for a non-negative rational: round half up. *)
Definition fixed4 (x : Q) : string :=
  let n := (Qnum x * 10000 * 2 + Zpos (Qden x)) / (2 * Zpos (Qden x)) in
  let frac := pretty (n mod 10000) in
  let pad := match (4 - String.length frac)%nat with
             | 3%nat => "000" | 2%nat => "00" | 1%nat => "0" | _ => EmptyString
             end in
  pretty (n / 10000) ++ "." ++ pad ++ frac.

Definition numberText (x : Q) : string :=
  if (Zpos (Qden x) =? 1) then pretty (Qnum x) else fixed4 x.

Definition allowText : string :=
  "{" ++ LLM.q ++ "decision" ++ LLM.q ++ ":" ++ LLM.q ++ "allow" ++ LLM.q ++ "}".
Definition denyText : string :=
  "{" ++ LLM.q ++ "decision" ++ LLM.q ++ ":" ++ LLM.q ++ "deny" ++ LLM.q ++ "}".

(** A [JSON.parse] that knows two texts and rejects the rest. *)
Definition parseKnown (text : string) : option value :=
  if String.eqb text allowText then Some (VObj [("decision", VStr "allow")])
  else if String.eqb text denyText then Some (VObj [("decision", VStr "deny")])
  else None.

(** The search for an embedded decision object, for the two known texts. *)
Definition matchKnown (text : string) : option string :=
  if includes text allowText then Some (substring 0 (String.length allowText - 1) allowText)
  else if includes text denyText then Some (substring 0 (String.length denyText - 1) denyText)
  else None.

Definition host : Platform :=
  {| normalizeToolName := normalize;
     compileRegExp := literalRegExp;
     localeCompare := byteCompare;
     toFixed4 := fixed4;
     Number_toString := numberText;
     JSON_parse := parseKnown;
     matchDecisionObject := matchKnown;
     readFileSync := fun _ => None |}.

(** An enabled Guardian with the default threshold, a budget of one
    dollar per session at one cent a call, no rules and no adjudicator. *)
Definition metered : GuardianConfig :=
  {| enabled := Some true; approvalThreshold := Some high; timeoutMs := None;
     rules := None; constitution := None; constitutionPath := None;
     budget := Some {| budget_enabled := Some true; sessionLimit := Some 1%Q;
                       dailyLimit := None; perToolCosts := None;
                       defaultToolCost := Some (1 # 100)%Q;
                       onExceeded := Some exceeded_deny |};
     agents := None |}.

Definition hookWith (approve : Hook.GuardianHumanApprovalFn) : Hook.GuardianHookParams :=
  {| Hook.config := metered; Hook.agentId := None; Hook.sessionKey := None;
     Hook.senderIsOwner := None; Hook.isSubagent := None; Hook.isAllowed := Some true;
     Hook.callLLM := None; Hook.requestHumanApproval := Some approve |}.

Definition anyCtx : Hook.PluginHookToolContext :=
  {| Hook.ctx_agentId := None; Hook.ctx_senderIsOwner := None |}.

Definition call (tool : string) (ps : list (string * value))
  : Hook.PluginHookBeforeToolCallEvent :=
  {| Hook.ev_toolName := tool; Hook.ev_params := ps |}.

(** A hook with a fresh in-memory budget tracker. *)
Definition freshHook : Hook.HookState :=
  Hook.createGuardianHook (Some (Budget.createBudgetTracker None Budget.Missing true)).

(** An operator who approves, for ever, every call that has a parameter
    [a], and denies the rest. *)
Definition approvesA : Hook.GuardianHumanApprovalFn :=
  fun req =>
    if is_nullish (get (Hook.req_toolParams req) "a")
    then Ok (Some deny_decision)
    else Ok (Some allow_always).

End Host.

(** ** Callers and readings used by the further properties *)

Module Cli.

Import Js Rules.

(** The trust level of [guardian test --trust <level>] (cli/guardian-cli.ts):
    the three flags are the comparisons of the option with the three names. *)
Definition cliTrust (trust : string) : GuardianTrustLevel :=
  resolveTrustLevel (Some (String.eqb trust "owner"))
    (Some (String.eqb trust "subagent")) (Some (String.eqb trust "allowed")).

End Cli.

Module LLMParts.

Import Js LLM.

Section Parts.

Variable P : Platform.

(** The text that the [catch] block of [parseDecision] hands to
    [JSON.parse]: the part of the answer from the first occurrence of the
    match to the brace that closes it. *)
Definition embeddedSpan (cleaned : string) : option string :=
  match matchDecisionObject P cleaned with
  | None => None
  | Some jsonMatch =>
      let start := indexOf cleaned jsonMatch in
      let first := Z.max start 0 in
      match closingBrace (drop_chars (Z.to_nat first) cleaned) first 0 with
      | Some i => Some (slice cleaned start (i + 1))
      | None => None
      end
  end.

(** [span] is the JSON text of an object whose [decision] is a string that
    is the name of [a] up to case and surrounding white space. *)
Definition names (span : string) (a : GuardianRuleAction) : Prop :=
  exists props s,
    JSON_parse P span = Some (VObj props)
    /\ get props "decision" = VStr s
    /\ as_action (trim (toLowerCase s)) = Some a.

(** The answer [text] names the action [a]: as a whole, or in the part of
    it that [parseDecision] looks at after the whole was rejected. *)
Definition answer_names (text : string) (a : GuardianRuleAction) : Prop :=
  names (trim text) a
  \/ exists span, embeddedSpan (trim text) = Some span /\ names span a.

End Parts.

End LLMParts.

Module BudgetParts.

Import Js Budget.

(** The rationals that a double holds exactly: [m * 2^e] with a mantissa
    of at most 53 bits and an exponent in the range of the format. *)
Definition binary64 (x : Q) : Prop :=
  exists m e : Z,
    Z.abs m < 2 ^ 53 /\ -1074 <= e <= 971 /\ (x == inject_Z m * 2 ^ e)%Q.

(** The sum of the doubles [a] and [b] is computed without rounding, so
    that [a + b] of the code is the sum of the rationals. *)
Definition exact_sum (a b : Q) : Prop :=
  binary64 a /\ binary64 b /\ binary64 (a + b)%Q.

(** The budget file, when it parses, has a [daily] array. *)
Definition hasDailyArray (t : BudgetTracker) : Prop :=
  forall err, file t <> NoDailyArray err.

(** A key that a plain object does not inherit: [obj[key]] is an own
    property or [undefined]. *)
Definition plainKey (key : string) : Prop := is_inherited key = false.

(** The agent id of a call is absent, empty, or a plain key of
    [daily.perAgent]. *)
Definition plainAgent (agentId : option string) : Prop :=
  match agentId with
  | Some name => plainKey name
  | None => True
  end.

End BudgetParts.

Module HookParts.

Import Js Rules Budget LLM Hook.

(** Hook parameters with another adjudicator and another approval channel. *)
Definition with_channels (p : GuardianHookParams) (llm : option GuardianLLMCaller)
    (human : option GuardianHumanApprovalFn) : GuardianHookParams :=
  {| config := config p; agentId := agentId p; sessionKey := sessionKey p;
     senderIsOwner := senderIsOwner p; isSubagent := isSubagent p;
     isAllowed := isAllowed p; callLLM := llm; requestHumanApproval := human |}.

(** How a run can change the caches: not at all, or by the key of the
    call, added to one of them after a question to the approval channel. *)
Definition cache_step (p : GuardianHookParams) (key : string) (st st' : HookState) : Prop :=
  (taskAllowCache st' = taskAllowCache st /\ alwaysAllowCache st' = alwaysAllowCache st)
  \/ (requestHumanApproval p <> None
      /\ ((taskAllowCache st' = {[key]} ∪ taskAllowCache st
           /\ alwaysAllowCache st' = alwaysAllowCache st)
          \/ (taskAllowCache st' = taskAllowCache st
              /\ alwaysAllowCache st' = {[key]} ∪ alwaysAllowCache st))).

Section Parts.

Variable P : Platform.
Variable p : GuardianHookParams.

(** The call of [evaluateRules] that the handler makes. *)
Definition tier1 (toolName : string) (toolParams : list (string * value))
    (agent : option string) (ctx : PluginHookToolContext)
  : completion GuardianRuleResult :=
  evaluateRules (normalizeToolName P) (compileRegExp P) toolName toolParams
    (rules (config p))
    (match agent_config (config p) (orElse agent EmptyString) with
     | Some a => agent_rules a
     | None => None
     end)
    (effectiveThreshold (config p) agent) (trustOf p ctx).

(** The timeout the handler gives the adjudicator. *)
Definition llmTimeout : Z :=
  match timeoutMs (config p) with
  | Some t => if t =? 0 then 5000 else Z.min t 5000
  | None => 5000
  end.

(** The call of [evaluateWithLLM] that the handler makes. *)
Definition tier2 (toolName : string) (toolParams : list (string * value))
    (agent : option string) (ruleResult : GuardianRuleResult) (call : GuardianLLMCaller)
  : completion GuardianLLMResult :=
  evaluateWithLLM P toolName toolParams (riskLevel ruleResult) (trustLevel ruleResult)
    (Some (resolveConstitution P (config p)
             (if truthy agent then agent_config (config p) (orElse agent EmptyString)
              else None)))
    agent call (Some llmTimeout).

(** The request that Tier 3 sends to the approval channel, and Tier 3. *)
Definition tier3Request (toolName : string) (toolParams : list (string * value))
    (agent : option string) (ruleResult : GuardianRuleResult) : HumanApprovalRequest :=
  {| req_toolName := toolName; req_toolParams := toolParams;
     req_riskLevel := riskLevel ruleResult;
     req_trustLevel := trust_name (trustLevel ruleResult);
     req_reason := reason ruleResult;
     req_agentId := agent; req_sessionKey := sessionKey p;
     req_timeoutMs := orElse (timeoutMs (config p)) 120000 |}.

Definition tier3 (toolName : string) (toolParams : list (string * value))
    (agent : option string) (key : string) (ruleResult : GuardianRuleResult)
    (st : HookState)
  : completion (option PluginHookBeforeToolCallResult) * HookState :=
  match requestHumanApproval p with
  | Some approve =>
      askHuman approve (tier3Request toolName toolParams agent ruleResult) key st
  | None =>
      (Ok (blocked
             (VStr (orElse (reason ruleResult)
                      "Escalated but no human approval handler configured"))), st)
  end.

(** The request that the budget gate sends when the budget says escalate. *)
Definition budgetRequest (toolName : string) (toolParams : list (string * value))
    (agent : option string) (ctx : PluginHookToolContext)
    (budgetResult : GuardianBudgetResult) : HumanApprovalRequest :=
  {| req_toolName := toolName; req_toolParams := toolParams;
     req_riskLevel := Level critical;
     req_trustLevel := trust_name (trustOf p ctx);
     req_reason := Some (orElse (budget_reason budgetResult) "Budget exceeded");
     req_agentId := agent; req_sessionKey := sessionKey p;
     req_timeoutMs := orElse (timeoutMs (config p)) 120000 |}.

(** A call comes to Tier 3 with the result [ruleResult] of Tier 1: Tier 1
    escalated, and there is no adjudicator or the adjudicator escalated. *)
Definition reaches_tier3 (toolName : string) (toolParams : list (string * value))
    (agent : option string) (ctx : PluginHookToolContext)
    (ruleResult : GuardianRuleResult) : Prop :=
  tier1 toolName toolParams agent ctx = Ok ruleResult
  /\ decision ruleResult = escalate
  /\ (callLLM p = None
      \/ exists call llmResult,
           callLLM p = Some call
           /\ tier2 toolName toolParams agent ruleResult call = Ok llmResult
           /\ llm_decision llmResult = escalate).

(** The key of a call and whether it is cached. *)
Definition keyOf (event : PluginHookBeforeToolCallEvent) : string :=
  cacheKey P (normalizeToolName P (ev_toolName event)) (ev_params event).

Definition cached (key : string) (st : HookState) : bool :=
  bool_decide (key ∈ alwaysAllowCache st) || bool_decide (key ∈ taskAllowCache st).

(** The budget gate lets the call through: there is no tracker, or the
    check reports no excess; [gated] is the state after the check. *)
Definition within_budget (today : Z) (event : PluginHookBeforeToolCallEvent)
    (ctx : PluginHookToolContext) (st gated : HookState) : Prop :=
  let toolName := normalizeToolName P (ev_toolName event) in
  let agent := orElseOpt (ctx_agentId ctx) (agentId p) in
  match budgetTracker st with
  | None => gated = st
  | Some t =>
      exceeded (fst (checkBudget P today toolName (effectiveBudget (config p) agent)
                       agent t)) = false
      /\ gated = set_tracker st (snd (checkBudget P today toolName
                                        (effectiveBudget (config p) agent) agent t))
  end.

End Parts.

End HookParts.

(** The words of a regular expression, and what a glob is meant to match. *)

Module Sem.

Import Js Regex.

Inductive lang (ci : bool) : regex -> string -> Prop :=
| lang_eps : lang ci REps EmptyString
| lang_chr k c : class_matches ci k c = true -> lang ci (RChr k) (String c EmptyString)
| lang_seq a b s t : lang ci a s -> lang ci b t -> lang ci (RSeq a b) (s ++ t)
| lang_alt_l a b s : lang ci a s -> lang ci (RAlt a b) s
| lang_alt_r a b s : lang ci b s -> lang ci (RAlt a b) s
| lang_star_nil a : lang ci (RStar a) EmptyString
| lang_star_cons a s t :
    lang ci a s -> lang ci (RStar a) t -> lang ci (RStar a) (s ++ t).

(** The line terminators that [.] does not match. *)
Definition line_break (c : ascii) : bool :=
  ((nat_of_ascii c =? 10) || (nat_of_ascii c =? 13))%nat.

Fixpoint no_line_break (s : string) : bool :=
  match s with
  | EmptyString => true
  | String c rest => negb (line_break c) && no_line_break rest
  end.

(** A text of ASCII characters: each of its characters is one UTF-16 code
    unit of the string it stands for, and none is U+2028 or U+2029. *)
Fixpoint ascii_text (s : string) : bool :=
  match s with
  | EmptyString => true
  | String c rest => (nat_of_ascii c <? 128)%nat && ascii_text rest
  end.

(** [globs pat v]: [v] is [pat] with every [*] replaced by a run of
    characters and every [?] by one character, none of them a line
    terminator. *)
Inductive globs : string -> string -> Prop :=
| globs_nil : globs EmptyString EmptyString
| globs_star pat s t :
    no_line_break s = true -> globs pat t -> globs (String "*" pat) (s ++ t)
| globs_one pat c t :
    line_break c = false -> globs pat t -> globs (String "?" pat) (String c t)
| globs_lit p pat t :
    p <> "*"%char -> p <> "?"%char -> globs pat t -> globs (String p pat) (String p t).

End Sem.

(** ** The resolve handler of the gateway and the states of the manager
    (gateway/server-methods/guardian-approval.ts) *)

Module Gateway.

Import Js Approvals.

(** The members of [VALID_DECISIONS], read as decisions. *)
Definition decisionOfString (s : string) : option GuardianDecision :=
  if String.eqb s "allow-once" then Some allow_once
  else if String.eqb s "allow-session" then Some allow_session
  else if String.eqb s "allow-always" then Some allow_always
  else if String.eqb s "deny" then Some deny_decision
  else None.

(** The string that a decision is in the source. *)
Definition decisionName (d : GuardianDecision) : string :=
  match d with
  | allow_once => "allow-once"
  | allow_session => "allow-session"
  | allow_always => "allow-always"
  | deny_decision => "deny"
  end.

Inductive Response : Type :=
| RespondError (message : string)
| RespondOk.

(** The handler of [guardian.approval.resolve] on parameters that passed
    the schema; [resolvedBy] is the display name or id of the client. *)
Definition approvalResolve (p_id p_decision : string) (resolvedBy : option string)
    (now : Z) (m : Manager) : Response * Manager :=
  match decisionOfString p_decision with
  | None => (RespondError "invalid decision", m)
  | Some d =>
      let '(ok, m1) := resolve p_id d resolvedBy now m in
      if ok then (RespondOk, m1) else (RespondError "unknown approval id", m1)
  end.

(** Timers, promises and pending entries belong together: the timer of a
    pending entry is armed for its record and its promise, which is not
    settled; an armed timer is the timer of the entry filed under the id of
    its record. *)
Definition linked (m : Manager) : Prop :=
  (forall i e, pending m !! i = Some e ->
     timer e = S (promise e)
     /\ timers m !! timer e = Some (record e, promise e)
     /\ promises m !! promise e = None)
  /\ (forall t loc p, timers m !! t = Some (loc, p) ->
        exists rec, records m !! loc = Some rec
          /\ pending m !! id rec = Some {| record := loc; promise := p; timer := t |})
  /\ (forall t x, timers m !! t = Some x -> (t < fresh m)%nat)
  /\ (forall p v, promises m !! p = Some v -> (p < fresh m)%nat).

(** The managers that the gateway can bring about: requests, whose
    generated id is not the id of a pending approval, callbacks of timers
    and resolutions, in any order. *)
Inductive reachable : Manager -> Prop :=
| reach_empty : reachable empty
| reach_request p now uuid m :
    reachable m -> pending m !! uuid = None ->
    reachable (snd (approvalRequest p now uuid m))
| reach_fire t m : reachable m -> reachable (fire t m)
| reach_resolve i d by_ now m :
    reachable m -> reachable (snd (resolve i d by_ now m)).

End Gateway.

(** * Properties *)

(** ** Tier 1 *)

Module RulesProps.

Import Js Regex Rules.

Lemma maxRisk_ge_l a b : RISK_ORDER a <= RISK_ORDER (maxRisk a b).
Proof. unfold maxRisk. destruct (Z.geb_spec (RISK_ORDER a) (RISK_ORDER b)); lia. Qed.

Lemma maxRisk_ge_r a b : RISK_ORDER b <= RISK_ORDER (maxRisk a b).
Proof. unfold maxRisk. destruct (Z.geb_spec (RISK_ORDER a) (RISK_ORDER b)); lia. Qed.

Lemma maxRisk_is_max a b : RISK_ORDER (maxRisk a b) = Z.max (RISK_ORDER a) (RISK_ORDER b).
Proof. unfold maxRisk. destruct (Z.geb_spec (RISK_ORDER a) (RISK_ORDER b)); lia. Qed.

Lemma RISK_ORDER_inj a b : RISK_ORDER a = RISK_ORDER b -> a = b.
Proof. destruct a, b; simpl; intros H; try reflexivity; discriminate H. Qed.

Lemma RISK_ORDER_range r : 0 <= RISK_ORDER r <= 3.
Proof. destruct r; simpl; lia. Qed.

Lemma riskAtLeast_spec a b : riskAtLeast a b = true <-> RISK_ORDER b <= RISK_ORDER a.
Proof. unfold riskAtLeast. rewrite Z.geb_le. reflexivity. Qed.

(** On levels the two functions are those of the declared types; a value
    that is no level is below every level, and [maxRisk] drops it. *)
Lemma riskAtLeast_value_level a b : riskAtLeast_value (Level a) b = riskAtLeast a b.
Proof. reflexivity. Qed.

Lemma maxRisk_value_level a b : maxRisk_value (Level a) b = Level (maxRisk a b).
Proof. unfold maxRisk_value, maxRisk. simpl. destruct (_ >=? _); reflexivity. Qed.

Lemma riskAtLeast_value_inherited name b : riskAtLeast_value (Inherited name) b = false.
Proof. reflexivity. Qed.

Lemma maxRisk_value_inherited name b : maxRisk_value (Inherited name) b = Level b.
Proof. reflexivity. Qed.

(** The base risk is a level exactly for the names that are in the table or
    that a plain object does not inherit. *)
Lemma getBaseRisk_cases toolName :
  (exists b, lookup_risk TOOL_RISK_DEFAULTS toolName = Some b
             /\ getBaseRisk toolName = Level b)
  \/ (lookup_risk TOOL_RISK_DEFAULTS toolName = None /\ is_inherited toolName = false
      /\ getBaseRisk toolName = Level medium)
  \/ (lookup_risk TOOL_RISK_DEFAULTS toolName = None /\ is_inherited toolName = true
      /\ getBaseRisk toolName = Inherited toolName).
Proof.
  unfold getBaseRisk. destruct (lookup_risk TOOL_RISK_DEFAULTS toolName) as [b|].
  - left. exists b. auto.
  - destruct (is_inherited toolName); [right; right | right; left]; auto.
Qed.

Lemma getBaseRisk_not_inherited toolName :
  is_inherited toolName = false -> exists b, getBaseRisk toolName = Level b.
Proof.
  intros H. destruct (getBaseRisk_cases toolName) as [(b & _ & E)|[(_ & _ & E)|(_ & E & _)]];
    [eauto | eauto | congruence].
Qed.

Lemma classify_ge_base toolName toolParams risk label b :
  getBaseRisk toolName = Level b ->
  classify toolName toolParams = Ok (risk, label) ->
  exists l, risk = Level l /\ RISK_ORDER b <= RISK_ORDER l.
Proof.
  unfold classify. intros Hb H. rewrite Hb in H.
  destruct (checkParamEscalations toolName toolParams) as [[[r l]|]|e];
    simpl in H; inversion H; subst.
  - rewrite maxRisk_value_level. eexists. split; [reflexivity | apply maxRisk_ge_l].
  - exists b. split; [reflexivity | lia].
Qed.

(** What [evaluateRules] returns, in terms of its two intermediate results. *)
Lemma evaluateRules_inv norm compile raw toolParams g a th tr r :
  evaluateRules norm compile raw toolParams g a th tr = Ok r ->
  exists risk label hit,
    classify (norm raw) toolParams = Ok (risk, label)
    /\ firstMatch compile (orElse a [] ++ orElse g [])%list (norm raw) toolParams tr = Ok hit
    /\ (forall l, risk = Level l ->
        exists l', riskLevel r = Level l' /\ RISK_ORDER l <= RISK_ORDER l')
    /\ (hit = None -> riskLevel r = risk).
Proof.
  unfold evaluateRules. intros H.
  destruct (classify (norm raw) toolParams) as [[risk label]|e] eqn:Hc;
    simpl in H; [|discriminate].
  destruct (firstMatch compile _ (norm raw) toolParams tr) as [hit|e] eqn:Hf;
    simpl in H; [|discriminate].
  exists risk, label, hit. split; [reflexivity|]. split; [reflexivity|].
  destruct hit as [rule|].
  - inversion H; subst; simpl. split; [|discriminate].
    intros l ->. destruct (rule_riskLevel rule).
    + rewrite maxRisk_value_level. eexists. split; [reflexivity | apply maxRisk_ge_l].
    + exists l. split; [reflexivity | lia].
  - destruct (is_owner tr && negb (riskAtLeast_value risk critical)).
    + inversion H; subst; simpl. split; [|reflexivity].
      intros l ->. exists l. split; [reflexivity | lia].
    + destruct (riskAtLeast_value risk (adjustedThreshold th tr));
        inversion H; subst; simpl; (split; [|reflexivity]);
        intros l ->; exists l; (split; [reflexivity | lia]).
Qed.

(** For a tool name that the table of defaults does not inherit, the risk
    level that Tier-1 evaluation returns is at least the static base risk of
    the (normalised) tool: the parameter escalation raises the base risk by
    [maxRisk], a rule's [riskLevel] raises the result of that by [maxRisk]
    again, and [maxRisk] is the maximum in the risk order. *)
Lemma evaluateRules_risk_ge_base :
  forall norm compile raw toolParams g a th tr r,
    is_inherited (norm raw) = false ->
    evaluateRules norm compile raw toolParams g a th tr = Ok r ->
    exists base risk l label,
      getBaseRisk (norm raw) = Level base
      /\ (lookup_risk TOOL_RISK_DEFAULTS (norm raw) = None -> base = medium)
      /\ classify (norm raw) toolParams = Ok (Level risk, label)
      /\ riskLevel r = Level l
      /\ RISK_ORDER base <= RISK_ORDER risk
      /\ RISK_ORDER risk <= RISK_ORDER l
      /\ riskAtLeast l base = true.
Proof.
  intros norm compile raw toolParams g a th tr r Hn H.
  destruct (evaluateRules_inv _ _ _ _ _ _ _ _ _ H) as (risk & label & hit & Hc & _ & Hle & _).
  destruct (getBaseRisk_not_inherited _ Hn) as [base Hb].
  destruct (classify_ge_base _ _ _ _ _ Hb Hc) as (l & -> & Hbl).
  destruct (Hle l eq_refl) as (l' & Hr & Hll).
  exists base, l, l', label. split; [exact Hb|].
  split.
  { intros Hnone. unfold getBaseRisk in Hb. rewrite Hnone, Hn in Hb. congruence. }
  split; [exact Hc|]. split; [exact Hr|]. split; [exact Hbl|]. split; [exact Hll|].
  apply riskAtLeast_spec. lia.
Qed.



Lemma evaluateRules_unmatched norm compile raw toolParams g a th tr risk label :
  classify (norm raw) toolParams = Ok (Level risk, label) ->
  firstMatch compile (orElse a [] ++ orElse g [])%list (norm raw) toolParams tr = Ok None ->
  evaluateRules norm compile raw toolParams g a th tr =
    if is_owner tr && negb (riskAtLeast risk critical)
    then Ok {| decision := allow; riskLevel := Level risk; trustLevel := tr;
               reason := Some "owner bypass (risk below critical)"; ruleLabel := None |}
    else if riskAtLeast risk (adjustedThreshold th tr)
    then Ok {| decision := escalate; riskLevel := Level risk; trustLevel := tr;
               reason := Some (orElse label
                                 ("risk " ++ risk_name risk ++ " >= threshold "
                                    ++ risk_name (adjustedThreshold th tr)));
               ruleLabel := None |}
    else Ok {| decision := allow; riskLevel := Level risk; trustLevel := tr;
               reason := Some ("risk " ++ risk_name risk ++ " < threshold "
                                 ++ risk_name (adjustedThreshold th tr));
               ruleLabel := None |}.
Proof.
  intros Hc Hf. unfold evaluateRules. rewrite Hc. simpl. rewrite Hf. simpl. reflexivity.
Qed.

(** C4: when no rule matched, a call of trust level owner whose risk is
    low, medium or high is allowed, with the reason text
    "owner bypass (risk below critical)", which begins with "owner bypass";
    a call of trust level owner whose risk is critical is not allowed by the
    bypass: whatever the threshold, it escalates. *)
Theorem owner_bypass :
  forall norm compile raw toolParams g a th risk label,
    classify (norm raw) toolParams = Ok (Level risk, label) ->
    firstMatch compile (orElse a [] ++ orElse g [])%list (norm raw) toolParams owner
      = Ok None ->
    (In risk [low; medium; high] ->
       evaluateRules norm compile raw toolParams g a th owner
         = Ok {| decision := allow; riskLevel := Level risk; trustLevel := owner;
                 reason := Some "owner bypass (risk below critical)";
                 ruleLabel := None |}
       /\ String.prefix "owner bypass" "owner bypass (risk below critical)" = true)
    /\ (risk = critical ->
        exists r,
          evaluateRules norm compile raw toolParams g a th owner = Ok r
          /\ decision r = escalate /\ riskLevel r = Level critical
          /\ trustLevel r = owner).
Proof.
  intros norm compile raw toolParams g a th risk label Hc Hf.
  rewrite (evaluateRules_unmatched _ _ _ _ _ _ th _ _ _ Hc Hf).
  split.
  - intros Hin. split; [|reflexivity].
    simpl in Hin. destruct Hin as [<-|[<-|[<-|[]]]]; reflexivity.
  - intros ->.
    assert (Hth : riskAtLeast critical (adjustedThreshold th owner) = true).
    { apply riskAtLeast_spec. pose proof (RISK_ORDER_range th). simpl. lia. }
    rewrite Hth.
    change (is_owner owner && negb (riskAtLeast critical critical)) with false.
    eexists. split; [reflexivity|]. simpl. auto.
Qed.

Lemma owner_bypass_witness :
  (classify (Host.normalize "exec") [("command", VStr "ls")] = Ok (Level high, None)
   /\ firstMatch Host.literalRegExp [] (Host.normalize "exec") [("command", VStr "ls")] owner
      = Ok None
   /\ In high [low; medium; high])
  /\ evaluateRules Host.normalize Host.literalRegExp "exec" [("command", VStr "ls")]
       None None high owner
     = Ok {| decision := allow; riskLevel := Level high; trustLevel := owner;
             reason := Some "owner bypass (risk below critical)"; ruleLabel := None |}
  /\ exists r,
       evaluateRules Host.normalize Host.literalRegExp "gateway" [] None None high owner
         = Ok r
       /\ decision r = escalate /\ riskLevel r = Level critical /\ trustLevel r = owner.
Proof.
  assert (Hg : classify (Host.normalize "gateway") [] = Ok (Level critical, None))
    by (vm_compute; reflexivity).
  assert (Hgf : firstMatch Host.literalRegExp (orElse None [] ++ orElse None [])%list
                  (Host.normalize "gateway") [] owner = Ok None) by reflexivity.
  assert (Hc : classify (Host.normalize "exec") [("command", VStr "ls")]
               = Ok (Level high, None))
    by (vm_compute; reflexivity).
  assert (Hf : firstMatch Host.literalRegExp (orElse None [] ++ orElse None [])%list
                 (Host.normalize "exec") [("command", VStr "ls")] owner = Ok None)
    by reflexivity.
  assert (Hin : In high [low; medium; high]) by (simpl; auto).
  split; [split; [exact Hc | split; [exact Hf | exact Hin]]|].
  split.
  - exact (proj1 (proj1 (owner_bypass Host.normalize Host.literalRegExp "exec"
                           [("command", VStr "ls")] None None high high None Hc Hf) Hin)).
  - exact (proj2 (owner_bypass Host.normalize Host.literalRegExp "gateway" []
                    None None high critical None Hg Hgf) eq_refl).
Defined.

Lemma adjustedThreshold_rank th :
  RISK_ORDER (adjustedThreshold th subagent) = Z.max 0 (RISK_ORDER th - 1).
Proof. destruct th; reflexivity. Qed.

Lemma adjustedThreshold_other th tr : tr <> subagent -> adjustedThreshold th tr = th.
Proof. destruct tr; intros H; try reflexivity. contradiction. Qed.

(** C5: when no rule matched and the trust level is subagent, the
    threshold that the risk is compared with is the configured threshold
    lowered by exactly one rank and floored at low: the call escalates when
    the rank of its risk is at least [max 0 (rank threshold - 1)] and is
    allowed otherwise.  With threshold low every subagent call escalates,
    a low-risk one included. *)
Theorem subagent_threshold :
  (forall th, RISK_ORDER (adjustedThreshold th subagent) = Z.max 0 (RISK_ORDER th - 1))
  /\ adjustedThreshold low subagent = low
  /\ forall norm compile raw toolParams g a th risk label,
       classify (norm raw) toolParams = Ok (Level risk, label) ->
       firstMatch compile (orElse a [] ++ orElse g [])%list (norm raw) toolParams subagent
         = Ok None ->
       exists r,
         evaluateRules norm compile raw toolParams g a th subagent = Ok r
         /\ riskLevel r = Level risk
         /\ decision r = (if RISK_ORDER risk >=? Z.max 0 (RISK_ORDER th - 1)
                          then escalate else allow)
         /\ (th = low -> decision r = escalate).
Proof.
  split; [apply adjustedThreshold_rank|]. split; [reflexivity|].
  intros norm compile raw toolParams g a th risk label Hc Hf.
  rewrite (evaluateRules_unmatched _ _ _ _ _ _ th _ _ _ Hc Hf).
  change (is_owner subagent) with false. rewrite andb_false_l.
  unfold riskAtLeast. rewrite adjustedThreshold_rank.
  destruct (Z.geb_spec (RISK_ORDER risk) (Z.max 0 (RISK_ORDER th - 1))) as [Hge|Hlt].
  - eexists. split; [reflexivity|]. simpl. auto.
  - eexists. split; [reflexivity|]. simpl. split; [reflexivity|]. split; [reflexivity|].
    intros ->. simpl in Hlt. pose proof (RISK_ORDER_range risk). lia.
Qed.

Lemma subagent_threshold_witness :
  (classify (Host.normalize "read") [] = Ok (Level low, None)
   /\ firstMatch Host.literalRegExp [] (Host.normalize "read") [] subagent = Ok None)
  /\ exists r,
       evaluateRules Host.normalize Host.literalRegExp "read" [] None None low subagent = Ok r
       /\ riskLevel r = Level low
       /\ decision r = (if RISK_ORDER low >=? Z.max 0 (RISK_ORDER low - 1)
                        then escalate else allow)
       /\ (low = low -> decision r = escalate).
Proof.
  assert (Hc : classify (Host.normalize "read") [] = Ok (Level low, None))
    by (vm_compute; reflexivity).
  assert (Hf : firstMatch Host.literalRegExp (orElse None [] ++ orElse None [])%list
                 (Host.normalize "read") [] subagent = Ok None) by reflexivity.
  split; [split; [exact Hc | exact Hf]|].
  exact (proj2 (proj2 subagent_threshold) Host.normalize Host.literalRegExp "read" []
           None None low low None Hc Hf).
Defined.

Lemma serialisable_app keys1 keys2 toolParams :
  serialisable (keys1 ++ keys2)%list toolParams <->
  serialisable keys1 toolParams /\ serialisable keys2 toolParams.
Proof.
  unfold serialisable. split.
  - intros H. split; intros key Hin; apply H, in_or_app; auto.
  - intros [H1 H2] key Hin. apply in_app_or in Hin. destruct Hin; auto.
Qed.

Lemma checkParamEscalations_from_total escs toolName toolParams :
  serialisable (map paramKey escs) toolParams ->
  returns (checkParamEscalations_from escs toolName toolParams).
Proof.
  induction escs as [|esc rest IH]; intros Hs; simpl; [eexists; reflexivity|].
  assert (Hrest : returns (checkParamEscalations_from rest toolName toolParams)).
  { apply IH. intros key Hin. apply Hs. right. exact Hin. }
  destruct (negb _); [exact Hrest|].
  destruct (Hs (paramKey esc)) as [Hn|[str Hstr]]; [left; reflexivity | |].
  - rewrite Hn. exact Hrest.
  - destruct (is_nullish _); [exact Hrest|]. rewrite Hstr. simpl.
    destruct (test true (pattern esc) str); [eexists; reflexivity | exact Hrest].
Qed.

Lemma matchParams_total compile entries toolParams :
  serialisable (map fst entries) toolParams ->
  returns (matchParams compile entries toolParams).
Proof.
  induction entries as [|[key pat] rest IH]; intros Hs; simpl; [eexists; reflexivity|].
  assert (Hrest : returns (matchParams compile rest toolParams)).
  { apply IH. intros k Hin. apply Hs. right. exact Hin. }
  destruct (Hs key) as [Hn|[str Hstr]]; [left; reflexivity | |].
  - rewrite Hn. eexists; reflexivity.
  - destruct (is_nullish _); [eexists; reflexivity|]. rewrite Hstr. simpl.
    destruct (compile pat) as [re|].
    + destruct (test true re str); [exact Hrest | eexists; reflexivity].
    + destruct (includes str pat); [exact Hrest | eexists; reflexivity].
Qed.

Lemma matchRule_total compile rule toolName toolParams trust :
  serialisable (map fst (orElse (rule_paramMatches rule) [])) toolParams ->
  returns (matchRule compile rule toolName toolParams trust).
Proof.
  intros Hs. unfold matchRule.
  destruct (truthy _ && negb _); [eexists; reflexivity|].
  destruct (match rule_minTrust rule with Some _ => _ | None => _ end);
    [eexists; reflexivity|].
  destruct (rule_paramMatches rule); [apply matchParams_total, Hs | eexists; reflexivity].
Qed.

Lemma firstMatch_total compile allRules toolName toolParams trust :
  serialisable (ruleKeys allRules) toolParams ->
  returns (firstMatch compile allRules toolName toolParams trust).
Proof.
  induction allRules as [|rule rest IH]; intros Hs; simpl; [eexists; reflexivity|].
  unfold ruleKeys in Hs. simpl in Hs. apply serialisable_app in Hs. destruct Hs as [H1 H2].
  destruct (matchRule_total compile rule toolName toolParams trust H1) as [m ->]. simpl.
  destruct m; [eexists; reflexivity | exact (IH H2)].
Qed.

(** Where the parameter values that Tier 1 reads can be serialised, it
    returns. *)
Lemma evaluateRules_total norm compile raw toolParams g a th tr :
  serialisable (escalationKeys ++ ruleKeys (orElse a [] ++ orElse g []))%list toolParams ->
  returns (evaluateRules norm compile raw toolParams g a th tr).
Proof.
  intros Hs. apply serialisable_app in Hs. destruct Hs as [He Hr].
  unfold evaluateRules, classify, checkParamEscalations.
  destruct (checkParamEscalations_from_total PARAM_ESCALATIONS (norm raw) toolParams He)
    as [esc ->]. simpl.
  destruct (firstMatch_total compile (orElse a [] ++ orElse g [])%list (norm raw)
              toolParams tr Hr) as [hit Hhit].
  destruct esc as [[risk label]|]; simpl; rewrite Hhit; simpl;
    (destruct hit; [eexists; reflexivity|]);
    (destruct (is_owner tr && negb _); [eexists; reflexivity|]);
    (destruct (riskAtLeast_value _ _); eexists; reflexivity).
Qed.

(** C2: risk classification and rule matching serialise a parameter value
    with an unguarded [JSON.stringify]; on a value that cannot be serialised
    (here an object that contains itself) the exception of the serialiser is
    the result of [checkParamEscalations], of [matchRule] and of
    [evaluateRules]. *)
Theorem classification_throws_on_circular :
  let circular := [("command", VCyclic)] in
  let rule := {| rule_id := None; rule_tool := Some "exec";
                 rule_paramMatches := Some [("command", "ls")];
                 rule_minTrust := None; rule_riskLevel := None;
                 rule_action := Some allow; rule_label := None |} in
  checkParamEscalations "exec" circular
    = Throw "TypeError: Converting circular structure to JSON"
  /\ matchRule Host.literalRegExp rule "exec" circular allowed
    = Throw "TypeError: Converting circular structure to JSON"
  /\ evaluateRules Host.normalize Host.literalRegExp "exec" circular None None high allowed
    = Throw "TypeError: Converting circular structure to JSON"
  /\ ~ returns (evaluateRules Host.normalize Host.literalRegExp "exec" circular
                  None None high allowed).
Proof.
  intros circular rule.
  split; [vm_compute; reflexivity|].
  split; [vm_compute; reflexivity|].
  assert (H : evaluateRules Host.normalize Host.literalRegExp "exec" circular
                None None high allowed
              = Throw "TypeError: Converting circular structure to JSON")
    by (vm_compute; reflexivity).
  split; [exact H|].
  intros [r Hr]. rewrite H in Hr. discriminate Hr.
Qed.

End RulesProps.

(** ** Tier 2 *)

Module LLMProps.

Import Js LLM LLMParts.

Section Facts.

Variable P : Platform.

Lemma parseWhole_sound cleaned r :
  parseWhole P cleaned = Ok (Some r) -> extracted P cleaned r.
Proof.
  unfold parseWhole, parse. destruct (JSON_parse P cleaned) as [v|] eqn:Hp; simpl;
    [|discriminate].
  destruct v; simpl; try discriminate.
  destruct (get props "decision") as [| |b|n|s|items|ps| |] eqn:Hd; simpl;
    try discriminate; try (destruct (js_truthy _); discriminate).
  - destruct b; discriminate.
  - destruct (negb (n =? 0)); discriminate.
  - destruct (negb (String.eqb s EmptyString)); [|discriminate].
    destruct (as_action (trim (toLowerCase s))) as [a|] eqn:Ha; simpl; [|discriminate].
    intros H. inversion H; subst. exists props, s. simpl. auto.
Qed.

Lemma parseSpan_sound span r :
  parseSpan P span = Ok (Some r) -> extracted P span r.
Proof.
  unfold parseSpan, parse. destruct (JSON_parse P span) as [v|] eqn:Hp; simpl;
    [|discriminate].
  destruct v; simpl; try discriminate.
  destruct (get props "decision") as [| |b|n|s|items|ps| |] eqn:Hd; simpl;
    try discriminate.
  destruct (as_action (trim (toLowerCase s))) as [a|] eqn:Ha; simpl; [|discriminate].
  intros H. inversion H; subst. exists props, s. simpl. auto.
Qed.

Lemma parseEmbedded_span cleaned :
  parseEmbedded P cleaned
  = match embeddedSpan P cleaned with
    | Some span => try_catch (parseSpan P span) (fun _ => Ok None)
    | None => Ok None
    end.
Proof.
  unfold parseEmbedded, embeddedSpan.
  destruct (matchDecisionObject P cleaned) as [m|]; [|reflexivity].
  destruct (closingBrace _ _ 0) as [i|]; reflexivity.
Qed.

Lemma extracted_names span r : extracted P span r <-> names P span (llm_decision r).
Proof. reflexivity. Qed.

Lemma parseEmbedded_cases cleaned :
  parseEmbedded P cleaned = Ok None
  \/ exists r span,
       parseEmbedded P cleaned = Ok (Some r)
       /\ embeddedSpan P cleaned = Some span
       /\ parseSpan P span = Ok (Some r).
Proof.
  rewrite parseEmbedded_span.
  destruct (embeddedSpan P cleaned) as [span|]; [|left; reflexivity].
  destruct (parseSpan P span) as [[r|]|e] eqn:Hs;
    simpl; [right | left; reflexivity | left; reflexivity].
  exists r, span. auto.
Qed.

(** [parseDecision] always returns, and what it returns is either the
    fallback or a decision that the answer names. *)
Lemma parseDecision_cases text :
  parseDecision P text = Ok could_not_parse
  \/ exists r,
       parseDecision P text = Ok r /\ answer_names P text (llm_decision r).
Proof.
  unfold parseDecision.
  destruct (parseWhole P (trim text)) as [[r|]|e] eqn:Hw; simpl.
  - right. exists r. split; [reflexivity|].
    left. apply extracted_names, parseWhole_sound. exact Hw.
  - left. reflexivity.
  - destruct (parseEmbedded_cases (trim text)) as [Hn|(r & span & He & Hspan & Hs)].
    + rewrite Hn. left. reflexivity.
    + rewrite He. right. exists r. split; [reflexivity|].
      right. exists span. split; [exact Hspan|].
      apply extracted_names, parseSpan_sound. exact Hs.
Qed.

Lemma parseDecision_returns text : returns (parseDecision P text).
Proof.
  destruct (parseDecision_cases text) as [H|(r & H & _)]; rewrite H; eexists;
    reflexivity.
Qed.

(** An answer that names no action is not parsed. *)
Lemma parseDecision_unparseable text :
  (forall a, ~ answer_names P text a) ->
  parseDecision P text = Ok could_not_parse.
Proof.
  intros Hnone.
  destruct (parseDecision_cases text) as [H|(r & H & Hn)]; [exact H|].
  exfalso. exact (Hnone _ Hn).
Qed.


End Facts.

Lemma not_named_by_known_host text :
  Host.parseKnown (trim text) = None ->
  embeddedSpan Host.host (trim text) = None ->
  forall a, ~ answer_names Host.host text a.
Proof.
  intros Hw He a [(props & s & Hp & _)|(span & Hs & _)].
  - simpl in Hp. rewrite Hw in Hp. discriminate Hp.
  - rewrite He in Hs. discriminate Hs.
Qed.


Example parseDecision_embedded :
  parseDecision Host.host ("Sure: " ++ Host.denyText ++ " ok")
    = Ok {| llm_decision := deny; llm_reason := None |}.
Proof. vm_compute. reflexivity. Qed.

End LLMProps.

(** ** The budget ledger *)

Module BudgetProps.

Import Js Budget.

Lemma loadDaily_date today t : date (fst (loadDaily today t)) = today.
Proof.
  unfold loadDaily.
  destruct (dailyCache t) as [c|].
  - destruct (Z.eqb_spec (date c) today) as [E|E]; simpl; [exact E|].
    destruct (truthy (budgetPath t) && exists_file t); [|reflexivity].
    destruct (file t) as [| |err|daily]; try reflexivity.
    destruct (List.find _ daily) as [e|] eqn:Hf; simpl; [|reflexivity].
    apply List.find_some in Hf. destruct Hf as [_ Hf]. apply Z.eqb_eq. exact Hf.
  - simpl. destruct (truthy (budgetPath t) && exists_file t); [|reflexivity].
    destruct (file t) as [| |err|daily]; try reflexivity.
    destruct (List.find _ daily) as [e|] eqn:Hf; simpl; [|reflexivity].
    apply List.find_some in Hf. destruct Hf as [_ Hf]. apply Z.eqb_eq. exact Hf.
Qed.

Lemma loadDaily_cache today t :
  snd (loadDaily today t) = t
  \/ snd (loadDaily today t) = set_dailyCache t (Some (fst (loadDaily today t))).
Proof.
  unfold loadDaily.
  destruct (match dailyCache t with
            | Some c => if date c =? today then Some c else None
            | None => None
            end); simpl; auto.
Qed.

(** Reading today's entry changes the cache at most, never what is counted. *)
Lemma ledger_loadDaily today t : ledger today (snd (loadDaily today t)) = ledger today t.
Proof.
  destruct (loadDaily_cache today t) as [->| ->]; [reflexivity|].
  unfold ledger. simpl. f_equal.
  pose proof (loadDaily_date today t) as Hd.
  unfold loadDaily at 1. simpl. rewrite Hd, Z.eqb_refl. reflexivity.
Qed.

Lemma ledger_checkBudget P today toolName budgetConfig agentId t :
  ledger today (snd (checkBudget P today toolName budgetConfig agentId t))
  = ledger today t.
Proof.
  unfold checkBudget. destruct budgetConfig as [c|]; [|reflexivity].
  destruct (negb _); [reflexivity|].
  destruct (match sessionLimit c with Some _ => _ | None => _ end); [reflexivity|].
  destruct (dailyLimit c) as [limit|]; [|reflexivity].
  unfold getDailyCost.
  destruct (loadDaily today t) as [daily t1] eqn:Hl.
  assert (Ht1 : ledger today t1 = ledger today t).
  { replace t1 with (snd (loadDaily today t)) by (rewrite Hl; reflexivity).
    apply ledger_loadDaily. }
  destruct (truthy agentId); destruct (gt _ limit); exact Ht1.
Qed.

Lemma loadDaily_host today t :
  budgetPath (snd (loadDaily today t)) = budgetPath t
  /\ file (snd (loadDaily today t)) = file t
  /\ writable (snd (loadDaily today t)) = writable t
  /\ cutoffDrift (snd (loadDaily today t)) = cutoffDrift t.
Proof. destruct (loadDaily_cache today t) as [->| ->]; repeat split. Qed.

(** [recordCost] throws exactly when there is a budget path and the file
    has no [daily] array; the exception is that of [saveDaily]. *)
Lemma recordCost_run_outcome today toolName cost agentId t :
  fst (recordCost_run today toolName cost agentId t)
  = if truthy (budgetPath t)
    then match file t with
         | NoDailyArray err => Throw err
         | _ => Ok tt
         end
    else Ok tt.
Proof.
  unfold recordCost_run.
  set (t1 := set_session t _ _).
  destruct (loadDaily_host today t1) as (Hp & Hf & _).
  destruct (loadDaily today t1) as [daily t2]. simpl in Hp, Hf.
  unfold saveDaily. simpl. rewrite Hp, Hf. unfold t1. simpl.
  destruct (truthy (budgetPath t)); [|reflexivity].
  destruct (file t); reflexivity.
Qed.

Lemma recordCost_run_returns today toolName cost agentId t :
  (forall err, file t <> NoDailyArray err) ->
  fst (recordCost_run today toolName cost agentId t) = Ok tt.
Proof.
  intros H. rewrite recordCost_run_outcome.
  destruct (truthy (budgetPath t)); [|reflexivity].
  destruct (file t) as [| |err|daily]; try reflexivity.
  exfalso. exact (H err eq_refl).
Qed.

End BudgetProps.

(** ** The orchestrator *)

Module HookProps.

Import Js Rules Budget LLM Hook HookParts.

Section Facts.

Variable P : Platform.

Lemma askHuman_deny_or_timeout a1 a2 req key st :
  deny_or_timeout a1 a2 -> askHuman a1 req key st = askHuman a2 req key st.
Proof.
  intros H. unfold askHuman.
  destruct (H req) as [-> | [[-> ->] | [-> ->]]]; reflexivity.
Qed.

(** The handler after the cache and the budget gate, in terms of the calls
    it makes to the three tiers. *)
Lemma tiers_parts p today toolName toolParams agent key ctx st :
  tiers P p today toolName toolParams agent key ctx st
  = match tier1 P p toolName toolParams agent ctx with
    | Throw e => (Throw e, st)
    | Ok ruleResult =>
        match decision ruleResult with
        | allow => proceed p today toolName agent st
        | deny =>
            (Ok (blocked (VStr (orElse (reason ruleResult) "Denied by guardian rule"))),
             st)
        | escalate =>
            match callLLM p with
            | Some call =>
                match tier2 P p toolName toolParams agent ruleResult call with
                | Throw e => (Throw e, st)
                | Ok llmResult =>
                    match llm_decision llmResult with
                    | allow => proceed p today toolName agent st
                    | deny =>
                        (Ok (blocked (match llm_reason llmResult with
                                      | Some VNull | None => VStr "Denied by guardian LLM"
                                      | Some r => r
                                      end)), st)
                    | escalate => tier3 p toolName toolParams agent key ruleResult st
                    end
                end
            | None => tier3 p toolName toolParams agent key ruleResult st
            end
        end
    end.
Proof. reflexivity. Qed.

(** A call that comes to Tier 3 is decided by Tier 3. *)
Lemma tiers_reach p today toolName toolParams agent key ctx st ruleResult :
  reaches_tier3 P p toolName toolParams agent ctx ruleResult ->
  tiers P p today toolName toolParams agent key ctx st
  = tier3 p toolName toolParams agent key ruleResult st.
Proof.
  intros (H1 & Hd & Hllm). rewrite tiers_parts, H1, Hd.
  destruct Hllm as [-> | (call & llmResult & -> & -> & ->)]; reflexivity.
Qed.

(** Behind the cache and the budget gate the handler is the three tiers. *)
Lemma handler_gate p today event ctx st gated :
  orElse (enabled (config p)) false = true ->
  cached (keyOf P event) st = false ->
  within_budget P p today event ctx st gated ->
  handler P p today event ctx st
  = tiers P p today (normalizeToolName P (ev_toolName event)) (ev_params event)
      (orElseOpt (ctx_agentId ctx) (agentId p)) (keyOf P event) ctx gated.
Proof.
  intros Hen Hc Hw. unfold handler. rewrite Hen. cbn [negb]. cbv zeta.
  unfold cached, keyOf in Hc. rewrite Hc.
  unfold within_budget in Hw. cbv zeta in Hw.
  destruct (budgetTracker st) as [t|]; [|subst gated; reflexivity].
  destruct (checkBudget _ _ _ _ _ _) as [budgetResult t1]. simpl in Hw.
  destruct Hw as [-> ->]. reflexivity.
Qed.

Lemma tiers_deny_or_timeout p a1 a2 today toolName toolParams agent key ctx st :
  deny_or_timeout a1 a2 ->
  tiers P (with_approval p a1) today toolName toolParams agent key ctx st
  = tiers P (with_approval p a2) today toolName toolParams agent key ctx st.
Proof.
  intros H. rewrite !tiers_parts.
  change (tier1 P (with_approval p a2)) with (tier1 P (with_approval p a1)).
  destruct (tier1 _ _ _ _ _ _) as [ruleResult|e]; [|reflexivity].
  destruct (decision ruleResult); try reflexivity.
  change (callLLM (with_approval p a2)) with (callLLM (with_approval p a1)).
  change (tier2 P (with_approval p a2)) with (tier2 P (with_approval p a1)).
  assert (H3 : tier3 (with_approval p a1) toolName toolParams agent key ruleResult st
               = tier3 (with_approval p a2) toolName toolParams agent key ruleResult st).
  { unfold tier3. simpl. apply askHuman_deny_or_timeout, H. }
  destruct (callLLM (with_approval p a1)) as [call|]; [|exact H3].
  destruct (tier2 _ _ _ _ _ _ _) as [llmResult|e]; [|reflexivity].
  destruct (llm_decision llmResult); try reflexivity. exact H3.
Qed.

Lemma cache_add_comm b b' k k' st :
  cache_add b k (cache_add b' k' st) = cache_add b' k' (cache_add b k st).
Proof.
  assert (Hswap : forall s : gset string, {[k]} ∪ ({[k']} ∪ s) = {[k']} ∪ ({[k]} ∪ s)).
  { intros s. rewrite !(assoc_L (∪)), (comm_L (∪) {[k]} {[k']}). reflexivity. }
  destruct b, b'; unfold cache_add, cache_always, cache_session; simpl; f_equal;
    solve [reflexivity | apply Hswap].
Qed.

Lemma recordCostIfEnabled_frame b key p today toolName agent st :
  recordCostIfEnabled p today toolName agent (cache_add b key st)
  = cache_add b key (recordCostIfEnabled p today toolName agent st).
Proof.
  unfold recordCostIfEnabled. destruct b; simpl; destruct (budgetTracker st); reflexivity.
Qed.

(** The state that a recording leaves is the same whether it returned or
    threw. *)
Lemma recordCostIfEnabled_run_state p today toolName agent st :
  snd (recordCostIfEnabled_run p today toolName agent st)
  = recordCostIfEnabled p today toolName agent st.
Proof.
  unfold recordCostIfEnabled_run, recordCostIfEnabled, recordToolCost_run, recordToolCost,
    recordCost.
  destruct (budgetTracker st) as [t|]; [|reflexivity].
  destruct (recordCost_run _ _ _ _ _). reflexivity.
Qed.

(** A call that proceeds has recorded its cost; when the recording threw,
    the handler throws, the cost being counted in the session all the same. *)
Lemma proceed_cases p today toolName agent st :
  proceed p today toolName agent st
  = (match fst (recordCostIfEnabled_run p today toolName agent st) with
     | Ok _ => Ok None
     | Throw e => Throw e
     end, recordCostIfEnabled p today toolName agent st).
Proof.
  unfold proceed. rewrite <- recordCostIfEnabled_run_state.
  destruct (recordCostIfEnabled_run p today toolName agent st). reflexivity.
Qed.

Lemma recordCostIfEnabled_run_frame b key p today toolName agent st :
  fst (recordCostIfEnabled_run p today toolName agent (cache_add b key st))
  = fst (recordCostIfEnabled_run p today toolName agent st).
Proof.
  unfold recordCostIfEnabled_run.
  replace (budgetTracker (cache_add b key st)) with (budgetTracker st)
    by (destruct b; reflexivity).
  destruct (budgetTracker st) as [t|]; [|reflexivity].
  destruct (recordToolCost_run _ _ _ _ _). reflexivity.
Qed.

Lemma proceed_frame b key p today toolName agent st :
  proceed p today toolName agent (cache_add b key st)
  = and_cached b key (proceed p today toolName agent st).
Proof.
  rewrite !proceed_cases, recordCostIfEnabled_run_frame, recordCostIfEnabled_frame.
  reflexivity.
Qed.

(** The recording returns when the budget file, if there is one, has a
    [daily] array. *)
Lemma recordCostIfEnabled_run_returns p today toolName agent st :
  (forall t err, budgetTracker st = Some t -> file t <> NoDailyArray err) ->
  fst (recordCostIfEnabled_run p today toolName agent st) = Ok tt.
Proof.
  intros H. unfold recordCostIfEnabled_run, recordToolCost_run.
  destruct (budgetTracker st) as [t|]; [|reflexivity].
  pose proof (BudgetProps.recordCost_run_returns today toolName
                (resolveToolCost toolName (effectiveBudget (config p) agent)) agent t
                (fun err => H t err eq_refl)) as Hr.
  destruct (recordCost_run _ _ _ _ _). simpl in Hr. subst. reflexivity.
Qed.

Lemma resolveDecision_frame b key d k st :
  resolveDecision d k (cache_add b key st) = and_cached b key (resolveDecision d k st).
Proof.
  unfold and_cached. destruct d as [[| | |]|]; simpl; try reflexivity; f_equal.
  - apply (cache_add_comm false b k key).
  - apply (cache_add_comm true b k key).
Qed.

Lemma askHuman_frame b key approve req k st :
  askHuman approve req k (cache_add b key st) = and_cached b key (askHuman approve req k st).
Proof.
  unfold askHuman. destruct (approve req) as [d|e]; [|reflexivity].
  rewrite resolveDecision_frame. destruct (resolveDecision d k st). reflexivity.
Qed.

Lemma tier3_frame b key p toolName toolParams agent k ruleResult st :
  tier3 p toolName toolParams agent k ruleResult (cache_add b key st)
  = and_cached b key (tier3 p toolName toolParams agent k ruleResult st).
Proof.
  unfold tier3. destruct (requestHumanApproval p); [apply askHuman_frame | reflexivity].
Qed.

Lemma tiers_frame b key p today toolName toolParams agent k ctx st :
  tiers P p today toolName toolParams agent k ctx (cache_add b key st)
  = and_cached b key (tiers P p today toolName toolParams agent k ctx st).
Proof.
  rewrite !tiers_parts.
  destruct (tier1 _ _ _ _ _ _) as [ruleResult|e]; [|reflexivity].
  destruct (decision ruleResult).
  - apply proceed_frame.
  - reflexivity.
  - destruct (callLLM p) as [call|]; [|apply tier3_frame].
    destruct (tier2 _ _ _ _ _ _ _) as [llmResult|e]; [|reflexivity].
    destruct (llm_decision llmResult);
      [apply proceed_frame | reflexivity | apply tier3_frame].
Qed.

Lemma cache_test_frame b key k st :
  key <> k ->
  bool_decide (k ∈ alwaysAllowCache (cache_add b key st))
    || bool_decide (k ∈ taskAllowCache (cache_add b key st))
  = bool_decide (k ∈ alwaysAllowCache st) || bool_decide (k ∈ taskAllowCache st).
Proof.
  intros Hne. destruct b; simpl; f_equal; apply bool_decide_ext;
    rewrite elem_of_union, elem_of_singleton; split; auto; intros [E|E]; congruence.
Qed.

(** Caching a key leaves the evaluation of every call with another key as
    it was: the same result, and the same state but for the cached key. *)
Lemma handler_cache_frame b key p today event ctx st :
  key <> cacheKey P (normalizeToolName P (ev_toolName event)) (ev_params event) ->
  handler P p today event ctx (cache_add b key st)
  = and_cached b key (handler P p today event ctx st).
Proof.
  intros Hne. unfold handler.
  destruct (negb _); [reflexivity|].
  rewrite (cache_test_frame b key _ st Hne).
  destruct (bool_decide _ || bool_decide _); [apply proceed_frame|].
  replace (budgetTracker (cache_add b key st)) with (budgetTracker st)
    by (destruct b; reflexivity).
  destruct (budgetTracker st) as [t|]; [|apply tiers_frame].
  destruct (checkBudget _ _ _ _ _ _) as [budgetResult t1].
  replace (set_tracker (cache_add b key st) t1) with (cache_add b key (set_tracker st t1))
    by (destruct b; reflexivity).
  destruct (exceeded budgetResult); [|apply tiers_frame].
  destruct (budget_action budgetResult) as [[|]|]; try reflexivity;
    (destruct (requestHumanApproval p); [apply askHuman_frame | reflexivity]).
Qed.

(** A question to the operator that is answered with deny or with [null]
    blocks the call with the reason of the operator and changes nothing. *)
Lemma askHuman_denied approve req key st :
  approve req = Ok (Some deny_decision) \/ approve req = Ok None ->
  askHuman approve req key st
  = (Ok (Some {| block := true; blockReason := VStr "Denied by operator" |}), st).
Proof. unfold askHuman. intros [-> | ->]; reflexivity. Qed.

Lemma askHuman_blocked approve req key st r st' :
  askHuman approve req key st = (r, st') -> r <> Ok None -> st' = st.
Proof.
  unfold askHuman. destruct (approve req) as [[[| | |]|]|e]; simpl; intros H Hr;
    inversion H; subst; auto; contradiction.
Qed.

Lemma tier3_blocked p toolName toolParams agent key ruleResult st r st' :
  tier3 p toolName toolParams agent key ruleResult st = (r, st') ->
  r <> Ok None -> st' = st.
Proof.
  unfold tier3. destruct (requestHumanApproval p) as [approve|].
  - apply askHuman_blocked.
  - intros H _. inversion H. reflexivity.
Qed.

(** Past the budget gate, a run that does not let the call proceed leaves
    the state as it was, unless it is the recording of the cost that threw. *)
Lemma tiers_blocked p today toolName toolParams agent key ctx st r st' :
  tiers P p today toolName toolParams agent key ctx st = (r, st') ->
  r <> Ok None ->
  st' = st
  \/ (exists e, r = Throw e
                /\ fst (recordCostIfEnabled_run p today toolName agent st) = Throw e
                /\ st' = recordCostIfEnabled p today toolName agent st).
Proof.
  rewrite tiers_parts. intros H Hr.
  assert (Hproceed : proceed p today toolName agent st = (r, st') ->
            exists e, r = Throw e
                      /\ fst (recordCostIfEnabled_run p today toolName agent st) = Throw e
                      /\ st' = recordCostIfEnabled p today toolName agent st).
  { rewrite proceed_cases.
    destruct (fst (recordCostIfEnabled_run p today toolName agent st)) as [u|e];
      intros Hp; inversion Hp; subst; [contradiction|].
    exists e. auto. }
  destruct (tier1 _ _ _ _ _ _) as [ruleResult|e]; [|inversion H; left; reflexivity].
  destruct (decision ruleResult).
  - right. apply Hproceed, H.
  - inversion H. left. reflexivity.
  - destruct (callLLM p) as [call|];
      [|left; eapply tier3_blocked; eassumption].
    destruct (tier2 _ _ _ _ _ _ _) as [llmResult|e]; [|inversion H; left; reflexivity].
    destruct (llm_decision llmResult).
    + right. apply Hproceed, H.
    + inversion H. left. reflexivity.
    + left. eapply tier3_blocked; eassumption.
Qed.

Lemma same_books_refl today st : same_books today st st.
Proof. repeat split. Qed.

Lemma same_books_checked today st t t1 :
  budgetTracker st = Some t -> ledger today t1 = ledger today t ->
  same_books today st (set_tracker st t1).
Proof.
  intros Ht Hl. unfold same_books, counted. simpl. rewrite Ht, Hl. auto.
Qed.

(** What a run of the handler that does not let the call proceed leaves
    behind: the caches and the counts as they were, unless the recording of
    the cost threw; then the caches are as they were. *)
Lemma stopped_call p today event ctx st r st' :
  handler P p today event ctx st = (r, st') ->
  r <> Ok None ->
  same_books today st st'
  \/ (exists e t err,
        r = Throw e /\ budgetTracker st = Some t /\ file t = NoDailyArray err
        /\ taskAllowCache st' = taskAllowCache st
        /\ alwaysAllowCache st' = alwaysAllowCache st).
Proof.
  unfold handler. intros H Hr.
  set (toolName := normalizeToolName P (ev_toolName event)) in *.
  set (agent := orElseOpt (ctx_agentId ctx) (agentId p)) in *.
  assert (Hthrown : forall st0 e,
            budgetTracker st0 = budgetTracker st \/ (exists t t0, budgetTracker st = Some t
               /\ budgetTracker st0 = Some t0 /\ file t0 = file t) ->
            taskAllowCache st0 = taskAllowCache st ->
            alwaysAllowCache st0 = alwaysAllowCache st ->
            fst (recordCostIfEnabled_run p today toolName agent st0) = Throw e ->
            exists e' t err,
              Throw (A := option PluginHookBeforeToolCallResult) e = Throw e'
              /\ budgetTracker st = Some t /\ file t = NoDailyArray err
              /\ taskAllowCache (recordCostIfEnabled p today toolName agent st0)
                 = taskAllowCache st
              /\ alwaysAllowCache (recordCostIfEnabled p today toolName agent st0)
                 = alwaysAllowCache st).
  { intros st0 e Hbt Htc Hac He.
    assert (Hfile : exists t0 err, budgetTracker st0 = Some t0 /\ file t0 = NoDailyArray err).
    { destruct (budgetTracker st0) as [t0|] eqn:Ht0.
      - destruct (file t0) as [| |err|daily] eqn:Hf; [exfalso|exfalso|eauto|exfalso];
          rewrite (recordCostIfEnabled_run_returns p today toolName agent st0) in He;
          try discriminate He;
          intros t' err' Ht'; rewrite Ht0 in Ht'; inversion Ht'; subst t'; rewrite Hf;
          discriminate.
      - unfold recordCostIfEnabled_run in He. rewrite Ht0 in He. discriminate He. }
    destruct Hfile as (t0 & err & Ht0 & Hf0).
    assert (Hst : exists t, budgetTracker st = Some t /\ file t = NoDailyArray err).
    { destruct Hbt as [E|(t & t0' & Ht & Ht0' & Hf)].
      - exists t0. rewrite <- E. auto.
      - exists t. rewrite Ht0 in Ht0'. inversion Ht0'; subst t0'.
        rewrite <- Hf. auto. }
    destruct Hst as (t & Ht & Hf).
    exists e, t, err. split; [reflexivity|]. split; [exact Ht|]. split; [exact Hf|].
    unfold recordCostIfEnabled. rewrite Ht0. simpl. auto. }
  destruct (negb _); [inversion H; subst; contradiction|].
  destruct (bool_decide _ || bool_decide _).
  { rewrite proceed_cases in H.
    destruct (fst (recordCostIfEnabled_run p today toolName agent st)) as [u|e] eqn:He;
      inversion H; subst; [contradiction|].
    right. apply (Hthrown st e); auto. }
  destruct (budgetTracker st) as [t|] eqn:Ht.
  - pose proof (BudgetProps.ledger_checkBudget P today toolName
                  (effectiveBudget (config p) agent) agent t) as Hl.
    assert (Hfile : file (snd (checkBudget P today toolName
                                 (effectiveBudget (config p) agent) agent t)) = file t).
    { unfold ledger in Hl. inversion Hl. reflexivity. }
    destruct (checkBudget _ _ _ _ _ _) as [budgetResult t1]. simpl in Hl, Hfile.
    pose proof (same_books_checked today st t t1 Ht Hl) as Hsame.
    destruct (exceeded budgetResult).
    + left. destruct (budget_action budgetResult) as [[|]|];
        try (inversion H; subst; exact Hsame);
        (destruct (requestHumanApproval p) as [approve|];
         [apply askHuman_blocked in H; [subst; exact Hsame | exact Hr]
         | inversion H; subst; exact Hsame]).
    + apply tiers_blocked in H; [|exact Hr].
      destruct H as [->|(e & -> & He & ->)]; [left; exact Hsame|].
      right. apply (Hthrown (set_tracker st t1) e); auto.
      right. exists t, t1. auto.
  - apply tiers_blocked in H; [|exact Hr].
    destruct H as [->|(e & -> & He & ->)]; [left; apply same_books_refl|].
    right. apply (Hthrown st e); auto.
Qed.

(** A call that the handler blocks leaves the caches and everything that
    is counted as they were. *)
Lemma blocked_call_records_nothing p today event ctx st b st' :
  handler P p today event ctx st = (Ok (Some b), st') -> same_books today st st'.
Proof.
  intros H. destruct (stopped_call p today event ctx st _ st' H) as [Hs|(e & _ & _ & E & _)];
    [discriminate | exact Hs | discriminate E].
Qed.

(** C8: a human decision of deny and a null wait result (the approval
    timed out or expired) both produce the blocked result with reason
    "Denied by operator" and leave the caches and the budget as they were;
    hence a handler whose approval channel answers null is, for every call,
    indistinguishable in result and in state from one whose channel answers
    deny.  Every run of the handler that comes to Tier 3, from the rule
    tiers or from a budget that says escalate, and gets deny or null from
    the approval channel returns that block, its caches unchanged. *)
Theorem operator_deny_equals_timeout :
  (forall key st,
     resolveDecision (Some deny_decision) key st
       = (Some {| block := true; blockReason := VStr "Denied by operator" |}, st)
     /\ resolveDecision None key st
       = (Some {| block := true; blockReason := VStr "Denied by operator" |}, st))
  /\ (forall p a1 a2 today event ctx st,
        deny_or_timeout a1 a2 ->
        handler P (with_approval p a1) today event ctx st
        = handler P (with_approval p a2) today event ctx st)
  /\ (forall p approve today event ctx st gated ruleResult,
        let toolName := normalizeToolName P (ev_toolName event) in
        let agent := orElseOpt (ctx_agentId ctx) (agentId p) in
        let request := tier3Request p toolName (ev_params event) agent ruleResult in
        orElse (enabled (config p)) false = true ->
        cached (keyOf P event) st = false ->
        within_budget P p today event ctx st gated ->
        reaches_tier3 P p toolName (ev_params event) agent ctx ruleResult ->
        requestHumanApproval p = Some approve ->
        approve request = Ok (Some deny_decision) \/ approve request = Ok None ->
        handler P p today event ctx st
        = (Ok (Some {| block := true; blockReason := VStr "Denied by operator" |}), gated)
        /\ same_books today st gated)
  /\ (forall p approve today event ctx st t,
        let toolName := normalizeToolName P (ev_toolName event) in
        let agent := orElseOpt (ctx_agentId ctx) (agentId p) in
        let check := checkBudget P today toolName (effectiveBudget (config p) agent)
                       agent t in
        let request := budgetRequest p toolName (ev_params event) agent ctx (fst check) in
        orElse (enabled (config p)) false = true ->
        cached (keyOf P event) st = false ->
        budgetTracker st = Some t ->
        exceeded (fst check) = true ->
        budget_action (fst check) <> Some exceeded_deny ->
        requestHumanApproval p = Some approve ->
        approve request = Ok (Some deny_decision) \/ approve request = Ok None ->
        handler P p today event ctx st
        = (Ok (Some {| block := true; blockReason := VStr "Denied by operator" |}),
           set_tracker st (snd check))
        /\ same_books today st (set_tracker st (snd check))).
Proof.
  split; [intros key st; split; reflexivity|].
  split; [|split].
  - intros p a1 a2 today event ctx st H.
    unfold handler, trustOf. simpl.
    destruct (negb (orElse (enabled (config p)) false)); [reflexivity|].
    destruct (bool_decide _ || bool_decide _); [reflexivity|].
    destruct (budgetTracker st) as [t|].
    + destruct (checkBudget _ _ _ _ _ _) as [budgetResult t1].
      destruct (exceeded budgetResult).
      * destruct (budget_action budgetResult) as [[|]|]; try reflexivity;
          apply askHuman_deny_or_timeout, H.
      * apply tiers_deny_or_timeout, H.
    + apply tiers_deny_or_timeout, H.
  - intros p approve today event ctx st gated ruleResult toolName agent request
      Hen Hc Hw Hreach Hp Hans.
    split.
    + rewrite (handler_gate p today event ctx st gated Hen Hc Hw).
      fold toolName agent. rewrite (tiers_reach _ _ _ _ _ _ _ _ _ Hreach).
      unfold tier3. rewrite Hp. apply askHuman_denied. exact Hans.
    + unfold within_budget in Hw. cbv zeta in Hw.
      destruct (budgetTracker st) as [t|] eqn:Ht; [|subst gated; apply same_books_refl].
      destruct Hw as [_ ->]. apply (same_books_checked today st t _ Ht).
      apply BudgetProps.ledger_checkBudget.
  - intros p approve today event ctx st t toolName agent check request
      Hen Hc Ht Hex Hact Hp Hans.
    split.
    + unfold handler. rewrite Hen. cbn [negb]. cbv zeta.
      unfold cached, keyOf in Hc. rewrite Hc, Ht.
      fold toolName agent. unfold request, budgetRequest. fold check.
      destruct check as [budgetResult t1] eqn:Hcheck. simpl in *.
      rewrite Hex, Hp.
      destruct (budget_action budgetResult) as [[|]|];
        [contradiction | apply askHuman_denied; exact Hans
        | apply askHuman_denied; exact Hans].
    + apply (same_books_checked today st t _ Ht).
      apply BudgetProps.ledger_checkBudget.
Qed.

End Facts.

Lemma operator_deny_equals_timeout_witness :
  let denies : GuardianHumanApprovalFn := fun _ => Ok (Some deny_decision) in
  let silent : GuardianHumanApprovalFn := fun _ => Ok None in
  deny_or_timeout denies silent
  /\ handler Host.host (with_approval (Host.hookWith denies) denies) 100
       (Host.call "exec" [("command", VStr "ls")]) Host.anyCtx Host.freshHook
     = handler Host.host (with_approval (Host.hookWith denies) silent) 100
         (Host.call "exec" [("command", VStr "ls")]) Host.anyCtx Host.freshHook
  /\ handler Host.host (with_approval (Host.hookWith denies) silent) 100
       (Host.call "exec" [("command", VStr "ls")]) Host.anyCtx Host.freshHook
     = (Ok (Some {| block := true; blockReason := VStr "Denied by operator" |}),
        Host.freshHook).
Proof.
  intros denies silent.
  assert (H : deny_or_timeout denies silent).
  { intros req. right. left. split; reflexivity. }
  split; [exact H|].
  split.
  - exact (proj1 (proj2 (operator_deny_equals_timeout Host.host)) (Host.hookWith denies)
             denies silent 100 (Host.call "exec" [("command", VStr "ls")])
             Host.anyCtx Host.freshHook H).
  - refine (proj1 (proj1 (proj2 (proj2 (operator_deny_equals_timeout Host.host)))
                     (with_approval (Host.hookWith denies) silent) silent 100
                     (Host.call "exec" [("command", VStr "ls")]) Host.anyCtx
                     Host.freshHook Host.freshHook
                     {| decision := escalate; riskLevel := Level high;
                        trustLevel := allowed;
                        reason := Some "risk high >= threshold high";
                        ruleLabel := None |}
                     eq_refl _ _ _ eq_refl _)).
    + vm_compute. reflexivity.
    + split; vm_compute; reflexivity.
    + split; [vm_compute; reflexivity|]. split; [reflexivity|]. left. reflexivity.
    + right. reflexivity.
Defined.

(** C1: with a budget tracker configured, a call that the human operator
    approves at Tier 3 proceeds and its cost is not recorded: the tracker is
    left exactly as it was, where [recordCostIfEnabled] would have changed
    it.  The same call, once cached by an allow-always, does record its cost
    on the cache hit, as does a call that Tier 1 allows. *)
Theorem tier3_allow_records_no_cost :
  let once : GuardianHumanApprovalFn := fun _ => Ok (Some allow_once) in
  let always : GuardianHumanApprovalFn := fun _ => Ok (Some allow_always) in
  let ls := Host.call "exec" [("command", VStr "ls")] in
  let total (st : HookState) :=
    match budgetTracker st with
    | Some t => Some (sessionTotal t)
    | None => None
    end in
  (* Tier 3, allow-once: proceeds, nothing recorded *)
  handler Host.host (Host.hookWith once) 100 ls Host.anyCtx Host.freshHook
    = (Ok None, Host.freshHook)
  /\ total Host.freshHook = Some 0%Q
  /\ total (recordCostIfEnabled (Host.hookWith once) 100 "exec" None Host.freshHook)
     = Some (1 # 100)%Q
  (* Tier 1 allow: proceeds, recorded *)
  /\ (let '(r, st) := handler Host.host (Host.hookWith once) 100
                        (Host.call "read" []) Host.anyCtx Host.freshHook in
      r = Ok None /\ total st = Some (1 # 100)%Q)
  (* Tier 3, allow-always: nothing recorded; the repeat hits the cache and records *)
  /\ (let '(r1, st1) := handler Host.host (Host.hookWith always) 100 ls Host.anyCtx
                          Host.freshHook in
      let '(r2, st2) := handler Host.host (Host.hookWith always) 100 ls Host.anyCtx st1 in
      r1 = Ok None /\ total st1 = Some 0%Q
      /\ r2 = Ok None /\ total st2 = Some (1 # 100)%Q).
Proof.
  intros once always ls total.
  split; [vm_compute; reflexivity|].
  split; [reflexivity|].
  split; [vm_compute; reflexivity|].
  split; [vm_compute; split; reflexivity|].
  vm_compute. repeat split; reflexivity.
Qed.

(** C9: two distinct parameter maps of one tool that have the same cache
    key.  The operator approves the first for ever and would deny the second;
    asked afresh the second is blocked, but after the approval of the first
    it is a cache hit and proceeds without being evaluated. *)
Theorem cache_key_collision :
  let p1 := [("a", VNum 1); ("b", VNum 2)] in
  let p2 := [("a=1&b", VNum 2)] in
  let params := Host.hookWith Host.approvesA in
  let run := handler Host.host params 100 in
  p1 <> p2
  /\ cacheKey Host.host "exec" p1 = "exec:a=1&b=2"
  /\ cacheKey Host.host "exec" p2 = "exec:a=1&b=2"
  /\ run (Host.call "exec" p2) Host.anyCtx Host.freshHook
     = (Ok (Some {| block := true; blockReason := VStr "Denied by operator" |}),
        Host.freshHook)
  /\ (let '(r1, st1) := run (Host.call "exec" p1) Host.anyCtx Host.freshHook in
      r1 = Ok None
      /\ fst (run (Host.call "exec" p2) Host.anyCtx st1) = Ok None).
Proof.
  intros p1 p2 params run.
  split; [discriminate|].
  split; [vm_compute; reflexivity|].
  split; [vm_compute; reflexivity|].
  split; [vm_compute; reflexivity|].
  vm_compute. split; reflexivity.
Qed.

(** The same collision with a destructive command: a call whose single
    parameter has a contrived name shares its key with [rm -rf /]. *)
Example cache_key_collision_destructive :
  let odd := "command=" ++ LLM.q ++ "rm -rf /" ++ LLM.q ++ "&z" in
  cacheKey Host.host "exec" [(odd, VNum 1)]
  = cacheKey Host.host "exec" [("command", VStr "rm -rf /"); ("z", VNum 1)]
  /\ classify "exec" [(odd, VNum 1)] = Ok (Level high, None)
  /\ classify "exec" [("command", VStr "rm -rf /"); ("z", VNum 1)]
     = Ok (Level critical, Some "destructive command").
Proof. vm_compute. repeat split; reflexivity. Qed.

End HookProps.

(** ** Strings *)

Module JsProps.

Import Js.

Lemma trimStart_clean s : starts_clean (trimStart s).
Proof.
  induction s as [|c s IH]; simpl; [exact I|].
  destruct (is_space c) eqn:E; [exact IH | simpl; exact E].
Qed.

Lemma trimStart_id u : starts_clean u -> trimStart u = u.
Proof. destruct u as [|c u]; simpl; [reflexivity|]. intros ->. reflexivity. Qed.

Lemma trimEnd_clean u : starts_clean u -> starts_clean (trimEnd u).
Proof.
  destruct u as [|c u]; simpl; [auto|]. intros E.
  destruct (trimEnd u); simpl; [rewrite E; simpl; exact E | exact E].
Qed.

Lemma trimEnd_idempotent u : trimEnd (trimEnd u) = trimEnd u.
Proof.
  induction u as [|c u IH]; simpl; [reflexivity|].
  destruct (trimEnd u) as [|d r] eqn:E.
  - destruct (is_space c) eqn:Ec; simpl; [reflexivity|]. rewrite Ec. reflexivity.
  - simpl. simpl in IH. rewrite IH. reflexivity.
Qed.

Lemma trim_idempotent s : trim (trim s) = trim s.
Proof.
  unfold trim.
  rewrite (trimStart_id (trimEnd (trimStart s)));
    [apply trimEnd_idempotent | apply trimEnd_clean, trimStart_clean].
Qed.

End JsProps.

(** ** Tier 3: pending approvals *)

Module ApprovalsProps.

Import Js Approvals.

Lemma pending_after_fire t m i :
  pending m !! i = None -> pending (fire t m) !! i = None.
Proof.
  intros H. unfold fire. destruct (timers m !! t) as [[loc p]|]; [|exact H]. simpl.
  destruct (records m !! loc) as [rec|]; [|exact H].
  rewrite lookup_delete. case_decide; [reflexivity | exact H].
Qed.

Lemma pending_after_resolve j d by_ now m i :
  pending m !! i = None -> pending (snd (resolve j d by_ now m)) !! i = None.
Proof.
  intros H. unfold resolve. destruct (pending m !! j) as [e|]; [|exact H]. simpl.
  rewrite lookup_delete. case_decide; [reflexivity | exact H].
Qed.

Lemma pending_after_run ops : forall m i,
  pending m !! i = None -> pending (run ops m) !! i = None.
Proof.
  induction ops as [|o ops IH]; intros m i H; [exact H|].
  unfold run. simpl. apply IH. destruct o as [t|j d by_ now]; simpl.
  - apply pending_after_fire, H.
  - apply pending_after_resolve, H.
Qed.

Lemma resolve_absent i d by_ now m :
  pending m !! i = None -> resolve i d by_ now m = (false, m).
Proof. intros H. unfold resolve. rewrite H. reflexivity. Qed.

Lemma trim_nonempty s :
  (0 <? String.length (trim s))%nat = true <-> trim s <> EmptyString.
Proof.
  destruct (trim s); simpl; split; intros H; try discriminate; try reflexivity.
  contradiction.
Qed.

Lemma resolvedId_chosen explicit uuid :
  match explicit with
  | Some s => if truthy explicit && (0 <? String.length (trim s))%nat then trim s else uuid
  | None => uuid
  end = chosenId explicit uuid.
Proof.
  unfold chosenId. destruct explicit as [[|c s]|]; reflexivity.
Qed.

Lemma create_spec request timeoutMs explicit now uuid m :
  create request timeoutMs explicit now uuid m
  = (fresh m,
     {| pending := pending m;
        records := <[fresh m := {| id := chosenId explicit uuid; request := request;
                                   createdAtMs := now; expiresAtMs := now + timeoutMs;
                                   resolvedAtMs := None; decision := None;
                                   resolvedBy := None |}]> (records m);
        timers := timers m; promises := promises m; fresh := S (fresh m) |}).
Proof. unfold create. rewrite resolvedId_chosen. reflexivity. Qed.

(** The invariant holds initially and every operation keeps it. *)
Lemma wf_empty : wf empty.
Proof. split; intros ? ? H; simpl in H; rewrite lookup_empty in H; discriminate. Qed.

Lemma wf_create request timeoutMs explicit now uuid m :
  wf m -> wf (snd (create request timeoutMs explicit now uuid m)).
Proof.
  intros [Hp Hr]. rewrite create_spec. simpl. split; simpl.
  - intros i e He. destruct (Hp i e He) as (rec & Hrec & Hid).
    exists rec. split; [|exact Hid].
    rewrite lookup_insert_ne; [exact Hrec|].
    pose proof (Hr _ _ Hrec). lia.
  - intros l rec. rewrite lookup_insert. case_decide.
    + intros _. lia.
    + intros H'. pose proof (Hr _ _ H'). lia.
Qed.

Lemma wf_waitForDecision loc timeoutMs m p m' :
  wf m -> waitForDecision loc timeoutMs m = Some (p, m') -> wf m'.
Proof.
  intros [Hp Hr] H. unfold waitForDecision in H.
  destruct (records m !! loc) as [rec|] eqn:Hrec; [|discriminate].
  inversion H; subst; clear H. split; simpl.
  - intros i e. rewrite lookup_insert. case_decide.
    + intros He. inversion He; subst. simpl. exists rec. auto.
    + apply Hp.
  - intros l r H'. pose proof (Hr _ _ H'). lia.
Qed.

Lemma wf_fire t m : wf m -> wf (fire t m).
Proof.
  intros [Hp Hr]. unfold fire. destruct (timers m !! t) as [[loc p]|]; [|split; assumption].
  split; simpl; [|exact Hr].
  destruct (records m !! loc) as [rec|]; [|exact Hp].
  intros i e. rewrite lookup_delete. case_decide; [discriminate | apply Hp].
Qed.

Lemma wf_resolve i d by_ now m : wf m -> wf (snd (resolve i d by_ now m)).
Proof.
  intros [Hp Hr]. unfold resolve. destruct (pending m !! i) as [e|]; [|split; assumption].
  split; simpl.
  - intros j e'. rewrite lookup_delete. case_decide; [discriminate|].
    intros He'. destruct (Hp j e' He') as (rec & Hrec & Hid).
    rewrite lookup_alter. destruct (decide (record e = record e')) as [E|E].
    + rewrite E, Hrec. simpl. eexists. split; [reflexivity | exact Hid].
    + exists rec. auto.
  - intros l rec. rewrite lookup_alter. destruct (decide (record e = l)) as [E|E].
    + destruct (records m !! record e) as [r0|] eqn:E0; simpl; [|discriminate].
      intros _. rewrite <- E. apply (Hr _ _ E0).
    + apply Hr.
Qed.

(** A record whose id is not pending is out of the reach of every later
    timer callback and resolution. *)
Lemma settled_record_stays ops : forall m l i,
  wf m -> pending m !! i = None ->
  (exists rec, records m !! l = Some rec /\ id rec = i) ->
  records (run ops m) !! l = records m !! l.
Proof.
  induction ops as [|o ops IH]; intros m l i Hwf Hi (rec & Hrec & Hid); [reflexivity|].
  change (run (o :: ops) m) with (run ops (step o m)).
  assert (Hstep : records (step o m) !! l = records m !! l).
  { destruct o as [t|j d by_ now]; simpl.
    - unfold fire. destruct (timers m !! t) as [[loc p]|]; reflexivity.
    - unfold resolve. destruct (pending m !! j) as [e'|] eqn:He'; [|reflexivity].
      simpl. rewrite lookup_alter. case_decide as E; [|reflexivity].
      exfalso. destruct (proj1 Hwf j e' He') as (rec' & Hrec' & Hid').
      rewrite E, Hrec in Hrec'. inversion Hrec'; subst rec'.
      rewrite Hid in Hid'. subst j. rewrite Hi in He'. discriminate He'. }
  rewrite (IH (step o m) l i).
  - exact Hstep.
  - destruct o as [t|j d by_ now]; simpl; [apply wf_fire | apply wf_resolve]; exact Hwf.
  - destruct o as [t|j d by_ now]; simpl;
      [apply pending_after_fire | apply pending_after_resolve]; exact Hi.
  - exists rec. rewrite Hstep. auto.
Qed.

(** C6: a successful [resolve(id, decision)] finds the pending entry,
    stamps its record (and only that record): the decision of the record
    becomes the decision given, its time of resolution the time of the call
    and its resolver the one given, [null] for none, while the id, the
    request and the two times of creation and expiry stay; it removes the
    entry from the pending set, disarms its timer and settles its promise.
    After it the id is no longer pending, so a second [resolve] with the same
    id, whatever its arguments, returns false and leaves the manager, the
    stamped decision included, unchanged.  This stays so after any further
    timer callbacks and resolutions, none of which touches the stamped
    record. *)
Theorem resolve_at_most_once :
  forall m i d by_ now m',
    resolve i d by_ now m = (true, m') ->
    (exists e,
       pending m !! i = Some e
       /\ records m' !! record e
          = (fun rec => stamp rec now d by_) <$> records m !! record e
       /\ (forall rec, records m !! record e = Some rec ->
           exists rec',
             records m' !! record e = Some rec'
             /\ decision rec' = Some d
             /\ resolvedAtMs rec' = Some now
             /\ resolvedBy rec' = Some by_
             /\ id rec' = id rec
             /\ request rec' = request rec
             /\ createdAtMs rec' = createdAtMs rec
             /\ expiresAtMs rec' = expiresAtMs rec)
       /\ (wf m ->
           exists rec rec',
             records m !! record e = Some rec /\ id rec = i
             /\ records m' !! record e = Some rec'
             /\ decision rec' = Some d
             /\ forall ops, records (run ops m') !! record e = Some rec')
       /\ (forall l, l <> record e -> records m' !! l = records m !! l)
       /\ pending m' = delete i (pending m)
       /\ timers m' !! timer e = None
       /\ promises m' = settle (promise e) (Some d) (promises m))
    /\ pending m' !! i = None
    /\ getSnapshot i m' = None
    /\ (forall d' by' now', resolve i d' by' now' m' = (false, m'))
    /\ (forall ops d' by' now',
          resolve i d' by' now' (run ops m') = (false, run ops m')).
Proof.
  intros m i d by_ now m' H.
  assert (Hwf' : wf m -> wf m').
  { intros Hwf. replace m' with (snd (resolve i d by_ now m)) by (rewrite H; reflexivity).
    apply wf_resolve. exact Hwf. }
  unfold resolve in H.
  destruct (pending m !! i) as [e|] eqn:He; [|discriminate].
  inversion H; subst m'; clear H. simpl.
  assert (Hgone : delete i (pending m) !! i = None) by apply lookup_delete_eq.
  assert (Hstamped : forall rec, records m !! record e = Some rec ->
            alter (fun rec => stamp rec now d by_) (record e) (records m) !! record e
            = Some (stamp rec now d by_)).
  { intros rec Hrec. rewrite lookup_alter, decide_True by reflexivity.
    rewrite Hrec. reflexivity. }
  split.
  - exists e. split; [reflexivity|].
    split; [rewrite lookup_alter; case_decide; [reflexivity | congruence]|].
    split.
    { intros rec Hrec. exists (stamp rec now d by_).
      split; [exact (Hstamped rec Hrec)|]. repeat split. }
    split.
    { intros Hwf. destruct (proj1 Hwf i e He) as (rec & Hrec & Hid).
      exists rec, (stamp rec now d by_).
      split; [exact Hrec|]. split; [exact Hid|].
      split; [exact (Hstamped rec Hrec)|]. split; [reflexivity|].
      intros ops.
      rewrite (settled_record_stays ops _ (record e) i (Hwf' Hwf)); simpl.
      - exact (Hstamped rec Hrec).
      - exact Hgone.
      - exists (stamp rec now d by_). split; [exact (Hstamped rec Hrec) | exact Hid]. }
    split; [intros l Hl; rewrite lookup_alter; case_decide; [congruence | reflexivity]|].
    split; [reflexivity|]. split; [apply lookup_delete_eq | reflexivity].
  - split; [exact Hgone|].
    split; [unfold getSnapshot; simpl; rewrite Hgone; reflexivity|].
    split.
    + intros d' by' now'. apply resolve_absent. exact Hgone.
    + intros ops d' by' now'. apply resolve_absent, pending_after_run. exact Hgone.
Qed.

Lemma resolve_at_most_once_witness :
  let m' := snd (resolve "a" allow_once (Some "operator") 5 pendingA) in
  resolve "a" allow_once (Some "operator") 5 pendingA = (true, m')
  /\ (decision <$> records m' !! 0%nat) = Some (Some allow_once)
  /\ resolve "a" deny_decision None 6 m' = (false, m').
Proof.
  intros m'.
  assert (H : resolve "a" allow_once (Some "operator") 5 pendingA = (true, m'))
    by (vm_compute; reflexivity).
  split; [exact H|]. split; [vm_compute; reflexivity|].
  exact (proj1 (proj2 (proj2 (proj2 (resolve_at_most_once _ _ _ _ _ _ H)))) _ _ _).
Defined.

Lemma getSnapshot_pending m i :
  wf m -> (is_Some (getSnapshot i m) <-> is_Some (pending m !! i)).
Proof.
  intros [Hp _]. unfold getSnapshot. split.
  - destruct (pending m !! i); [eauto | intros [? ?]; discriminate].
  - intros [e He]. rewrite He. destruct (Hp i e He) as (rec & Hrec & _). eauto.
Qed.

(** C10 (as the code has it): [create] gives the record the trimmed
    explicit id whenever that id is not empty, whether or not an approval is
    pending under it, and the generated id otherwise, and registers nothing;
    the guard against an id that is already pending is in the request
    handler, which refuses such a request before it calls [create] and
    changes nothing.  A request that the handler accepts is filed under the
    id of its record; an explicit id was then not pending, so no pending
    approval is displaced, and the same holds for a generated id that is not
    pending. *)
Theorem create_and_guard :
  (forall request timeoutMs explicit now uuid m,
     exists rec,
       records (snd (create request timeoutMs explicit now uuid m))
         !! fst (create request timeoutMs explicit now uuid m) = Some rec
       /\ id rec = chosenId explicit uuid
       /\ pending (snd (create request timeoutMs explicit now uuid m)) = pending m)
  /\ (forall p now uuid m s,
        wf m -> p_id p = Some s -> trim s <> EmptyString ->
        is_Some (pending m !! trim s) ->
        approvalRequest p now uuid m = (Refused "approval id already pending", m))
  /\ (forall p now uuid m loc promise m',
        wf m -> approvalRequest p now uuid m = (Registered loc promise, m') ->
        wf m'
        /\ exists rec e,
             records m' !! loc = Some rec
             /\ id rec = chosenId (p_id p) uuid
             /\ record e = loc
             /\ pending m' = <[id rec := e]> (pending m)
             /\ (forall s, p_id p = Some s -> trim s <> EmptyString ->
                 id rec = trim s /\ pending m !! trim s = None)
             /\ (pending m !! uuid = None -> pending m !! id rec = None)).
Proof.
  split; [|split].
  - intros. rewrite create_spec. simpl. eexists. split; [apply lookup_insert_eq|].
    split; reflexivity.
  - intros p now uuid m s Hwf Hid Hne Hpend. unfold approvalRequest. rewrite Hid.
    apply trim_nonempty in Hne. rewrite Hne. simpl.
    destruct (trim s) as [|c r] eqn:Ht; [discriminate Hne|]. simpl.
    rewrite bool_decide_eq_true_2; [reflexivity|].
    apply getSnapshot_pending; assumption.
  - intros p now uuid m loc promise m' Hwf H. unfold approvalRequest in H.
    set (explicitId := match p_id p with
                       | Some s => if (0 <? String.length (trim s))%nat
                                   then Some (trim s) else None
                       | None => None
                       end) in H.
    assert (Hchosen : chosenId explicitId uuid = chosenId (p_id p) uuid).
    { unfold explicitId, chosenId. destruct (p_id p) as [s|]; [|reflexivity].
      destruct (0 <? String.length (trim s))%nat eqn:E; [|reflexivity].
      simpl. rewrite JsProps.trim_idempotent, E. reflexivity. }
    assert (Hfree : forall s, p_id p = Some s -> trim s <> EmptyString ->
                    chosenId (p_id p) uuid = trim s /\ pending m !! trim s = None).
    { intros s Hs Hne. unfold chosenId. rewrite Hs.
      pose proof (proj2 (trim_nonempty s) Hne) as Hlen. rewrite Hlen.
      split; [reflexivity|].
      destruct (pending m !! trim s) as [e|] eqn:He; [|reflexivity].
      exfalso. unfold explicitId in H. rewrite Hs, Hlen in H. simpl in H.
      destruct (trim s) as [|c r] eqn:Ht; [contradiction|]. simpl in H.
      rewrite bool_decide_eq_true_2 in H; [discriminate H|].
      apply getSnapshot_pending; [assumption | rewrite He; eauto]. }
    destruct (truthy explicitId && bool_decide _); [discriminate H|].
    destruct (create _ _ explicitId now uuid m) as [loc1 m1] eqn:Hcr.
    destruct (waitForDecision loc1 _ m1) as [[pr m2]|] eqn:Hw; inversion H; subst; clear H.
    split.
    { eapply wf_waitForDecision; [|exact Hw].
      replace m1 with (snd (create {|
        toolName := p_toolName p; params := orElse (p_params p) [];
        riskLevel := p_riskLevel p; trustLevel := p_trustLevel p;
        reason := p_reason p; agentId := p_agentId p;
        sessionKey := p_sessionKey p |} (orElse (p_timeoutMs p) 120000)
        explicitId now uuid m)) by (rewrite Hcr; reflexivity).
      apply wf_create, Hwf. }
    rewrite create_spec in Hcr. inversion Hcr; subst; clear Hcr.
    unfold waitForDecision in Hw. simpl in Hw. rewrite lookup_insert_eq in Hw.
    inversion Hw; subst; clear Hw. simpl.
    eexists.
    exists {| record := fresh m; promise := S (fresh m); timer := S (S (fresh m)) |}.
    split; [apply lookup_insert_eq|]. simpl.
    split; [exact Hchosen|]. split; [reflexivity|]. split; [reflexivity|].
    rewrite Hchosen. split; [exact Hfree|].
    intros Hu. unfold chosenId. destruct (p_id p) as [s|] eqn:Hs; [|exact Hu].
    destruct (0 <? String.length (trim s))%nat eqn:E; [|exact Hu].
    apply (Hfree s eq_refl). apply trim_nonempty. exact E.
Qed.

Lemma create_and_guard_witness :
  wf pendingA
  /\ is_Some (pending pendingA !! trim " a ")
  /\ approvalRequest
       {| p_id := Some " a "; p_toolName := "write"; p_params := None;
          p_riskLevel := None; p_trustLevel := None; p_reason := None;
          p_agentId := None; p_sessionKey := None; p_timeoutMs := None |}
       7 "u2" pendingA
     = (Refused "approval id already pending", pendingA).
Proof.
  assert (Hwf : wf pendingA).
  { destruct (proj2 (proj2 create_and_guard) requestA 0 "u1" empty 0%nat 1%nat pendingA
                wf_empty) as [H _]; [vm_compute; reflexivity | exact H]. }
  assert (Hp : is_Some (pending pendingA !! trim " a ")) by (vm_compute; eauto).
  split; [exact Hwf|]. split; [exact Hp|].
  apply (proj1 (proj2 create_and_guard)
           {| p_id := Some " a "; p_toolName := "write"; p_params := None;
              p_riskLevel := None; p_trustLevel := None; p_reason := None;
              p_agentId := None; p_sessionKey := None; p_timeoutMs := None |}
           7 "u2" pendingA " a " Hwf eq_refl);
    [vm_compute; discriminate | exact Hp].
Defined.

(** C10, as stated, fails: with an approval pending under the id [a],
    [create] called with the explicit id [a] does not fall back to the
    generated id; it returns a record whose id is [a]. *)
Lemma create_ignores_pending :
  ~ (forall request timeoutMs s now uuid m,
       exists rec,
         records (snd (create request timeoutMs (Some s) now uuid m))
           !! fst (create request timeoutMs (Some s) now uuid m) = Some rec
         /\ id rec = (if (0 <? String.length (trim s))%nat
                         && negb (bool_decide (is_Some (pending m !! trim s)))
                      then trim s else uuid)).
Proof.
  intros H.
  destruct (H payloadA 1000 "a" 7 "u2" pendingA) as (rec & Hrec & Hid).
  vm_compute in Hrec. inversion Hrec; subst rec; clear Hrec.
  vm_compute in Hid. discriminate Hid.
Qed.

End ApprovalsProps.

(** ** Tier 1: further properties *)

Module RulesExtra.

Import Js Regex Rules RulesProps.

(** X1: where the values that Tier 1 reads can be serialised (each is
    absent, a string, or something [JSON.stringify] gives a text for),
    [checkParamEscalations], [matchRule] and [evaluateRules] return.  The
    values read are those under the keys of the escalation table and of the
    [paramMatches] of the rules, own or inherited from [Object.prototype]:
    a rule that names an inherited key reads a function, which the
    serialiser drops, and then throws on a pattern that is not a regular
    expression. *)
Theorem tier1_returns_on_serialisable :
  forall norm compile raw toolParams g a th tr rule,
    (serialisable escalationKeys toolParams ->
     returns (checkParamEscalations (norm raw) toolParams))
    /\ (serialisable (map fst (orElse (rule_paramMatches rule) [])) toolParams ->
        returns (matchRule compile rule (norm raw) toolParams tr))
    /\ (serialisable (escalationKeys ++ ruleKeys (orElse a [] ++ orElse g []))%list
          toolParams ->
        returns (evaluateRules norm compile raw toolParams g a th tr))
    /\ (compile "(" = None ->
        matchRule compile
          {| rule_id := None; rule_tool := None;
             rule_paramMatches := Some [("constructor", "(")];
             rule_minTrust := None; rule_riskLevel := None; rule_action := None;
             rule_label := None |} (norm raw) [] tr
        = Throw "TypeError: Cannot read properties of undefined (reading 'includes')").
Proof.
  intros norm compile raw toolParams g a th tr rule.
  split; [intros Hs; apply checkParamEscalations_from_total, Hs|].
  split; [intros Hs; apply matchRule_total, Hs|].
  split; [intros Hs; apply evaluateRules_total, Hs|].
  intros Hc. unfold matchRule. simpl. rewrite Hc. reflexivity.
Qed.

Lemma plain_params_serialisable :
  serialisable (escalationKeys ++ ["depth"; "opts"])%list
    [("command", VStr "ls"); ("depth", VNum 2); ("opts", VObj [("v", VBool true)])].
Proof.
  intros key Hin. simpl in Hin.
  destruct Hin as [<-|[<-|[<-|[<-|[<-|[<-|[]]]]]]];
    solve [left; reflexivity | right; eexists; reflexivity].
Qed.

Lemma tier1_returns_on_serialisable_witness :
  let rule := {| rule_id := None; rule_tool := None;
                 rule_paramMatches := Some [("depth", "2"); ("opts", "true")];
                 rule_minTrust := None; rule_riskLevel := None;
                 rule_action := None; rule_label := None |} in
  serialisable (escalationKeys ++ ruleKeys (orElse None [] ++ orElse (Some [rule]) []))%list
    [("command", VStr "ls"); ("depth", VNum 2); ("opts", VObj [("v", VBool true)])]
  /\ returns (evaluateRules Host.normalize Host.literalRegExp "exec"
                [("command", VStr "ls"); ("depth", VNum 2); ("opts", VObj [("v", VBool true)])]
                (Some [rule]) None high allowed).
Proof.
  intros rule.
  split; [exact plain_params_serialisable|].
  exact (proj1 (proj2 (proj2 (tier1_returns_on_serialisable Host.normalize
                                Host.literalRegExp "exec" _ (Some [rule]) None high
                                allowed rule)))
           plain_params_serialisable).
Defined.

Lemma no_escalation_for_other_tools escs toolName toolParams :
  Forall (fun esc => match esc_tool esc with
                     | inl name => String.eqb name toolName
                     | inr re => test false re toolName
                     end = false) escs ->
  checkParamEscalations_from escs toolName toolParams = Ok None.
Proof.
  induction 1 as [|esc rest Hesc _ IH]; simpl; [reflexivity|].
  rewrite Hesc. simpl. exact IH.
Qed.

(** X2: the escalation table only concerns the tools write, edit, exec and
    message.  For every other tool name the classification is the static
    base risk with no label, whatever the parameters are, values that cannot
    be serialised included.  A tool that is not in the table of defaults is
    medium, unless its name is that of a member of [Object.prototype]: then
    the classification is that member and no level. *)
Theorem classify_other_tools :
  forall toolName toolParams,
    ~ In toolName ["write"; "edit"; "exec"; "message"] ->
    classify toolName toolParams = Ok (getBaseRisk toolName, None)
    /\ (lookup_risk TOOL_RISK_DEFAULTS toolName = None ->
        ~ In toolName Object_prototype ->
        classify toolName toolParams = Ok (Level medium, None))
    /\ (In toolName Object_prototype ->
        classify toolName toolParams = Ok (Inherited toolName, None)
        /\ forall threshold, riskAtLeast_value (Inherited toolName) threshold = false).
Proof.
  intros toolName toolParams Hnot.
  assert (Hc : classify toolName toolParams = Ok (getBaseRisk toolName, None)).
  { unfold classify, checkParamEscalations.
    rewrite no_escalation_for_other_tools; [reflexivity|].
    unfold PARAM_ESCALATIONS.
    repeat (constructor;
            [cbn [esc_tool]; apply String.eqb_neq; intros E; apply Hnot; rewrite <- E;
             simpl; tauto|]).
    constructor. }
  assert (Hin : is_inherited toolName = true <-> In toolName Object_prototype).
  { unfold is_inherited. rewrite existsb_exists. split.
    - intros (x & Hx & E). apply String.eqb_eq in E. subst x. exact Hx.
    - intros H. exists toolName. split; [exact H | apply String.eqb_refl]. }
  split; [exact Hc|]. split.
  - intros Hl Hno. rewrite Hc. unfold getBaseRisk. rewrite Hl.
    destruct (is_inherited toolName) eqn:E; [|reflexivity].
    exfalso. apply Hno, Hin. reflexivity.
  - intros Hp. split; [|intros threshold; reflexivity].
    rewrite Hc. unfold getBaseRisk.
    assert (Hl : lookup_risk TOOL_RISK_DEFAULTS toolName = None).
    { simpl in Hp.
      destruct Hp as [<-|[<-|[<-|[<-|[<-|[<-|[<-|[<-|[<-|[<-|[<-|[<-|[]]]]]]]]]]]]];
        reflexivity. }
    rewrite Hl, (proj2 Hin Hp). reflexivity.
Qed.

Lemma classify_other_tools_witness :
  ~ In "deploy" ["write"; "edit"; "exec"; "message"]
  /\ classify "deploy" [("command", VCyclic)] = Ok (Level medium, None)
  /\ classify "valueOf" [] = Ok (Inherited "valueOf", None).
Proof.
  assert (H : ~ In "deploy" ["write"; "edit"; "exec"; "message"]).
  { simpl. intros [E|[E|[E|[E|[]]]]]; discriminate E. }
  assert (H' : ~ In "valueOf" ["write"; "edit"; "exec"; "message"]).
  { simpl. intros [E|[E|[E|[E|[]]]]]; discriminate E. }
  split; [exact H|]. split.
  - apply (proj1 (proj2 (classify_other_tools "deploy" [("command", VCyclic)] H)));
      [reflexivity|].
    simpl. intros Hp.
    destruct Hp as [E|[E|[E|[E|[E|[E|[E|[E|[E|[E|[E|[E|[]]]]]]]]]]]]]; discriminate E.
  - apply (proj2 (proj2 (classify_other_tools "valueOf" [] H'))).
    simpl. tauto.
Defined.

Lemma escalation_from_table escs toolName toolParams risk label :
  checkParamEscalations_from escs toolName toolParams = Ok (Some (risk, label)) ->
  exists esc, In esc escs /\ risk = escalateTo esc /\ label = esc_label esc
              /\ is_nullish (get toolParams (paramKey esc)) = false.
Proof.
  induction escs as [|esc rest IH]; simpl; [discriminate|].
  destruct (negb _).
  - intros H. destruct (IH H) as (e & Hin & Hrest). exists e. auto.
  - destruct (is_nullish (get toolParams (paramKey esc))) eqn:Hn.
    + intros H. destruct (IH H) as (e & Hin & Hrest). exists e. auto.
    + destruct (stringifyParam _) as [str|e]; simpl; [|discriminate].
      destruct (test true (pattern esc) (coerce_string str)).
      * intros H. inversion H; subst. exists esc. auto.
      * intros H. destruct (IH H) as (e & Hin & Hrest). exists e. auto.
Qed.

(** X3: a parameter escalation always makes the call critical, and a call
    that was escalated and matches no rule is never allowed: for every
    trust level, the owner included, and every threshold, Tier 1 answers
    escalate, with the label of the escalation as its reason. *)
Theorem escalated_call_never_allowed :
  forall norm compile raw toolParams g a th tr risk label,
    classify (norm raw) toolParams = Ok (risk, Some label) ->
    firstMatch compile (orElse a [] ++ orElse g [])%list (norm raw) toolParams tr
      = Ok None ->
    risk = Level critical
    /\ In label ["write to sensitive path"; "edit sensitive path";
                 "destructive command"; "broadcast message"]
    /\ evaluateRules norm compile raw toolParams g a th tr
       = Ok {| decision := escalate; riskLevel := Level critical; trustLevel := tr;
               reason := Some label; ruleLabel := None |}.
Proof.
  intros norm compile raw toolParams g a th tr risk label Hc Hf.
  assert (Hrisk : risk = Level critical
                  /\ In label ["write to sensitive path"; "edit sensitive path";
                               "destructive command"; "broadcast message"]).
  { unfold classify in Hc.
    destruct (checkParamEscalations (norm raw) toolParams) as [[[r l]|]|e] eqn:He;
      simpl in Hc; inversion Hc; subst.
    destruct (escalation_from_table _ _ _ _ _ He) as (esc & Hin & -> & -> & _).
    simpl in Hin.
    destruct Hin as [<-|[<-|[<-|[<-|[]]]]]; simpl;
      (split; [destruct (getBaseRisk (norm raw)) as [[| | |]|name]; reflexivity | tauto]). }
  destruct Hrisk as [-> Hl]. split; [reflexivity|]. split; [exact Hl|].
  rewrite (evaluateRules_unmatched _ _ _ _ _ _ th _ _ _ Hc Hf).
  replace (is_owner tr && negb (riskAtLeast critical critical)) with false
    by (destruct tr; reflexivity).
  replace (riskAtLeast critical (adjustedThreshold th tr)) with true
    by (destruct th, tr; reflexivity).
  reflexivity.
Qed.

Lemma escalated_call_never_allowed_witness :
  classify (Host.normalize "write") [("path", VStr "/app/.env")]
    = Ok (Level critical, Some "write to sensitive path")
  /\ evaluateRules Host.normalize Host.literalRegExp "write" [("path", VStr "/app/.env")]
       None None critical owner
     = Ok {| decision := escalate; riskLevel := Level critical; trustLevel := owner;
             reason := Some "write to sensitive path"; ruleLabel := None |}.
Proof.
  assert (Hc : classify (Host.normalize "write") [("path", VStr "/app/.env")]
               = Ok (Level critical, Some "write to sensitive path"))
    by (vm_compute; reflexivity).
  split; [exact Hc|].
  exact (proj2 (proj2 (escalated_call_never_allowed Host.normalize Host.literalRegExp
                         "write" _ None None critical owner _ _ Hc eq_refl))).
Defined.

Lemma firstMatch_app compile l1 l2 toolName toolParams tr :
  firstMatch compile (l1 ++ l2)%list toolName toolParams tr
  = match firstMatch compile l1 toolName toolParams tr with
    | Ok None => firstMatch compile l2 toolName toolParams tr
    | other => other
    end.
Proof.
  induction l1 as [|rule rest IH]; simpl; [reflexivity|].
  destruct (matchRule compile rule toolName toolParams tr) as [[|]|e]; simpl;
    [reflexivity | exact IH | reflexivity].
Qed.

(** X4: agent rules are tried before global rules and the first match
    wins.  When an agent rule matches, the result is that of the first such
    rule: the decision is its action (escalate when it has none), the risk is
    the classified risk raised by its [riskLevel], and neither the global
    rules, nor the threshold, nor the owner bypass have any influence; an
    allow rule lets a critical call through. *)
Theorem agent_rule_wins :
  forall norm compile raw toolParams g g' a th th' tr rule risk label,
    classify (norm raw) toolParams = Ok (risk, label) ->
    firstMatch compile (orElse a []) (norm raw) toolParams tr = Ok (Some rule) ->
    evaluateRules norm compile raw toolParams g a th tr
    = evaluateRules norm compile raw toolParams g' a th' tr
    /\ exists r,
         evaluateRules norm compile raw toolParams g a th tr = Ok r
         /\ decision r = orElse (rule_action rule) escalate
         /\ riskLevel r = match rule_riskLevel rule with
                          | Some override => maxRisk_value risk override
                          | None => risk
                          end
         /\ (forall l, risk = Level l ->
             riskLevel r = Level match rule_riskLevel rule with
                                 | Some override => maxRisk l override
                                 | None => l
                                 end)
         /\ ruleLabel r = orElseOpt (rule_label rule) (rule_id rule).
Proof.
  intros norm compile raw toolParams g g' a th th' tr rule risk label Hc Hf.
  unfold evaluateRules. rewrite Hc. simpl.
  rewrite !firstMatch_app, Hf. simpl.
  split; [reflexivity|]. eexists. split; [reflexivity|]. simpl.
  split; [reflexivity|]. split; [reflexivity|]. split; [|reflexivity].
  intros l ->. destruct (rule_riskLevel rule); [apply maxRisk_value_level | reflexivity].
Qed.

Lemma agent_rule_wins_witness :
  let allowAll := {| rule_id := Some "agent-allow"; rule_tool := Some "exec";
                     rule_paramMatches := None; rule_minTrust := None;
                     rule_riskLevel := None; rule_action := Some allow;
                     rule_label := None |} in
  let denyAll := {| rule_id := Some "global-deny"; rule_tool := Some "exec";
                    rule_paramMatches := None; rule_minTrust := None;
                    rule_riskLevel := None; rule_action := Some deny;
                    rule_label := None |} in
  firstMatch Host.literalRegExp [allowAll] (Host.normalize "exec")
    [("command", VStr "rm -rf /")] unknown = Ok (Some allowAll)
  /\ exists r,
       evaluateRules Host.normalize Host.literalRegExp "exec" [("command", VStr "rm -rf /")]
         (Some [denyAll]) (Some [allowAll]) low unknown = Ok r
       /\ decision r = allow /\ riskLevel r = Level critical.
Proof.
  intros allowAll denyAll.
  assert (Hc : classify (Host.normalize "exec") [("command", VStr "rm -rf /")]
               = Ok (Level critical, Some "destructive command"))
    by (vm_compute; reflexivity).
  assert (Hf : firstMatch Host.literalRegExp (orElse (Some [allowAll]) [])
                 (Host.normalize "exec") [("command", VStr "rm -rf /")] unknown
               = Ok (Some allowAll)) by (vm_compute; reflexivity).
  split; [exact Hf|].
  destruct (proj2 (agent_rule_wins Host.normalize Host.literalRegExp "exec" _
                     (Some [denyAll]) None (Some [allowAll]) low low unknown allowAll
                     _ _ Hc Hf)) as (r & Hr & Hd & _ & Hrisk & _).
  exists r. split; [exact Hr|]. split; [exact Hd | exact (Hrisk critical eq_refl)].
Defined.

Lemma unmatched_decision norm compile raw toolParams g a th tr risk label :
  classify (norm raw) toolParams = Ok (Level risk, label) ->
  firstMatch compile (orElse a [] ++ orElse g [])%list (norm raw) toolParams tr = Ok None ->
  exists r,
    evaluateRules norm compile raw toolParams g a th tr = Ok r
    /\ riskLevel r = Level risk
    /\ decision r = if is_owner tr && negb (riskAtLeast risk critical) then allow
                    else if riskAtLeast risk (adjustedThreshold th tr) then escalate
                    else allow.
Proof.
  intros Hc Hf. rewrite (evaluateRules_unmatched _ _ _ _ _ _ th _ _ _ Hc Hf).
  destruct (is_owner tr && negb (riskAtLeast risk critical));
    [eexists; split; [reflexivity|]; simpl; auto|].
  destruct (riskAtLeast risk (adjustedThreshold th tr));
    eexists; (split; [reflexivity|]); simpl; auto.
Qed.

(** X5: the threshold policy is monotone.  With no rule matched, a call
    that escalates at some threshold escalates at every lower threshold, and
    a call that escalates for some trust level escalates for every lower
    trust level; the levels allowed and unknown are treated alike (only
    owner and subagent change the comparison). *)
Theorem threshold_policy_monotone :
  forall norm compile raw toolParams g a risk label,
    classify (norm raw) toolParams = Ok (Level risk, label) ->
    (forall tr, firstMatch compile (orElse a [] ++ orElse g [])%list (norm raw)
                  toolParams tr = Ok None) ->
    forall th tr r,
      evaluateRules norm compile raw toolParams g a th tr = Ok r ->
      decision r = escalate ->
      (forall th' r', RISK_ORDER th' <= RISK_ORDER th ->
         evaluateRules norm compile raw toolParams g a th' tr = Ok r' ->
         decision r' = escalate)
      /\ (forall tr' r', TRUST_ORDER tr' <= TRUST_ORDER tr ->
            evaluateRules norm compile raw toolParams g a th tr' = Ok r' ->
            decision r' = escalate)
      /\ (forall ra ru,
            evaluateRules norm compile raw toolParams g a th allowed = Ok ra ->
            evaluateRules norm compile raw toolParams g a th unknown = Ok ru ->
            decision ra = decision ru /\ riskLevel ra = riskLevel ru
            /\ reason ra = reason ru).
Proof.
  intros norm compile raw toolParams g a risk label Hc Hf th tr r Hr Hd.
  destruct (unmatched_decision _ _ _ _ _ _ th tr _ _ Hc (Hf tr)) as (r0 & Hr0 & _ & Hd0).
  rewrite Hr in Hr0. inversion Hr0; subst r0; clear Hr0. rewrite Hd in Hd0.
  split; [|split].
  - intros th' r' Hle Hr'.
    destruct (unmatched_decision _ _ _ _ _ _ th' tr _ _ Hc (Hf tr)) as (r1 & Hr1 & _ & Hd1).
    rewrite Hr' in Hr1. inversion Hr1; subst r1. rewrite Hd1. clear - Hd0 Hle.
    destruct risk, th, th', tr; simpl in *; try reflexivity; try discriminate; lia.
  - intros tr' r' Hle Hr'.
    destruct (unmatched_decision _ _ _ _ _ _ th tr' _ _ Hc (Hf tr')) as (r1 & Hr1 & _ & Hd1).
    rewrite Hr' in Hr1. inversion Hr1; subst r1. rewrite Hd1. clear - Hd0 Hle.
    destruct risk, th, tr, tr'; simpl in *; try reflexivity; try discriminate; lia.
  - intros ra ru Ha Hu.
    rewrite (evaluateRules_unmatched _ _ _ _ _ _ th _ _ _ Hc (Hf allowed)) in Ha.
    rewrite (evaluateRules_unmatched _ _ _ _ _ _ th _ _ _ Hc (Hf unknown)) in Hu.
    simpl in Ha, Hu.
    destruct (riskAtLeast risk th); inversion Ha; inversion Hu; subst; simpl; auto.
Qed.

Lemma threshold_policy_monotone_witness :
  let run th tr :=
    evaluateRules Host.normalize Host.literalRegExp "write" [] None None th tr in
  run medium allowed
    = Ok {| decision := escalate; riskLevel := Level medium; trustLevel := allowed;
            reason := Some "risk medium >= threshold medium"; ruleLabel := None |}
  /\ (forall r', run low allowed = Ok r' -> decision r' = escalate)
  /\ (forall r', run medium subagent = Ok r' -> decision r' = escalate).
Proof.
  intros run.
  assert (Hc : classify (Host.normalize "write") [] = Ok (Level medium, None))
    by (vm_compute; reflexivity).
  assert (Hr : run medium allowed
               = Ok {| decision := escalate; riskLevel := Level medium;
                       trustLevel := allowed;
                       reason := Some "risk medium >= threshold medium";
                       ruleLabel := None |}) by (vm_compute; reflexivity).
  destruct (threshold_policy_monotone Host.normalize Host.literalRegExp "write" []
              None None medium None Hc (fun _ => eq_refl) medium allowed _ Hr eq_refl)
    as (Hth & Htr & _).
  split; [exact Hr|]. split.
  - intros r' H. apply (Hth low r'); [simpl; lia | exact H].
  - intros r' H. apply (Htr subagent r'); [simpl; lia | exact H].
Defined.

(** X6: [maxRisk] is the join of the risk order: commutative, associative
    and idempotent, with low as its unit and critical absorbing, and a level
    is reached by the join exactly when one of the two reaches it. *)
Theorem maxRisk_join :
  forall a b c,
    maxRisk a b = maxRisk b a
    /\ maxRisk a (maxRisk b c) = maxRisk (maxRisk a b) c
    /\ maxRisk a a = a
    /\ maxRisk low a = a
    /\ maxRisk critical a = critical
    /\ riskAtLeast (maxRisk a b) c = riskAtLeast a c || riskAtLeast b c.
Proof. intros a b c. destruct a, b, c; repeat split; reflexivity. Qed.

Lemma trustAtLeast_trans t1 t2 t3 :
  trustAtLeast t1 t2 = true -> trustAtLeast t2 t3 = true -> trustAtLeast t1 t3 = true.
Proof. unfold trustAtLeast. rewrite !Z.geb_le. lia. Qed.

(** X7: trust only gates a rule through [minTrust]: a rule that matches a
    call at one trust level matches the same call at every higher one. *)
Theorem matchRule_trust_monotone :
  forall compile rule toolName toolParams tr tr',
    matchRule compile rule toolName toolParams tr = Ok true ->
    trustAtLeast tr' tr = true ->
    matchRule compile rule toolName toolParams tr' = Ok true.
Proof.
  intros compile rule toolName toolParams tr tr' H Hle. unfold matchRule in *.
  destruct (truthy (rule_tool rule) && negb _); [discriminate H|].
  destruct (rule_minTrust rule) as [m|]; [|exact H].
  destruct (trustAtLeast tr m) eqn:Hm; simpl in H; [|discriminate H].
  rewrite (trustAtLeast_trans _ _ _ Hle Hm). simpl. exact H.
Qed.

Lemma matchRule_trust_monotone_witness :
  let rule := {| rule_id := None; rule_tool := Some "exec";
                 rule_paramMatches := Some [("command", "ls")];
                 rule_minTrust := Some allowed; rule_riskLevel := None;
                 rule_action := Some allow; rule_label := None |} in
  matchRule Host.literalRegExp rule "exec" [("command", VStr "ls -la")] allowed = Ok true
  /\ matchRule Host.literalRegExp rule "exec" [("command", VStr "ls -la")] owner = Ok true
  /\ matchRule Host.literalRegExp rule "exec" [("command", VStr "ls -la")] unknown = Ok false.
Proof.
  intros rule.
  assert (H : matchRule Host.literalRegExp rule "exec" [("command", VStr "ls -la")] allowed
              = Ok true) by (vm_compute; reflexivity).
  split; [exact H|]. split; [|vm_compute; reflexivity].
  exact (matchRule_trust_monotone _ _ _ _ allowed owner H eq_refl).
Defined.

(** X8: the trust option of the dry run is read back exactly: each of the
    four level names gives its level, and every other text gives unknown. *)
Theorem cliTrust_round_trip :
  (forall t, Cli.cliTrust (trust_name t) = t)
  /\ forall s, s <> "owner" -> s <> "subagent" -> s <> "allowed" ->
               Cli.cliTrust s = unknown.
Proof.
  split; [intros t; destruct t; reflexivity|].
  intros s Ho Hs Ha. unfold Cli.cliTrust, resolveTrustLevel.
  apply String.eqb_neq in Ho, Hs, Ha. rewrite Ho, Hs, Ha. reflexivity.
Qed.

Lemma cliTrust_round_trip_witness : Cli.cliTrust "Owner" = unknown.
Proof.
  apply (proj2 cliTrust_round_trip); discriminate.
Defined.

End RulesExtra.

(** ** Globs *)

Module GlobProps.

Import Js Regex Rules Sem.

Lemma app_cons_str c (s t : string) : String c s ++ t = String c (s ++ t).
Proof. reflexivity. Qed.

Lemma app_nil_l_str (t : string) : EmptyString ++ t = t.
Proof. reflexivity. Qed.

Lemma app_nil_r_str (s : string) : s ++ EmptyString = s.
Proof.
  induction s as [|c s IH]; [reflexivity|]. rewrite app_cons_str, IH. reflexivity.
Qed.

Lemma app_eq_nil_str (s t : string) :
  s ++ t = EmptyString -> s = EmptyString /\ t = EmptyString.
Proof.
  destruct s; [rewrite app_nil_l_str; auto | rewrite app_cons_str; discriminate].
Qed.

Section Lang.

Variable ci : bool.

Lemma lang_none s : ~ lang ci RNone s.
Proof. intros H. inversion H. Qed.

Lemma lang_eps_inv s : lang ci REps s -> s = EmptyString.
Proof. intros H. inversion H. reflexivity. Qed.

Lemma lang_chr_inv k s :
  lang ci (RChr k) s -> exists c, s = String c EmptyString /\ class_matches ci k c = true.
Proof. intros H. inversion H; subst. eauto. Qed.

Lemma lang_seq_inv a b u :
  lang ci (RSeq a b) u -> exists s t, u = s ++ t /\ lang ci a s /\ lang ci b t.
Proof. intros H. inversion H; subst. eauto. Qed.

Lemma lang_alt_inv a b u : lang ci (RAlt a b) u -> lang ci a u \/ lang ci b u.
Proof. intros H. inversion H; subst; auto. Qed.

Lemma nullable_lang r : nullable r = true <-> lang ci r EmptyString.
Proof.
  induction r as [| |k|a IHa b IHb|a IHa b IHb|a IHa]; simpl.
  - split; [discriminate | intros H; inversion H].
  - split; [intros _; constructor | reflexivity].
  - split; [discriminate | intros H; inversion H].
  - rewrite andb_true_iff, IHa, IHb. split.
    + intros [Ha Hb]. apply (lang_seq ci a b EmptyString EmptyString Ha Hb).
    + intros H. apply lang_seq_inv in H. destruct H as (s & t & E & Ha & Hb).
      symmetry in E. apply app_eq_nil_str in E. destruct E; subst. auto.
  - rewrite orb_true_iff, IHa, IHb. split.
    + intros [H|H]; [apply lang_alt_l | apply lang_alt_r]; exact H.
    + apply lang_alt_inv.
  - split; [intros _; constructor | reflexivity].
Qed.

Lemma lang_seq_smart a b s : lang ci (seq a b) s <-> lang ci (RSeq a b) s.
Proof.
  assert (Hl : forall b, lang ci (RSeq REps b) s <-> lang ci b s).
  { intros b0. split.
    - intros H. apply lang_seq_inv in H. destruct H as (u & t & -> & Hu & Ht).
      apply lang_eps_inv in Hu. subst. exact Ht.
    - intros H. apply (lang_seq ci REps b0 EmptyString s); [constructor | exact H]. }
  assert (Hr : forall a, lang ci (RSeq a REps) s <-> lang ci a s).
  { intros a0. split.
    - intros H. apply lang_seq_inv in H. destruct H as (u & t & -> & Hu & Ht).
      apply lang_eps_inv in Ht. subst. rewrite app_nil_r_str. exact Hu.
    - intros H. rewrite <- (app_nil_r_str s).
      apply (lang_seq ci a0 REps s EmptyString); [exact H | constructor]. }
  assert (Hn1 : forall b, lang ci RNone s <-> lang ci (RSeq RNone b) s).
  { intros b0. split; [intros H; inversion H|].
    intros H. apply lang_seq_inv in H. destruct H as (u & t & _ & Hu & _). inversion Hu. }
  assert (Hn2 : forall a, lang ci RNone s <-> lang ci (RSeq a RNone) s).
  { intros a0. split; [intros H; inversion H|].
    intros H. apply lang_seq_inv in H. destruct H as (u & t & _ & _ & Ht). inversion Ht. }
  destruct a; destruct b; simpl;
    first [ reflexivity | apply Hn1 | apply Hn2
          | symmetry; apply Hl | symmetry; apply Hr ].
Qed.

Lemma lang_alt_smart a b s : lang ci (alt a b) s <-> lang ci (RAlt a b) s.
Proof.
  assert (Hl : forall b, lang ci b s <-> lang ci (RAlt RNone b) s).
  { intros b0. split; [apply lang_alt_r|].
    intros H. apply lang_alt_inv in H. destruct H as [H|H]; [inversion H | exact H]. }
  assert (Hr : forall a, lang ci a s <-> lang ci (RAlt a RNone) s).
  { intros a0. split; [apply lang_alt_l|].
    intros H. apply lang_alt_inv in H. destruct H as [H|H]; [exact H | inversion H]. }
  destruct a; destruct b; simpl; first [ reflexivity | apply Hl | apply Hr ].
Qed.

Lemma lang_star_cons_inv a u :
  lang ci (RStar a) u ->
  forall c s, u = String c s ->
    exists s1 s2, s = s1 ++ s2 /\ lang ci a (String c s1) /\ lang ci (RStar a) s2.
Proof.
  intros H. remember (RStar a) as r eqn:Er.
  induction H as [ | | | | | |a0 s0 t Ha _ Hstar IH]; try discriminate Er.
  - intros c s E. discriminate E.
  - inversion Er; subst a0. intros c s E.
    destruct s0 as [|c0 s0].
    + rewrite app_nil_l_str in E. apply (IH eq_refl c s E).
    + rewrite app_cons_str in E. inversion E; subst. exists s0, t. auto.
Qed.

Lemma deriv_lang c r : forall s, lang ci (deriv ci c r) s <-> lang ci r (String c s).
Proof.
  induction r as [| |k|a IHa b IHb|a IHa b IHb|a IHa]; intros s; simpl.
  - split; intros H; inversion H.
  - split; intros H; inversion H.
  - destruct (class_matches ci k c) eqn:Hk.
    + split.
      * intros H. apply lang_eps_inv in H. subst. constructor. exact Hk.
      * intros H. apply lang_chr_inv in H. destruct H as (c' & E & _).
        inversion E; subst. constructor.
    + split; [intros H; inversion H|].
      intros H. apply lang_chr_inv in H. destruct H as (c' & E & Hc).
      inversion E; subst. congruence.
  - assert (Hfirst : lang ci (seq (deriv ci c a) b) s
                     <-> exists s1 s2, s = s1 ++ s2 /\ lang ci a (String c s1)
                                       /\ lang ci b s2).
    { rewrite lang_seq_smart. split.
      - intros H. apply lang_seq_inv in H. destruct H as (s1 & s2 & E & H1 & H2).
        exists s1, s2. rewrite <- IHa. auto.
      - intros (s1 & s2 & -> & H1 & H2). apply lang_seq; [apply IHa; exact H1 | exact H2]. }
    assert (Hsplit : lang ci (RSeq a b) (String c s)
                     <-> (exists s1 s2, s = s1 ++ s2 /\ lang ci a (String c s1)
                                        /\ lang ci b s2)
                         \/ (lang ci a EmptyString /\ lang ci b (String c s))).
    { split.
      - intros H. apply lang_seq_inv in H. destruct H as (u & t & E & Hu & Ht).
        destruct u as [|c0 u].
        + rewrite app_nil_l_str in E. right. subst t. auto.
        + rewrite app_cons_str in E. inversion E; subst. left. eauto.
      - intros [(s1 & s2 & -> & H1 & H2)|[H1 H2]].
        + apply (lang_seq ci a b (String c s1) s2 H1 H2).
        + apply (lang_seq ci a b EmptyString (String c s) H1 H2). }
    rewrite Hsplit. destruct (nullable a) eqn:Hn.
    + rewrite lang_alt_smart. split.
      * intros H. apply lang_alt_inv in H. destruct H as [H|H].
        -- left. apply Hfirst. exact H.
        -- right. split; [apply nullable_lang; exact Hn | apply IHb; exact H].
      * intros [H|[_ H]].
        -- apply lang_alt_l. apply Hfirst. exact H.
        -- apply lang_alt_r. apply IHb. exact H.
    + rewrite Hfirst. split; [auto|].
      intros [H|[H _]]; [exact H|].
      apply nullable_lang in H. congruence.
  - rewrite lang_alt_smart. split.
    + intros H. apply lang_alt_inv in H.
      destruct H as [H|H]; [apply lang_alt_l, IHa | apply lang_alt_r, IHb]; exact H.
    + intros H. apply lang_alt_inv in H.
      destruct H as [H|H]; [apply lang_alt_l, IHa | apply lang_alt_r, IHb]; exact H.
  - rewrite lang_seq_smart. split.
    + intros H. apply lang_seq_inv in H. destruct H as (s1 & s2 & -> & H1 & H2).
      apply (lang_star_cons ci a (String c s1) s2); [apply IHa; exact H1 | exact H2].
    + intros H. destruct (lang_star_cons_inv a _ H c s eq_refl) as (s1 & s2 & -> & H1 & H2).
      apply lang_seq; [apply IHa; exact H1 | exact H2].
Qed.

(** The matcher by derivatives decides the language. *)
Lemma matches_lang s : forall r, matches ci r s = true <-> lang ci r s.
Proof.
  induction s as [|c s IH]; intros r; simpl.
  - apply nullable_lang.
  - rewrite IH. apply deriv_lang.
Qed.

End Lang.

Lemma dot_matches c : class_matches false CDot c = negb (line_break c).
Proof. reflexivity. Qed.

Lemma star_dot_lang s :
  lang false (RStar (RChr CDot)) s <-> no_line_break s = true.
Proof.
  split.
  - intros H. remember (RStar (RChr CDot)) as r eqn:Er.
    induction H as [ | | | | | |a s0 t Ha _ Hstar IH]; try discriminate Er;
      [reflexivity|].
    inversion Er; subst a. apply lang_chr_inv in Ha. destruct Ha as (c & -> & Hc).
    rewrite app_cons_str, app_nil_l_str. simpl. rewrite dot_matches in Hc.
    rewrite Hc. apply (IH eq_refl).
  - induction s as [|c s IH]; simpl; [intros _; constructor|].
    intros H. apply andb_true_iff in H. destruct H as [Hc Hs].
    apply (lang_star_cons false (RChr CDot) (String c EmptyString) s);
      [apply lang_chr; rewrite dot_matches; exact Hc | apply IH; exact Hs].
Qed.

Lemma glob_regex_lang pat : forall v, lang false (glob_regex pat) v <-> globs pat v.
Proof.
  induction pat as [|p pat IH]; intros v; simpl.
  - split.
    + intros H. apply lang_eps_inv in H. subst. constructor.
    + intros H. inversion H. constructor.
  - rewrite lang_seq_smart.
    destruct (Ascii.eqb_spec p "*") as [->|Hstar].
    { split.
      - intros H. apply lang_seq_inv in H. destruct H as (s & t & -> & Hs & Ht).
        constructor; [apply star_dot_lang; exact Hs | apply IH; exact Ht].
      - intros H. inversion H; subst.
        + apply lang_seq; [apply star_dot_lang; assumption | apply IH; assumption].
        + congruence. }
    destruct (Ascii.eqb_spec p "?") as [->|Hone].
    { split.
      - intros H. apply lang_seq_inv in H. destruct H as (s & t & -> & Hs & Ht).
        apply lang_chr_inv in Hs. destruct Hs as (c & -> & Hc).
        rewrite app_cons_str, app_nil_l_str. rewrite dot_matches in Hc.
        constructor; [destruct (line_break c); [discriminate Hc | reflexivity]
                     | apply IH; exact Ht].
      - intros H. inversion H; subst.
        + apply (lang_seq false (RChr CDot) (glob_regex pat) (String c EmptyString) t);
            [apply lang_chr; rewrite dot_matches;
             match goal with Hlb : line_break _ = false |- _ => rewrite Hlb end;
             reflexivity
            | apply IH; assumption].
        + congruence. }
    split.
    + intros H. apply lang_seq_inv in H. destruct H as (s & t & -> & Hs & Ht).
      apply lang_chr_inv in Hs. destruct Hs as (c & -> & Hc).
      simpl in Hc. apply Ascii.eqb_eq in Hc. subst c.
      rewrite app_cons_str, app_nil_l_str.
      constructor; [exact Hstar | exact Hone | apply IH; exact Ht].
    + intros H. inversion H; subst; try congruence.
      apply (lang_seq false (RChr (CLit p)) (glob_regex pat) (String p EmptyString) t);
        [apply lang_chr; simpl; apply Ascii.eqb_refl | apply IH; assumption].
Qed.

Lemma includes_cons_false c s x :
  includes (String c s) (String x EmptyString) = false ->
  c <> x /\ includes s (String x EmptyString) = false.
Proof.
  simpl. destruct (ascii_dec x c) as [->|Hne].
  - destruct s; discriminate.
  - intros H. split; [congruence | exact H].
Qed.

Lemma globs_literal pat : forall v,
  includes pat "*" = false -> includes pat "?" = false ->
  (globs pat v <-> pat = v).
Proof.
  induction pat as [|p pat IH]; intros v Hs Hq.
  - split; [intros H; inversion H; reflexivity | intros <-; constructor].
  - apply includes_cons_false in Hs, Hq. destruct Hs as [Hps Hs], Hq as [Hpq Hq].
    split.
    + intros H. inversion H; subst; try congruence.
      f_equal. apply IH; assumption.
    + intros <-. constructor; [exact Hps | exact Hpq | apply IH; auto].
Qed.

(** X9: what [globMatch] decides on ASCII text.  For a pattern and a
    name of ASCII characters, the pattern matches the name exactly when the
    pattern is the lone [*], or the name is the pattern with every [*]
    replaced by a run of characters and every [?] by one character, no
    replaced character being a line terminator; every other character of
    the pattern, the metacharacters of regular expressions included, stands
    for itself.  A pattern without wildcards, ASCII or not, matches only
    itself. *)
Theorem globMatch_spec :
  forall pat value,
    (ascii_text pat = true -> ascii_text value = true ->
     (globMatch pat value = true <-> pat = "*" \/ globs pat value))
    /\ (includes pat "*" = false -> includes pat "?" = false ->
        (globMatch pat value = true <-> pat = value)).
Proof.
  intros pat value.
  assert (Hmain : globMatch pat value = true <-> pat = "*" \/ globs pat value).
  { unfold globMatch. destruct (String.eqb_spec pat "*") as [->|Hne].
    - split; auto.
    - destruct (includes pat "*") eqn:Hs; simpl.
      + rewrite matches_lang, glob_regex_lang. split; [auto | intros [E|H]; congruence].
      + destruct (includes pat "?") eqn:Hq; simpl.
        * rewrite matches_lang, glob_regex_lang. split; [auto | intros [E|H]; congruence].
        * rewrite String.eqb_eq, <- (globs_literal pat value Hs Hq).
          split; [auto | intros [E|H]; congruence]. }
  split; [intros _ _; exact Hmain|].
  intros Hs Hq. rewrite Hmain, (globs_literal pat value Hs Hq).
  split; [|auto]. intros [->|H]; [discriminate Hs | exact H].
Qed.

Lemma globMatch_spec_witness :
  (includes "a.b" "*" = false /\ includes "a.b" "?" = false)
  /\ (globMatch "a.b" "axb" = true <-> "a.b" = "axb")
  /\ (ascii_text "session*" = true /\ ascii_text "sessions_list" = true)
  /\ globMatch "session*" "sessions_list" = true
  /\ globMatch "*" ("a" ++ str1 newline ++ "b") = true
  /\ globMatch "a*" ("a" ++ str1 newline ++ "b") = false.
Proof.
  split; [split; reflexivity|].
  split; [exact (proj2 (globMatch_spec "a.b" "axb") eq_refl eq_refl)|].
  split; [split; reflexivity|].
  split; [|split; vm_compute; reflexivity].
  apply (proj1 (globMatch_spec "session*" "sessions_list") eq_refl eq_refl). right.
  apply (globs_lit "s" _ _); [discriminate | discriminate|].
  apply (globs_lit "e" _ _); [discriminate | discriminate|].
  apply (globs_lit "s" _ _); [discriminate | discriminate|].
  apply (globs_lit "s" _ _); [discriminate | discriminate|].
  apply (globs_lit "i" _ _); [discriminate | discriminate|].
  apply (globs_lit "o" _ _); [discriminate | discriminate|].
  apply (globs_lit "n" _ _); [discriminate | discriminate|].
  apply (globs_star EmptyString "s_list" EmptyString); [reflexivity | constructor].
Defined.

End GlobProps.

(** ** The budget ledger: further properties *)

Module BudgetExtra.

Import Js Budget BudgetParts BudgetProps.

Lemma loadDaily_set_session today t total costs :
  loadDaily today (set_session t total costs)
  = (fst (loadDaily today t), set_session (snd (loadDaily today t)) total costs).
Proof.
  unfold loadDaily. simpl.
  destruct (match dailyCache t with
            | Some c => if date c =? today then Some c else None
            | None => None
            end); reflexivity.
Qed.

(** [recordCost], with the read of today's entry made explicit. *)
Lemma recordCost_run_eq today toolName cost agentId t :
  recordCost_run today toolName cost agentId t
  = let daily := fst (loadDaily today t) in
    let daily' :=
      {| date := today;
         totalCost := (totalCost daily + cost)%Q;
         perAgent :=
           if truthy agentId
           then <[orElse agentId EmptyString :=
                    (orElse (perAgent daily !! orElse agentId EmptyString) 0 + cost)%Q]>
                  (perAgent daily)
           else perAgent daily |} in
    saveDaily today daily'
      (set_dailyCache
         (set_session (snd (loadDaily today t)) (sessionTotal t + cost)%Q
            (if truthy agentId
             then <[orElse agentId EmptyString :=
                      (orElse (sessionCosts t !! orElse agentId EmptyString) 0 + cost)%Q]>
                    (sessionCosts t)
             else sessionCosts t))
         (Some daily')).
Proof.
  unfold recordCost_run. rewrite loadDaily_set_session.
  pose proof (loadDaily_date today t) as Hd.
  destruct (loadDaily today t) as [daily t2]. simpl in *. rewrite Hd. reflexivity.
Qed.

(** [saveDaily] touches the file only. *)
Lemma saveDaily_keeps today e t :
  dailyCache (snd (saveDaily today e t)) = dailyCache t
  /\ sessionTotal (snd (saveDaily today e t)) = sessionTotal t
  /\ sessionCosts (snd (saveDaily today e t)) = sessionCosts t
  /\ budgetPath (snd (saveDaily today e t)) = budgetPath t
  /\ writable (snd (saveDaily today e t)) = writable t
  /\ cutoffDrift (snd (saveDaily today e t)) = cutoffDrift t.
Proof.
  unfold saveDaily. destruct (negb (truthy (budgetPath t))); [repeat split|].
  destruct (file t); simpl; try (destruct (writable t) eqn:Hw); simpl;
    repeat split; exact Hw.
Qed.

Lemma saveDaily_file today e t :
  truthy (budgetPath t) = true -> writable t = true ->
  (forall err, file t <> NoDailyArray err) ->
  file (snd (saveDaily today e t))
  = Stored
      (List.filter
         (fun d => (date d >=? today - 7 + cutoffDrift t) && negb (date d =? date e))
         (match file t with Stored daily => daily | _ => [] end)
       ++ [e])%list.
Proof.
  intros Hp Hw Hf. unfold saveDaily. rewrite Hp, Hw. simpl.
  destruct (file t) as [| |err|daily]; try reflexivity.
  exfalso. exact (Hf err eq_refl).
Qed.

Lemma saveDaily_throws today e t err :
  truthy (budgetPath t) = true -> file t = NoDailyArray err ->
  saveDaily today e t = (Throw err, t).
Proof. intros Hp Hf. unfold saveDaily. rewrite Hp, Hf. reflexivity. Qed.

(** The entry that [recordCost] leaves for today. *)
Lemma recordCost_cache today toolName cost agentId t :
  dailyCache (recordCost today toolName cost agentId t)
  = Some {| date := today;
            totalCost := (totalCost (fst (loadDaily today t)) + cost)%Q;
            perAgent :=
              if truthy agentId
              then <[orElse agentId EmptyString :=
                       (orElse (perAgent (fst (loadDaily today t))
                                  !! orElse agentId EmptyString) 0 + cost)%Q]>
                     (perAgent (fst (loadDaily today t)))
              else perAgent (fst (loadDaily today t)) |}.
Proof.
  unfold recordCost. rewrite recordCost_run_eq. cbv zeta.
  rewrite (proj1 (saveDaily_keeps _ _ _)). reflexivity.
Qed.

Lemma recordCost_session today toolName cost agentId t :
  sessionTotal (recordCost today toolName cost agentId t) = (sessionTotal t + cost)%Q
  /\ sessionCosts (recordCost today toolName cost agentId t)
     = if truthy agentId
       then <[orElse agentId EmptyString :=
                (orElse (sessionCosts t !! orElse agentId EmptyString) 0 + cost)%Q]>
              (sessionCosts t)
       else sessionCosts t.
Proof.
  unfold recordCost. rewrite recordCost_run_eq. cbv zeta.
  destruct (saveDaily_keeps today
              {| date := today;
                 totalCost := (totalCost (fst (loadDaily today t)) + cost)%Q;
                 perAgent :=
                   if truthy agentId
                   then <[orElse agentId EmptyString :=
                            (orElse (perAgent (fst (loadDaily today t))
                                       !! orElse agentId EmptyString) 0 + cost)%Q]>
                          (perAgent (fst (loadDaily today t)))
                   else perAgent (fst (loadDaily today t)) |}
              (set_dailyCache
                 (set_session (snd (loadDaily today t)) (sessionTotal t + cost)%Q
                    (if truthy agentId
                     then <[orElse agentId EmptyString :=
                              (orElse (sessionCosts t !! orElse agentId EmptyString) 0
                               + cost)%Q]> (sessionCosts t)
                     else sessionCosts t))
                 (Some {| date := today;
                          totalCost := (totalCost (fst (loadDaily today t)) + cost)%Q;
                          perAgent :=
                            if truthy agentId
                            then <[orElse agentId EmptyString :=
                                     (orElse (perAgent (fst (loadDaily today t))
                                                !! orElse agentId EmptyString) 0
                                      + cost)%Q]>
                                   (perAgent (fst (loadDaily today t)))
                            else perAgent (fst (loadDaily today t)) |})))
    as (_ & Ht & Hc & _).
  rewrite Ht, Hc. split; reflexivity.
Qed.

(** [recordCost] leaves the path, the clock and the permissions alone. *)
Lemma recordCost_host today toolName cost agentId t :
  budgetPath (recordCost today toolName cost agentId t) = budgetPath t
  /\ writable (recordCost today toolName cost agentId t) = writable t
  /\ cutoffDrift (recordCost today toolName cost agentId t) = cutoffDrift t.
Proof.
  unfold recordCost. rewrite recordCost_run_eq. cbv zeta.
  destruct (loadDaily_host today t) as (Hp & _ & Hw & Hc).
  split; [|split].
  - rewrite (proj1 (proj2 (proj2 (proj2 (saveDaily_keeps _ _ _))))). exact Hp.
  - rewrite (proj1 (proj2 (proj2 (proj2 (proj2 (saveDaily_keeps _ _ _)))))). exact Hw.
  - rewrite (proj2 (proj2 (proj2 (proj2 (proj2 (saveDaily_keeps _ _ _)))))). exact Hc.
Qed.

Lemma loadDaily_cached today t e :
  dailyCache t = Some e -> date e = today -> loadDaily today t = (e, t).
Proof. intros Hc Hd. unfold loadDaily. rewrite Hc, Hd, Z.eqb_refl. reflexivity. Qed.

Lemma today_after_record today toolName cost agentId t :
  fst (loadDaily today (recordCost today toolName cost agentId t))
  = {| date := today;
       totalCost := (totalCost (fst (loadDaily today t)) + cost)%Q;
       perAgent :=
         if truthy agentId
         then <[orElse agentId EmptyString :=
                  (orElse (perAgent (fst (loadDaily today t))
                             !! orElse agentId EmptyString) 0 + cost)%Q]>
                (perAgent (fst (loadDaily today t)))
         else perAgent (fst (loadDaily today t)) |}.
Proof.
  erewrite loadDaily_cached; [reflexivity | apply recordCost_cache | reflexivity].
Qed.

Lemma getDailyCost_fst today ag t :
  fst (getDailyCost today ag t)
  = if truthy ag
    then orElse (perAgent (fst (loadDaily today t)) !! orElse ag EmptyString) 0%Q
    else totalCost (fst (loadDaily today t)).
Proof.
  unfold getDailyCost. destruct (loadDaily today t). simpl.
  destruct (truthy ag); reflexivity.
Qed.

(** A recording for one agent, or for none, leaves what is counted for
    another agent as it was. *)
Lemma recordCost_other_agent today toolName cost agentId t other :
  other <> EmptyString -> agentId <> Some other ->
  getSessionCost (Some other) (recordCost today toolName cost agentId t)
  = getSessionCost (Some other) t
  /\ fst (getDailyCost today (Some other) (recordCost today toolName cost agentId t))
     = fst (getDailyCost today (Some other) t).
Proof.
  intros Hne Hother.
  destruct (recordCost_session today toolName cost agentId t) as [_ Hcosts].
  pose proof (today_after_record today toolName cost agentId t) as Hday.
  assert (Ht : truthy (Some other) = true)
    by (destruct other; [contradiction | reflexivity]).
  assert (Hkeep : forall (m : gmap string Q) v,
            (if truthy agentId then <[orElse agentId EmptyString := v]> m else m)
              !! other = m !! other).
  { intros m v. destruct (truthy agentId) eqn:Ha; [|reflexivity].
    apply lookup_insert_ne. intros E. apply Hother.
    destruct agentId as [[|c n]|]; simpl in *; try discriminate. congruence. }
  split.
  - unfold getSessionCost. rewrite Ht, Hcosts. simpl. rewrite Hkeep. reflexivity.
  - rewrite !getDailyCost_fst, Hday, Ht. simpl. rewrite Hkeep. reflexivity.
Qed.

(** X10: what one [recordCost] adds, whether or not the write that ends
    it succeeds.  Where the additions of the code are exact in doubles, the
    session total and today's total grow by the cost; with a non-empty agent
    id that is a plain key of [daily.perAgent] (not a name that every object
    inherits, such as [constructor]) that agent's session and daily costs
    grow by the cost as well; the costs of every other agent stay as they
    were; with no agent id, or an empty one, only the two totals change. *)
Theorem recordCost_accounting :
  forall today toolName cost agentId t,
    let t' := recordCost today toolName cost agentId t in
    (exact_sum (getSessionCost None t) cost ->
     getSessionCost None t' = (getSessionCost None t + cost)%Q)
    /\ (exact_sum (fst (getDailyCost today None t)) cost ->
        fst (getDailyCost today None t') = (fst (getDailyCost today None t) + cost)%Q)
    /\ (forall name, agentId = Some name -> name <> EmptyString -> plainKey name ->
        (exact_sum (getSessionCost (Some name) t) cost ->
         getSessionCost (Some name) t' = (getSessionCost (Some name) t + cost)%Q)
        /\ (exact_sum (fst (getDailyCost today (Some name) t)) cost ->
            fst (getDailyCost today (Some name) t')
            = (fst (getDailyCost today (Some name) t) + cost)%Q))
    /\ (forall other, other <> EmptyString -> agentId <> Some other ->
        getSessionCost (Some other) t' = getSessionCost (Some other) t
        /\ fst (getDailyCost today (Some other) t')
           = fst (getDailyCost today (Some other) t))
    /\ (truthy agentId = false ->
        sessionCosts t' = sessionCosts t
        /\ perAgent (fst (loadDaily today t')) = perAgent (fst (loadDaily today t))).
Proof.
  intros today toolName cost agentId t t'.
  destruct (recordCost_session today toolName cost agentId t) as [Htot Hcosts].
  pose proof (today_after_record today toolName cost agentId t) as Hday.
  fold t' in Htot, Hcosts, Hday.
  split; [intros _; exact Htot|].
  split; [intros _; rewrite !getDailyCost_fst, Hday; reflexivity|].
  split; [|split].
  - intros name -> Hne _.
    assert (Ht : truthy (Some name) = true) by (destruct name; [contradiction | reflexivity]).
    rewrite !getDailyCost_fst, Hday. unfold getSessionCost. rewrite Hcosts, Ht. simpl.
    rewrite !lookup_insert_eq. auto.
  - intros other Hne Hother.
    exact (recordCost_other_agent today toolName cost agentId t other Hne Hother).
  - intros Ha. rewrite Hcosts, Hday, Ha. auto.
Qed.

Lemma binary64_quarter : binary64 (1 # 4).
Proof.
  exists 1, (-2). split; [reflexivity|]. split; [lia|]. reflexivity.
Qed.

Lemma binary64_zero : binary64 0.
Proof.
  exists 0, 0. split; [reflexivity|]. split; [lia|]. reflexivity.
Qed.

Lemma exact_sum_zero_quarter : exact_sum 0 (1 # 4).
Proof.
  split; [exact binary64_zero|]. split; [exact binary64_quarter|].
  exists 1, (-2). split; [reflexivity|]. split; [lia|]. reflexivity.
Qed.

Lemma recordCost_accounting_witness :
  let t := createBudgetTracker None Missing true in
  let t' := recordCost 100 "exec" (1 # 4) (Some "agent-a") t in
  exact_sum (getSessionCost (Some "agent-a") t) (1 # 4)
  /\ plainKey "agent-a"
  /\ getSessionCost (Some "agent-a") t' = (getSessionCost (Some "agent-a") t + (1 # 4))%Q
  /\ getSessionCost (Some "agent-b") t' = getSessionCost (Some "agent-b") t
  /\ getSessionCost None t' = (0 + (1 # 4))%Q.
Proof.
  intros t t'.
  destruct (recordCost_accounting 100 "exec" (1 # 4) (Some "agent-a") t)
    as (Htot & _ & Hsame & Hother & _).
  split; [exact exact_sum_zero_quarter|]. split; [reflexivity|].
  split; [exact (proj1 (Hsame "agent-a" eq_refl ltac:(discriminate) eq_refl)
                   exact_sum_zero_quarter)|].
  split; [exact (proj1 (Hother "agent-b" ltac:(discriminate) ltac:(discriminate)))|].
  exact (Htot exact_sum_zero_quarter).
Defined.

Lemma recordCost_file today toolName cost agentId t :
  truthy (budgetPath t) = true -> writable t = true -> hasDailyArray t ->
  file (recordCost today toolName cost agentId t)
  = Stored
      (List.filter
         (fun d => (date d >=? today - 7 + cutoffDrift t) && negb (date d =? today))
         (match file t with Stored daily => daily | _ => [] end)
       ++ [fst (loadDaily today (recordCost today toolName cost agentId t))])%list.
Proof.
  intros Hp Hw Hf. rewrite today_after_record.
  unfold recordCost. rewrite recordCost_run_eq. cbv zeta.
  destruct (loadDaily_host today t) as (Hp' & Hf' & Hw' & Hc').
  rewrite saveDaily_file; simpl.
  - rewrite Hf', Hc'. reflexivity.
  - rewrite Hp'. exact Hp.
  - rewrite Hw'. exact Hw.
  - intros err. rewrite Hf'. apply Hf.
Qed.

(** On a file without a [daily] array [recordCost] throws, having counted
    the cost in memory, and leaves the file as it was. *)
Lemma recordCost_no_array today toolName cost agentId t err :
  truthy (budgetPath t) = true -> file t = NoDailyArray err ->
  fst (recordCost_run today toolName cost agentId t) = Throw err
  /\ file (recordCost today toolName cost agentId t) = NoDailyArray err.
Proof.
  intros Hp Hf. split.
  - rewrite recordCost_run_outcome, Hp, Hf. reflexivity.
  - unfold recordCost. rewrite recordCost_run_eq. cbv zeta.
    destruct (loadDaily_host today t) as (Hp' & Hf' & _).
    erewrite saveDaily_throws; simpl; [| rewrite Hp'; exact Hp | rewrite Hf'; exact Hf].
    rewrite Hf'. exact Hf.
Qed.

Lemma find_none_filtered (today cutoff : Z) l :
  List.find (fun d => date d =? today)
    (List.filter (fun d => (date d >=? cutoff) && negb (date d =? today)) l) = None.
Proof.
  induction l as [|d l IH]; simpl; [reflexivity|].
  destruct (date d >=? cutoff); simpl; [|exact IH].
  destruct (date d =? today) eqn:E; simpl; [exact IH|]. rewrite E. exact IH.
Qed.

Lemma find_app_none {A} (f : A -> bool) l1 l2 :
  List.find f l1 = None -> List.find f (l1 ++ l2)%list = List.find f l2.
Proof.
  induction l1 as [|x l1 IH]; simpl; [reflexivity|].
  destruct (f x); [discriminate | exact IH].
Qed.





Section Check.

Variable P : Platform.

(** X13: a budget check counts nothing.  It leaves the session totals,
    the file and today's totals as they were (at most it fills the cache of
    today's entry), and without an enabled budget configuration it never
    reports an excess and does not touch the tracker at all. *)
Theorem checkBudget_counts_nothing :
  forall today toolName budgetConfig agentId t,
    ledger today (snd (checkBudget P today toolName budgetConfig agentId t))
      = ledger today t
    /\ (match budgetConfig with
        | Some c => orElse (budget_enabled c) false = false
        | None => True
        end ->
        checkBudget P today toolName budgetConfig agentId t
        = ({| exceeded := false; budget_action := None; budget_reason := None |}, t)).
Proof.
  intros today toolName budgetConfig agentId t.
  split; [apply ledger_checkBudget|].
  unfold checkBudget. destruct budgetConfig as [c|]; [|reflexivity].
  intros ->. reflexivity.
Qed.

Lemma daily_read today ag t :
  fst (getDailyCost today ag t)
  = if truthy ag
    then orElse (perAgent (fst (loadDaily today t)) !! orElse ag EmptyString) 0%Q
    else totalCost (fst (loadDaily today t)).
Proof.
  unfold getDailyCost. destruct (loadDaily today t). simpl.
  destruct (truthy ag); reflexivity.
Qed.

(** The result of a check depends on the tracker only through the two
    costs it reads. *)
Lemma checkBudget_reads today toolName budgetConfig agentId t1 t2 :
  getSessionCost agentId t1 = getSessionCost agentId t2 ->
  fst (getDailyCost today agentId t1) = fst (getDailyCost today agentId t2) ->
  fst (checkBudget P today toolName budgetConfig agentId t1)
  = fst (checkBudget P today toolName budgetConfig agentId t2).
Proof.
  intros Hs Hd. unfold checkBudget. destruct budgetConfig as [c|]; [|reflexivity].
  destruct (negb _); [reflexivity|]. rewrite Hs.
  destruct (match sessionLimit c with Some _ => _ | None => _ end); [reflexivity|].
  destruct (dailyLimit c) as [limit|]; [|reflexivity].
  destruct (getDailyCost today agentId t1) as [d1 u1].
  destruct (getDailyCost today agentId t2) as [d2 u2]. simpl in Hd. subst d2.
  destruct (gt _ limit); reflexivity.
Qed.

(** X14: the budgets of two agents are kept apart.  Recording a cost for
    one agent, or for no agent, does not change the outcome of the budget
    check of a call of another agent: a call with an agent id is checked
    against the costs of that agent alone. *)
Theorem budget_check_per_agent :
  forall today toolName budgetConfig name t toolName' cost agentId',
    name <> EmptyString -> agentId' <> Some name ->
    fst (checkBudget P today toolName budgetConfig (Some name)
           (recordCost today toolName' cost agentId' t))
    = fst (checkBudget P today toolName budgetConfig (Some name) t).
Proof.
  intros today toolName budgetConfig name t toolName' cost agentId' Hne Hother.
  destruct (recordCost_other_agent today toolName' cost agentId' t name Hne Hother)
    as [Hs Hd].
  apply checkBudget_reads; assumption.
Qed.

Lemma gt_mono x y limit : (x <= y)%Q -> gt x limit = true -> gt y limit = true.
Proof.
  unfold gt. intros Hle Hx. apply negb_true_iff in Hx. apply negb_true_iff.
  destruct (Qle_bool y limit) eqn:E; [|reflexivity].
  apply Qle_bool_iff in E.
  assert (Hxl : (x <= limit)%Q) by lra.
  apply Qle_bool_iff in Hxl. congruence.
Qed.

Lemma costs_grow today toolName cost agentId t ag :
  (0 <= cost)%Q ->
  (getSessionCost ag t <= getSessionCost ag (recordCost today toolName cost agentId t))%Q
  /\ (fst (getDailyCost today ag t)
      <= fst (getDailyCost today ag (recordCost today toolName cost agentId t)))%Q.
Proof.
  intros Hc.
  destruct (recordCost_session today toolName cost agentId t) as [Htot Hcosts].
  pose proof (today_after_record today toolName cost agentId t) as Hday.
  rewrite !daily_read, Hday. unfold getSessionCost. rewrite Htot, Hcosts. simpl.
  destruct (truthy ag); [|split; lra].
  destruct (truthy agentId); [|split; lra].
  destruct (decide (orElse agentId EmptyString = orElse ag EmptyString)) as [E|E].
  - rewrite E, !lookup_insert_eq. simpl. split; lra.
  - rewrite !lookup_insert_ne by exact E. split; lra.
Qed.

(** X15: an exhausted budget stays exhausted.  When a budget check
    reports an excess, it still does so after any further recording of a
    cost that is not negative, on the same day. *)
Theorem over_budget_stays_over :
  forall today toolName budgetConfig agentId t toolName' cost agentId',
    (0 <= cost)%Q ->
    exceeded (fst (checkBudget P today toolName budgetConfig agentId t)) = true ->
    exceeded (fst (checkBudget P today toolName budgetConfig agentId
                     (recordCost today toolName' cost agentId' t))) = true.
Proof.
  intros today toolName budgetConfig agentId t toolName' cost agentId' Hc.
  destruct (costs_grow today toolName' cost agentId' t agentId Hc) as [Hs Hd].
  unfold checkBudget. destruct budgetConfig as [c|]; [|discriminate].
  destruct (negb _); [discriminate|].
  set (t' := recordCost today toolName' cost agentId' t) in *.
  set (call := resolveToolCost toolName (Some c)).
  assert (Hsession : forall limit,
            gt (getSessionCost agentId t + call) limit = true ->
            gt (getSessionCost agentId t' + call) limit = true).
  { intros limit. apply gt_mono. lra. }
  assert (Hdaily : forall limit,
            gt (fst (getDailyCost today agentId t) + call) limit = true ->
            gt (fst (getDailyCost today agentId t') + call) limit = true).
  { intros limit. apply gt_mono. lra. }
  destruct (sessionLimit c) as [sl|].
  - destruct (gt (getSessionCost agentId t + call) sl) eqn:E.
    + rewrite (Hsession sl E). reflexivity.
    + destruct (gt (getSessionCost agentId t' + call) sl); [reflexivity|].
      destruct (dailyLimit c) as [dl|]; [|discriminate].
      destruct (getDailyCost today agentId t) as [d1 u1].
      destruct (getDailyCost today agentId t') as [d2 u2]. simpl in *.
      destruct (gt (d1 + call) dl) eqn:E1; [|discriminate].
      rewrite (Hdaily dl E1). reflexivity.
  - destruct (dailyLimit c) as [dl|]; [|discriminate].
    destruct (getDailyCost today agentId t) as [d1 u1].
    destruct (getDailyCost today agentId t') as [d2 u2]. simpl in *.
    destruct (gt (d1 + call) dl) eqn:E1; [|discriminate].
    rewrite (Hdaily dl E1). reflexivity.
Qed.

End Check.

Lemma checkBudget_counts_nothing_witness :
  let off := {| budget_enabled := None; sessionLimit := Some 0%Q; dailyLimit := Some 0%Q;
                perToolCosts := None; defaultToolCost := None; onExceeded := None |} in
  let t := recordCost 100 "exec" 5%Q None (createBudgetTracker None Missing true) in
  checkBudget Host.host 100 "exec" (Some off) None t
  = ({| exceeded := false; budget_action := None; budget_reason := None |}, t).
Proof.
  intros off t.
  exact (proj2 (checkBudget_counts_nothing Host.host 100 "exec" (Some off) None t) eq_refl).
Defined.

Lemma budget_check_per_agent_witness :
  let tight := {| budget_enabled := Some true; sessionLimit := Some 1%Q;
                  dailyLimit := Some 1%Q; perToolCosts := None;
                  defaultToolCost := None; onExceeded := None |} in
  let t := createBudgetTracker None Missing true in
  fst (checkBudget Host.host 100 "exec" (Some tight) (Some "agent-a")
         (recordCost 100 "exec" 50%Q (Some "agent-b") t))
  = fst (checkBudget Host.host 100 "exec" (Some tight) (Some "agent-a") t)
  /\ exceeded (fst (checkBudget Host.host 100 "exec" (Some tight) (Some "agent-a") t)) = false.
Proof.
  intros tight t. split; [|reflexivity].
  apply (budget_check_per_agent Host.host); discriminate.
Defined.

Lemma over_budget_stays_over_witness :
  let tight := {| budget_enabled := Some true; sessionLimit := Some 1%Q;
                  dailyLimit := None; perToolCosts := None;
                  defaultToolCost := None; onExceeded := Some exceeded_escalate |} in
  let t := recordCost 100 "exec" 1%Q None (createBudgetTracker None Missing true) in
  (0 <= 2)%Q
  /\ exceeded (fst (checkBudget Host.host 100 "exec" (Some tight) None t)) = true
  /\ exceeded (fst (checkBudget Host.host 100 "exec" (Some tight) None
                      (recordCost 100 "read" 2%Q (Some "agent-a") t))) = true.
Proof.
  intros tight t.
  assert (H0 : (0 <= 2)%Q) by lra.
  assert (H1 : exceeded (fst (checkBudget Host.host 100 "exec" (Some tight) None t)) = true)
    by reflexivity.
  split; [exact H0|]. split; [exact H1|].
  exact (over_budget_stays_over Host.host 100 "exec" (Some tight) None t "read" 2%Q
           (Some "agent-a") H0 H1).
Defined.

End BudgetExtra.

(** ** Tier 2: further properties *)

Module LLMExtra.

Import Js LLM.



Lemma length_app_str (s t : string) :
  String.length (s ++ t) = (String.length s + String.length t)%nat.
Proof.
  induction s as [|c s IH]; [reflexivity|].
  change (String c s ++ t) with (String c (s ++ t)). simpl. rewrite IH. reflexivity.
Qed.

Lemma length_prefix n : forall s, (String.length (substring 0 n s) <= n)%nat.
Proof.
  induction n as [|n IH]; intros [|c s]; simpl; try lia.
  specialize (IH s). lia.
Qed.

Lemma length_paramsStr (toolParams : list (string * value)) :
  (String.length
     (match stringify_at "  " EmptyString (VObj toolParams) with
      | Ok (Some s) =>
          if (2000 <? String.length s)%nat
          then substring 0 2000 s ++ nl ++ "... (truncated)"
          else s
      | _ => "(unable to serialize params)"
      end) <= 2016)%nat.
Proof.
  destruct (stringify_at _ _ _) as [[s|]|e]; try (simpl; lia).
  destruct (2000 <? String.length s)%nat eqn:E.
  - rewrite !length_app_str. pose proof (length_prefix 2000 s). simpl. lia.
  - apply Nat.ltb_ge in E. lia.
Qed.

Lemma length_message toolName toolParams risk trust agentId :
  (String.length (buildUserMessage toolName toolParams risk trust agentId)
   <= 2177 + String.length (risk_text risk) + String.length toolName
      + String.length (orElse agentId EmptyString))%nat.
Proof.
  unfold buildUserMessage.
  pose proof (length_paramsStr toolParams) as Hp.
  set (paramsStr := match stringify_at "  " EmptyString (VObj toolParams) with
                    | Ok (Some s) =>
                        if (2000 <? String.length s)%nat
                        then substring 0 2000 s ++ nl ++ "... (truncated)"
                        else s
                    | _ => "(unable to serialize params)"
                    end) in *.
  assert (Ht : (String.length (trust_name trust) <= 8)%nat) by (destruct trust; simpl; lia).
  destruct (truthy agentId); cbn [List.app join]; rewrite !length_app_str;
    cbn [String.length nl str1]; lia.
Qed.

(** X30: the message for the adjudicator is bounded.  Whatever the size
    of the parameters, and also when they cannot be serialised, the user
    message for a risk that is one of the four levels is at most 2185
    characters longer than the tool name and the agent id together: the
    parameters contribute at most 2000 characters and the truncation mark.
    For any risk value the message is at most 2177 characters longer than
    the tool name, the agent id and the text of the risk together. *)
Theorem user_message_bounded :
  forall toolName toolParams risk trust agentId,
    (String.length (buildUserMessage toolName toolParams (Level risk) trust agentId)
     <= 2185 + String.length toolName + String.length (orElse agentId EmptyString))%nat
    /\ (forall value,
        (String.length (buildUserMessage toolName toolParams value trust agentId)
         <= 2177 + String.length (risk_text value) + String.length toolName
            + String.length (orElse agentId EmptyString))%nat).
Proof.
  intros toolName toolParams risk trust agentId. split.
  - pose proof (length_message toolName toolParams (Level risk) trust agentId) as H.
    assert (Hr : (String.length (risk_text (Level risk)) <= 8)%nat)
      by (destruct risk; simpl; lia).
    lia.
  - intros value. apply length_message.
Qed.

End LLMExtra.

(** ** The orchestrator: further properties *)

Module HookExtra.

Import Js Rules Budget BudgetParts LLM Hook HookParts HookProps.

Section Facts.

Variable P : Platform.

(** X17: the adjudicator is only ever called with a budget of 256 tokens
    and a timeout of at most 5000 ms, whatever timeout is configured: two
    adjudicators that agree on such calls give the same run of the
    handler. *)
Theorem adjudicator_call_bounds :
  forall p (call call' : GuardianLLMCaller) human today event ctx st,
    (forall system user timeout,
       timeout <= 5000 -> call system user 256 timeout = call' system user 256 timeout) ->
    handler P (with_channels p (Some call) human) today event ctx st
    = handler P (with_channels p (Some call') human) today event ctx st.
Proof.
  intros p call call' human today event ctx st Hagree.
  assert (Ht : forall toolName toolParams agent key st0,
            tiers P (with_channels p (Some call) human) today toolName toolParams agent
              key ctx st0
            = tiers P (with_channels p (Some call') human) today toolName toolParams agent
                key ctx st0).
  { intros toolName toolParams agent key st0. rewrite !tiers_parts.
    change (tier1 P (with_channels p (Some call') human))
      with (tier1 P (with_channels p (Some call) human)).
    destruct (tier1 _ _ _ _ _ _) as [ruleResult|e]; [|reflexivity].
    destruct (decision ruleResult); try reflexivity. simpl.
    assert (E : tier2 P (with_channels p (Some call) human) toolName toolParams agent
                  ruleResult call
                = tier2 P (with_channels p (Some call') human) toolName toolParams agent
                    ruleResult call').
    { unfold tier2, evaluateWithLLM. simpl. rewrite Hagree; [reflexivity|].
      unfold llmTimeout. simpl. destruct (timeoutMs (config p)) as [t|]; [|lia].
      destruct (t =? 0); lia. }
    rewrite E. reflexivity. }
  unfold handler. simpl.
  destruct (negb _); [reflexivity|].
  destruct (bool_decide _ || bool_decide _); [reflexivity|].
  destruct (budgetTracker st) as [t|]; [|apply Ht].
  destruct (checkBudget _ _ _ _ _ _) as [budgetResult t1].
  destruct (exceeded budgetResult); [reflexivity | apply Ht].
Qed.

(** The recording throws on a budget file without a [daily] array. *)
Lemma recordCostIfEnabled_run_throws p today toolName agent st t err :
  budgetTracker st = Some t -> truthy (budgetPath t) = true ->
  file t = NoDailyArray err ->
  fst (recordCostIfEnabled_run p today toolName agent st) = Throw err.
Proof.
  intros Ht Hp Hf. unfold recordCostIfEnabled_run, recordToolCost_run. rewrite Ht.
  pose proof (BudgetProps.recordCost_run_outcome today toolName
                (resolveToolCost toolName (effectiveBudget (config p) agent)) agent t)
    as Hr.
  rewrite Hp, Hf in Hr.
  destruct (recordCost_run _ _ _ _ _). simpl in Hr. subst. reflexivity.
Qed.

(** Tier 3 with an approval channel that answers. *)
Lemma tier3_decided p approve toolName toolParams agent key ruleResult st d :
  requestHumanApproval p = Some approve ->
  approve (tier3Request p toolName toolParams agent ruleResult) = Ok d ->
  tier3 p toolName toolParams agent key ruleResult st
  = (Ok (fst (resolveDecision d key st)), snd (resolveDecision d key st)).
Proof.
  intros Hp Ha. unfold tier3, askHuman. rewrite Hp, Ha.
  destruct (resolveDecision d key st). reflexivity.
Qed.

Lemma cached_after_add permanent key st : cached key (cache_add permanent key st) = true.
Proof.
  unfold cached. destruct permanent; simpl.
  - rewrite (bool_decide_eq_true_2 (key ∈ {[key]} ∪ alwaysAllowCache st));
      [reflexivity | apply elem_of_union_l, elem_of_singleton; reflexivity].
  - rewrite (bool_decide_eq_true_2 (key ∈ {[key]} ∪ taskAllowCache st));
      [apply orb_true_r | apply elem_of_union_l, elem_of_singleton; reflexivity].
Qed.

(** On a cache hit an enabled hook goes straight to the recording. *)
Lemma handler_hit p today event ctx st :
  orElse (enabled (config p)) false = true ->
  cached (keyOf P event) st = true ->
  handler P p today event ctx st
  = proceed p today (normalizeToolName P (ev_toolName event))
      (orElseOpt (ctx_agentId ctx) (agentId p)) st.
Proof.
  intros Hen Hc. unfold handler. rewrite Hen. simpl.
  unfold cached, keyOf in Hc. rewrite Hc. reflexivity.
Qed.


Lemma askHuman_cache_step p approve req key st r st' :
  requestHumanApproval p = Some approve ->
  askHuman approve req key st = (r, st') -> cache_step p key st st'.
Proof.
  intros Hp. unfold askHuman.
  destruct (approve req) as [[[| | |]|]|e]; simpl; intros H; inversion H; subst;
    try (left; split; reflexivity);
    right; (split; [rewrite Hp; discriminate|]); simpl; auto.
Qed.

Lemma record_cache_step p today toolName agent key st :
  cache_step p key st (recordCostIfEnabled p today toolName agent st).
Proof.
  left. unfold recordCostIfEnabled. destruct (budgetTracker st); split; reflexivity.
Qed.

Lemma proceed_cache_step p today toolName agent key st r st' :
  proceed p today toolName agent st = (r, st') -> cache_step p key st st'.
Proof.
  rewrite proceed_cases. intros H. inversion H. apply record_cache_step.
Qed.

Lemma tier3_cache_step p toolName toolParams agent key ruleResult st r st' :
  tier3 p toolName toolParams agent key ruleResult st = (r, st') ->
  cache_step p key st st'.
Proof.
  unfold tier3. destruct (requestHumanApproval p) as [approve|] eqn:Hp.
  - apply (askHuman_cache_step p approve _ _ _ _ _ Hp).
  - intros H. inversion H. left. split; reflexivity.
Qed.

Lemma tiers_cache_step p today toolName toolParams agent key ctx st r st' :
  tiers P p today toolName toolParams agent key ctx st = (r, st') ->
  cache_step p key st st'.
Proof.
  rewrite tiers_parts.
  destruct (tier1 _ _ _ _ _ _) as [ruleResult|e];
    [|intros H; inversion H; left; split; reflexivity].
  destruct (decision ruleResult).
  - apply proceed_cache_step.
  - intros H. inversion H. left. split; reflexivity.
  - destruct (callLLM p) as [call|]; [|apply tier3_cache_step].
    destruct (tier2 _ _ _ _ _ _ _) as [llmResult|e];
      [|intros H; inversion H; left; split; reflexivity].
    destruct (llm_decision llmResult).
    + apply proceed_cache_step.
    + intros H. inversion H. left. split; reflexivity.
    + apply tier3_cache_step.
Qed.

Lemma cache_step_tracker p key st st' t :
  cache_step p key (set_tracker st t) st' -> cache_step p key st st'.
Proof. intros H. exact H. Qed.

(** X19: the caches only grow, and only by a decision of the operator.  A
    run of the handler leaves both caches as they were or adds the key of
    the call to one of them; every key that was cached stays cached; and a
    hook without an approval channel never changes its caches. *)
Theorem caches_only_grow :
  forall p today event ctx st r st',
    handler P p today event ctx st = (r, st') ->
    taskAllowCache st ⊆ taskAllowCache st'
    /\ alwaysAllowCache st ⊆ alwaysAllowCache st'
    /\ taskAllowCache st' ⊆ {[keyOf P event]} ∪ taskAllowCache st
    /\ alwaysAllowCache st' ⊆ {[keyOf P event]} ∪ alwaysAllowCache st
    /\ (requestHumanApproval p = None ->
        taskAllowCache st' = taskAllowCache st
        /\ alwaysAllowCache st' = alwaysAllowCache st).
Proof.
  intros p today event ctx st r st' H.
  assert (Hstep : cache_step p (keyOf P event) st st').
  { unfold handler in H.
    destruct (negb _); [inversion H; left; split; reflexivity|].
    destruct (bool_decide _ || bool_decide _);
      [exact (proceed_cache_step _ _ _ _ _ _ _ _ H)|].
    destruct (budgetTracker st) as [t|]; [|apply tiers_cache_step in H; exact H].
    destruct (checkBudget _ _ _ _ _ _) as [budgetResult t1].
    destruct (exceeded budgetResult);
      [|apply tiers_cache_step in H; exact H].
    destruct (budget_action budgetResult) as [[|]|];
      try (inversion H; left; split; reflexivity);
      (destruct (requestHumanApproval p) as [approve|] eqn:Hp;
       [apply (askHuman_cache_step p approve _ _ _ _ _ Hp) in H; exact H
       | inversion H; left; split; reflexivity]). }
  destruct Hstep as [[Ht Ha]|[Hp [[Ht Ha]|[Ht Ha]]]]; rewrite Ht, Ha;
    repeat split;
    first [ reflexivity | apply union_subseteq_r | contradiction ].
Qed.

(** X20: caching a key leaves the evaluation of every call with a
    different key as it was: the run returns the same result, and the same
    state but for the cached key. *)
Theorem other_keys_unaffected :
  forall permanent key p today event ctx st,
    key <> keyOf P event ->
    handler P p today event ctx (cache_add permanent key st)
    = and_cached permanent key (handler P p today event ctx st).
Proof.
  intros permanent key p today event ctx st Hne.
  apply handler_cache_frame. exact Hne.
Qed.


(** X22: the tiers are consulted in order and only as far as needed.
    When Tier 1 answers allow or deny, neither the adjudicator nor the
    approval channel has any influence on the run; when the adjudicator
    answers allow or deny, the approval channel has none. *)
Theorem tiers_stop_at_first_verdict :
  forall p llm human llm' human' today toolName toolParams agent key ctx st,
    (forall ruleResult,
       tier1 P p toolName toolParams agent ctx = Ok ruleResult ->
       decision ruleResult <> escalate ->
       tiers P (with_channels p llm human) today toolName toolParams agent key ctx st
       = tiers P (with_channels p llm' human') today toolName toolParams agent key ctx st)
    /\ (forall ruleResult call llmResult,
          tier1 P p toolName toolParams agent ctx = Ok ruleResult ->
          tier2 P p toolName toolParams agent ruleResult call = Ok llmResult ->
          llm_decision llmResult <> escalate ->
          tiers P (with_channels p (Some call) human) today toolName toolParams agent
            key ctx st
          = tiers P (with_channels p (Some call) human') today toolName toolParams agent
              key ctx st).
Proof.
  intros p llm human llm' human' today toolName toolParams agent key ctx st.
  split.
  - intros ruleResult H1 Hd. rewrite !tiers_parts.
    change (tier1 P (with_channels p llm human)) with (tier1 P p).
    change (tier1 P (with_channels p llm' human')) with (tier1 P p).
    rewrite H1. cbn zeta. destruct (decision ruleResult); try reflexivity. contradiction.
  - intros ruleResult call llmResult H1 H2 Hd. rewrite !tiers_parts.
    change (tier1 P (with_channels p (Some call) human)) with (tier1 P p).
    change (tier1 P (with_channels p (Some call) human')) with (tier1 P p).
    rewrite H1. cbn zeta. destruct (decision ruleResult); try reflexivity.
    cbn [callLLM with_channels].
    change (tier2 P (with_channels p (Some call) human)) with (tier2 P p).
    change (tier2 P (with_channels p (Some call) human')) with (tier2 P p).
    rewrite H2. destruct (llm_decision llmResult); try reflexivity. contradiction.
Qed.

(** X23: an escalation is never silently allowed.  With no approval
    channel configured, an enabled hook lets a call proceed only when the
    call is cached, when Tier 1 answers allow, or when Tier 1 answers
    escalate and the adjudicator answers allow. *)
Theorem no_channel_no_silent_allow :
  forall p today event ctx st st',
    requestHumanApproval p = None ->
    orElse (enabled (config p)) false = true ->
    handler P p today event ctx st = (Ok None, st') ->
    let toolName := normalizeToolName P (ev_toolName event) in
    let agent := orElseOpt (ctx_agentId ctx) (agentId p) in
    cached (keyOf P event) st = true
    \/ exists ruleResult,
         tier1 P p toolName (ev_params event) agent ctx = Ok ruleResult
         /\ (decision ruleResult = allow
             \/ (decision ruleResult = escalate
                 /\ exists call llmResult,
                      callLLM p = Some call
                      /\ tier2 P p toolName (ev_params event) agent ruleResult call
                         = Ok llmResult
                      /\ llm_decision llmResult = allow)).
Proof.
  intros p today event ctx st st' Hnone Hen H toolName agent.
  assert (Ht : forall st0 st1,
            tiers P p today toolName (ev_params event) agent (keyOf P event) ctx st0
            = (Ok None, st1) ->
            exists ruleResult,
              tier1 P p toolName (ev_params event) agent ctx = Ok ruleResult
              /\ (decision ruleResult = allow
                  \/ (decision ruleResult = escalate
                      /\ exists call llmResult,
                           callLLM p = Some call
                           /\ tier2 P p toolName (ev_params event) agent ruleResult call
                              = Ok llmResult
                           /\ llm_decision llmResult = allow))).
  { intros st0 st1. rewrite tiers_parts. unfold tier3. rewrite Hnone.
    destruct (tier1 _ _ _ _ _ _) as [ruleResult|e]; [|discriminate].
    cbn zeta. intros H0. exists ruleResult. split; [reflexivity|].
    destruct (decision ruleResult); [left; reflexivity | discriminate|].
    right. split; [reflexivity|].
    destruct (callLLM p) as [call|]; [|discriminate].
    destruct (tier2 _ _ _ _ _ _ _) as [llmResult|e] eqn:E2; [|discriminate].
    exists call, llmResult. split; [reflexivity|]. split; [exact E2|].
    destruct (llm_decision llmResult); [reflexivity | discriminate | discriminate]. }
  unfold handler in H. rewrite Hen in H. simpl in H.
  fold toolName agent in H.
  change (cacheKey P toolName (ev_params event)) with (keyOf P event) in H.
  unfold cached.
  destruct (bool_decide _ || bool_decide _); [left; reflexivity|]. right.
  destruct (budgetTracker st) as [t|]; [|apply (Ht _ _ H)].
  destruct (checkBudget _ _ _ _ _ _) as [budgetResult t1].
  destruct (exceeded budgetResult); [|apply (Ht _ _ H)].
  rewrite Hnone in H. destruct (budget_action budgetResult) as [[|]|]; discriminate.
Qed.

(** X24: the budget gate comes before every tier.  A call that is not
    cached and for which the budget check reports an excess is blocked with
    the reason of the check, when the budget says deny or there is no
    approval channel, whatever the rules, the trust level and the adjudicator
    are; what is counted stays as it was.  In particular, where the tool name
    is a plain key of the per-tool costs and the addition is exact in
    doubles, a call whose cost would take the session over its limit is
    blocked with the session-budget reason and an unchanged state. *)
Theorem budget_gate_precedes_tiers :
  forall p today event ctx st t,
    let toolName := normalizeToolName P (ev_toolName event) in
    let agent := orElseOpt (ctx_agentId ctx) (agentId p) in
    let check := checkBudget P today toolName (effectiveBudget (config p) agent)
                   agent t in
    orElse (enabled (config p)) false = true ->
    cached (keyOf P event) st = false ->
    budgetTracker st = Some t ->
    (exceeded (fst check) = true ->
     budget_action (fst check) = Some exceeded_deny \/ requestHumanApproval p = None ->
     handler P p today event ctx st
     = (Ok (blocked (VStr (orElse (budget_reason (fst check)) "Budget exceeded"))),
        set_tracker st (snd check))
     /\ same_books today st (set_tracker st (snd check)))
    /\ (forall c limit,
        let total := (getSessionCost agent t + resolveToolCost toolName (Some c))%Q in
        effectiveBudget (config p) agent = Some c ->
        orElse (budget_enabled c) false = true ->
        sessionLimit c = Some limit ->
        plainKey toolName ->
        exact_sum (getSessionCost agent t) (resolveToolCost toolName (Some c)) ->
        (limit < total)%Q ->
        orElse (onExceeded c) exceeded_deny = exceeded_deny ->
        handler P p today event ctx st
        = (Ok (blocked (VStr ("Session budget exceeded: $" ++ toFixed4 P total ++ " > $"
                                ++ Number_toString P limit ++ " limit"))),
           st)).
Proof.
  intros p today event ctx st t toolName agent check Hen Hc Ht.
  assert (Hh : handler P p today event ctx st
               = if exceeded (fst check)
                 then match budget_action (fst check) with
                      | Some exceeded_deny =>
                          (Ok (blocked (VStr (orElse (budget_reason (fst check))
                                                "Budget exceeded"))),
                           set_tracker st (snd check))
                      | _ =>
                          match requestHumanApproval p with
                          | Some approve =>
                              askHuman approve
                                (budgetRequest p toolName (ev_params event) agent ctx
                                   (fst check))
                                (keyOf P event) (set_tracker st (snd check))
                          | None =>
                              (Ok (blocked (VStr (orElse (budget_reason (fst check))
                                                    "Budget exceeded"))),
                               set_tracker st (snd check))
                          end
                      end
                 else tiers P p today toolName (ev_params event) agent (keyOf P event) ctx
                        (set_tracker st (snd check))).
  { unfold handler. rewrite Hen. cbn [negb].
    unfold cached, keyOf in Hc. cbv zeta. rewrite Hc, Ht.
    fold toolName agent. fold check. destruct check as [budgetResult t1]. reflexivity. }
  split.
  - intros Hex Hact. split.
    + rewrite Hh, Hex. destruct Hact as [-> | Hnone]; [reflexivity|].
      rewrite Hnone. destruct (budget_action (fst check)) as [[|]|]; reflexivity.
    + apply (same_books_checked today st t (snd check) Ht).
      apply BudgetProps.ledger_checkBudget.
  - intros c limit total Hb Hbe Hl _ _ Hover Hact.
    assert (Hgt : gt total limit = true).
    { unfold gt. destruct (Qle_bool total limit) eqn:E; [|reflexivity].
      apply Qle_bool_iff in E. lra. }
    assert (Hcheck : check
                     = ({| exceeded := true; budget_action := Some exceeded_deny;
                           budget_reason :=
                             Some ("Session budget exceeded: $" ++ toFixed4 P total
                                     ++ " > $" ++ Number_toString P limit ++ " limit") |},
                        t)).
    { unfold check, checkBudget. rewrite Hb, Hbe. cbn [negb]. cbv zeta. rewrite Hl.
      fold total. rewrite Hgt, Hact. reflexivity. }
    rewrite Hh, Hcheck. cbn [fst snd exceeded budget_action budget_reason orElse].
    destruct st as [tc ac bt]. simpl in Ht. subst bt. reflexivity.
Qed.

End Facts.


Lemma caches_only_grow_witness :
  let always : GuardianHumanApprovalFn := fun _ => Ok (Some allow_always) in
  let ls := Host.call "exec" [("command", VStr "ls")] in
  let st' := snd (handler Host.host (Host.hookWith always) 100 ls Host.anyCtx
                    Host.freshHook) in
  st' = cache_always (keyOf Host.host ls) Host.freshHook
  /\ taskAllowCache Host.freshHook ⊆ taskAllowCache st'
  /\ alwaysAllowCache st' ⊆ {[keyOf Host.host ls]} ∪ alwaysAllowCache Host.freshHook.
Proof.
  intros always ls st'.
  split; [vm_compute; reflexivity|].
  destruct (caches_only_grow Host.host (Host.hookWith always) 100 ls Host.anyCtx
              Host.freshHook _ _ (surjective_pairing _)) as (H1 & _ & _ & H2 & _).
  split; [exact H1 | exact H2].
Defined.

Lemma other_keys_unaffected_witness :
  let denies : GuardianHumanApprovalFn := fun _ => Ok (Some deny_decision) in
  let ls := Host.call "exec" [("command", VStr "ls")] in
  "read:" <> keyOf Host.host ls
  /\ handler Host.host (Host.hookWith denies) 100 ls Host.anyCtx
       (cache_add true "read:" Host.freshHook)
     = and_cached true "read:"
         (handler Host.host (Host.hookWith denies) 100 ls Host.anyCtx Host.freshHook).
Proof.
  intros denies ls.
  assert (Hne : "read:" <> keyOf Host.host ls).
  { intros H. vm_compute in H. discriminate H. }
  split; [exact Hne|].
  apply (other_keys_unaffected Host.host). exact Hne.
Defined.


Lemma tiers_stop_at_first_verdict_witness :
  let denies : GuardianHumanApprovalFn := fun _ => Ok (Some deny_decision) in
  let approves : GuardianHumanApprovalFn := fun _ => Ok (Some allow_always) in
  let refuses : GuardianLLMCaller := fun _ _ _ _ => Responded Host.denyText in
  let p := Host.hookWith denies in
  tiers Host.host (with_channels p None (Some denies)) 100 "read" [] None "read:"
    Host.anyCtx Host.freshHook
  = tiers Host.host (with_channels p (Some refuses) None) 100 "read" [] None "read:"
      Host.anyCtx Host.freshHook
  /\ tiers Host.host (with_channels p (Some refuses) (Some denies)) 100 "exec"
       [("command", VStr "ls")] None "k" Host.anyCtx Host.freshHook
     = tiers Host.host (with_channels p (Some refuses) (Some approves)) 100 "exec"
         [("command", VStr "ls")] None "k" Host.anyCtx Host.freshHook.
Proof.
  intros denies approves refuses p.
  split.
  - eapply (proj1 (tiers_stop_at_first_verdict Host.host p None (Some denies)
                     (Some refuses) None 100 "read" [] None "read:" Host.anyCtx
                     Host.freshHook)).
    + vm_compute. reflexivity.
    + simpl. discriminate.
  - eapply (proj2 (tiers_stop_at_first_verdict Host.host p None (Some denies)
                     None (Some approves) 100 "exec" [("command", VStr "ls")] None "k"
                     Host.anyCtx Host.freshHook)).
    + vm_compute. reflexivity.
    + vm_compute. reflexivity.
    + simpl. discriminate.
Defined.

Lemma no_channel_no_silent_allow_witness :
  let p := with_channels (Host.hookWith Host.approvesA) None None in
  let e := Host.call "read" [] in
  let st' := snd (handler Host.host p 100 e Host.anyCtx Host.freshHook) in
  handler Host.host p 100 e Host.anyCtx Host.freshHook = (Ok None, st')
  /\ exists ruleResult,
       tier1 Host.host p "read" [] None Host.anyCtx = Ok ruleResult
       /\ decision ruleResult = allow.
Proof.
  intros p e st'.
  assert (H : handler Host.host p 100 e Host.anyCtx Host.freshHook = (Ok None, st'))
    by (vm_compute; reflexivity).
  split; [exact H|].
  destruct (no_channel_no_silent_allow Host.host p 100 e Host.anyCtx Host.freshHook st'
              eq_refl eq_refl H) as [Hc | (ruleResult & H1 & [Ha | (He & _)])].
  - vm_compute in Hc. discriminate Hc.
  - exists ruleResult. split; [exact H1 | exact Ha].
  - exfalso. vm_compute in H1. inversion H1; subst. discriminate He.
Defined.

Lemma budget_gate_precedes_tiers_witness :
  let approves : GuardianHumanApprovalFn := fun _ => Ok (Some allow_always) in
  let spent := recordCost 100 "exec" 10 None (createBudgetTracker None Missing true) in
  let check := checkBudget Host.host 100 "exec" (effectiveBudget Host.metered None)
                 None spent in
  exceeded (fst check) = true
  /\ budget_action (fst check) = Some exceeded_deny
  /\ fst (handler Host.host (Host.hookWith approves) 100
            (Host.call "exec" [("command", VStr "ls")]) Host.anyCtx
            (createGuardianHook (Some spent)))
     = Ok (blocked (VStr "Session budget exceeded: $10.0100 > $1 limit")).
Proof.
  intros approves spent check.
  assert (Hex : exceeded (fst check) = true) by reflexivity.
  assert (Hact : budget_action (fst check) = Some exceeded_deny) by reflexivity.
  split; [exact Hex|]. split; [exact Hact|].
  rewrite (proj1 (proj1 (budget_gate_precedes_tiers Host.host (Host.hookWith approves) 100
                           (Host.call "exec" [("command", VStr "ls")]) Host.anyCtx
                           (createGuardianHook (Some spent)) spent
                           eq_refl eq_refl eq_refl)
                    Hex (or_introl Hact))).
  vm_compute. reflexivity.
Defined.

Lemma adjudicator_call_bounds_witness :
  let slow : GuardianLLMCaller :=
    fun _ _ _ timeout => if timeout <=? 5000 then TimedOut else Responded Host.allowText in
  let never : GuardianLLMCaller := fun _ _ _ _ => TimedOut in
  let patient := {| enabled := Some true; approvalThreshold := None;
                    timeoutMs := Some 600000; rules := None; constitution := None;
                    constitutionPath := None; budget := None; agents := None |} in
  let p := {| config := patient; agentId := None; sessionKey := None;
              senderIsOwner := None; isSubagent := None; isAllowed := None;
              callLLM := None; requestHumanApproval := None |} in
  handler Host.host (with_channels p (Some slow) None) 100
    (Host.call "exec" [("command", VStr "ls")]) Host.anyCtx (createGuardianHook None)
  = handler Host.host (with_channels p (Some never) None) 100
      (Host.call "exec" [("command", VStr "ls")]) Host.anyCtx (createGuardianHook None).
Proof.
  intros slow never patient p.
  apply adjudicator_call_bounds.
  intros system user timeout Hle. unfold slow, never.
  destruct (Z.leb_spec timeout 5000); [reflexivity | lia].
Defined.

End HookExtra.

(** ** Pending approvals: further properties *)

Module ApprovalsExtra.

Import Js Approvals Gateway ApprovalsProps.

Lemma linked_empty : linked empty.
Proof.
  repeat split; intros; simpl in *; rewrite lookup_empty in *; discriminate.
Qed.

Lemma linked_create request timeoutMs explicit now uuid m :
  wf m -> linked m -> linked (snd (create request timeoutMs explicit now uuid m)).
Proof.
  intros [_ Hr] (H1 & H2 & H3 & H4). rewrite create_spec. simpl.
  split; [exact H1|]. split; [|split].
  - intros t loc p Ht. destruct (H2 t loc p Ht) as (rec & Hrec & Hp).
    exists rec. split; [|exact Hp]. simpl.
    rewrite lookup_insert_ne; [exact Hrec|]. pose proof (Hr _ _ Hrec). lia.
  - intros t x Ht. simpl in *. pose proof (H3 t x Ht). lia.
  - intros p v Hp. simpl in *. pose proof (H4 p v Hp). lia.
Qed.

Lemma linked_waitForDecision loc timeoutMs m p m' rec :
  wf m -> linked m ->
  records m !! loc = Some rec -> pending m !! id rec = None ->
  waitForDecision loc timeoutMs m = Some (p, m') -> linked m'.
Proof.
  intros [Hp Hr] (H1 & H2 & H3 & H4) Hrec Hfree H. unfold waitForDecision in H.
  rewrite Hrec in H. inversion H; subst; clear H.
  split; [|split; [|split]]; simpl.
  - intros i e. rewrite lookup_insert. case_decide.
    + intros He. inversion He; subst; clear He. simpl.
      split; [reflexivity|]. split; [apply lookup_insert_eq|].
      destruct (promises m !! fresh m) as [v|] eqn:E; [|reflexivity].
      pose proof (H4 _ _ E). lia.
    + intros He. destruct (H1 i e He) as (Ht & Ha & Hu).
      split; [exact Ht|]. split; [|exact Hu].
      rewrite lookup_insert_ne; [exact Ha|]. pose proof (H3 _ _ Ha). lia.
  - intros t loc0 p0. rewrite lookup_insert. case_decide.
    + intros E. inversion E; subst; clear E. exists rec.
      split; [exact Hrec | apply lookup_insert_eq].
    + intros Ht. destruct (H2 t loc0 p0 Ht) as (rec0 & Hrec0 & Hp0).
      exists rec0. split; [exact Hrec0|].
      rewrite lookup_insert_ne; [exact Hp0|]. intros E. rewrite E in Hfree. congruence.
  - intros t x. rewrite lookup_insert. case_decide; [intros _; lia|].
    intros Ht. pose proof (H3 _ _ Ht). lia.
  - intros p v Hv. pose proof (H4 _ _ Hv). lia.
Qed.

Lemma settle_fresh p v ps : ps !! p = None -> settle p v ps = <[p := v]> ps.
Proof. intros H. unfold settle. rewrite H. reflexivity. Qed.

(** Two pending entries with the same timer are one entry. *)
Lemma timer_owner m i j e e' :
  wf m -> linked m ->
  pending m !! i = Some e -> pending m !! j = Some e' -> timer e = timer e' -> i = j.
Proof.
  intros [Hp _] (H1 & _) He He' Ht.
  destruct (H1 i e He) as (_ & Ha & _). destruct (H1 j e' He') as (_ & Ha' & _).
  rewrite Ht, Ha' in Ha. inversion Ha as [[Hrec Hpr]].
  destruct (Hp i e He) as (r & Hr & Hi). destruct (Hp j e' He') as (r' & Hr' & Hj).
  rewrite Hrec, Hr in Hr'. inversion Hr'; subst. reflexivity.
Qed.

Lemma fire_pending m i e :
  wf m -> linked m -> pending m !! i = Some e ->
  fire (timer e) m
  = {| pending := delete i (pending m); records := records m;
       timers := delete (timer e) (timers m);
       promises := <[promise e := None]> (promises m); fresh := fresh m |}.
Proof.
  intros [Hp Hr] (H1 & _) He.
  destruct (H1 i e He) as (_ & Ha & Hu). destruct (Hp i e He) as (rec & Hrec & Hi).
  unfold fire. rewrite Ha, Hrec, Hi, (settle_fresh _ _ _ Hu). reflexivity.
Qed.

Lemma fire_unarmed t m : timers m !! t = None -> fire t m = m.
Proof. intros H. unfold fire. rewrite H. reflexivity. Qed.

Lemma resolve_pending m i e d by_ now :
  linked m -> pending m !! i = Some e ->
  resolve i d by_ now m
  = (true,
     {| pending := delete i (pending m);
        records := alter (fun rec => stamp rec now d by_) (record e) (records m);
        timers := delete (timer e) (timers m);
        promises := <[promise e := Some d]> (promises m); fresh := fresh m |}).
Proof.
  intros (H1 & _) He. destruct (H1 i e He) as (_ & _ & Hu).
  unfold resolve. rewrite He, (settle_fresh _ _ _ Hu). reflexivity.
Qed.

(** Removing the entry [i] with its timer and settling its promise keeps
    the other entries linked; the records may be stamped. *)
Lemma linked_remove m i e v recs :
  wf m -> linked m -> pending m !! i = Some e ->
  (forall l rec, records m !! l = Some rec ->
     exists rec', recs !! l = Some rec' /\ id rec' = id rec) ->
  linked {| pending := delete i (pending m); records := recs;
            timers := delete (timer e) (timers m);
            promises := <[promise e := v]> (promises m); fresh := fresh m |}.
Proof.
  intros Hwf Hl He Hrecs. pose proof Hl as (H1 & H2 & H3 & H4).
  destruct (H1 i e He) as (Hte & Hae & Hue).
  split; [|split; [|split]]; simpl.
  - intros j e'. rewrite lookup_delete. case_decide; [discriminate|]. intros He'.
    destruct (H1 j e' He') as (Ht & Ha & Hu).
    assert (Hne : timer e <> timer e').
    { intros E. apply H. exact (timer_owner m i j e e' Hwf Hl He He' E). }
    split; [exact Ht|]. split.
    + rewrite lookup_delete_ne; [exact Ha | exact Hne].
    + rewrite lookup_insert_ne; [exact Hu|]. intros E. apply Hne. rewrite Hte, Ht, E.
      reflexivity.
  - intros t loc p. rewrite lookup_delete. case_decide; [discriminate|]. intros Ht.
    destruct (H2 t loc p Ht) as (rec & Hrec & Hp).
    destruct (Hrecs loc rec Hrec) as (rec' & Hrec' & Hid).
    exists rec'. split; [exact Hrec'|]. rewrite Hid.
    rewrite lookup_delete_ne; [exact Hp|]. intros E. rewrite <- E, He in Hp.
    inversion Hp as [Heq]. apply H. rewrite Heq. reflexivity.
  - intros t x. rewrite lookup_delete. case_decide; [discriminate | apply H3].
  - intros p x. rewrite lookup_insert. case_decide; [|apply H4].
    intros _. subst p. pose proof (H3 _ _ Hae). lia.
Qed.

Lemma linked_fire t m : wf m -> linked m -> linked (fire t m).
Proof.
  intros Hwf Hl. destruct (timers m !! t) as [[loc p]|] eqn:Ht;
    [|rewrite (fire_unarmed _ _ Ht); exact Hl].
  pose proof Hl as (_ & H2 & _).
  destruct (H2 t loc p Ht) as (rec & Hrec & Hp).
  pose proof (fire_pending m _ _ Hwf Hl Hp) as E. simpl in E. rewrite E.
  apply (linked_remove m (id rec) {| record := loc; promise := p; timer := t |} None
           (records m) Hwf Hl Hp).
  intros l r Hr. exists r. auto.
Qed.

Lemma linked_resolve i d by_ now m :
  wf m -> linked m -> linked (snd (resolve i d by_ now m)).
Proof.
  intros Hwf Hl. destruct (pending m !! i) as [e|] eqn:He;
    [|rewrite (resolve_absent _ _ _ _ _ He); exact Hl].
  rewrite (resolve_pending m i e d by_ now Hl He). simpl.
  apply (linked_remove m i e (Some d) _ Hwf Hl He).
  intros l rec Hrec. rewrite lookup_alter. case_decide.
  - subst l. rewrite Hrec. simpl. eexists. split; reflexivity.
  - exists rec. auto.
Qed.

Lemma approvalRequest_steps p now uuid m :
  wf m -> pending m !! uuid = None ->
  approvalRequest p now uuid m = (Refused "approval id already pending", m)
  \/ exists request timeoutMs explicit,
       let i := chosenId (p_id p) uuid in
       let rec := {| id := i; request := request; createdAtMs := now;
                     expiresAtMs := now + timeoutMs; resolvedAtMs := None;
                     decision := None; resolvedBy := None |} in
       let m1 := snd (create request timeoutMs explicit now uuid m) in
       let m2 := {| pending := <[i := {| record := fresh m; promise := S (fresh m);
                                         timer := S (S (fresh m)) |}]> (pending m);
                    records := <[fresh m := rec]> (records m);
                    timers := <[S (S (fresh m)) := (fresh m, S (fresh m))]> (timers m);
                    promises := promises m;
                    fresh := S (S (S (fresh m))) |} in
       pending m !! i = None
       /\ records m1 !! fresh m = Some rec
       /\ waitForDecision (fresh m) timeoutMs m1 = Some (S (fresh m), m2)
       /\ approvalRequest p now uuid m = (Registered (fresh m) (S (fresh m)), m2).
Proof.
  intros Hwf Hfree. unfold approvalRequest.
  set (explicitId := match p_id p with
                     | Some s => if (0 <? String.length (trim s))%nat
                                 then Some (trim s) else None
                     | None => None
                     end).
  assert (Hchosen : chosenId explicitId uuid = chosenId (p_id p) uuid).
  { unfold explicitId, chosenId. destruct (p_id p) as [s|]; [|reflexivity].
    destruct (0 <? String.length (trim s))%nat eqn:E; [|reflexivity].
    simpl. rewrite JsProps.trim_idempotent, E. reflexivity. }
  destruct (truthy explicitId
            && bool_decide (is_Some (getSnapshot (orElse explicitId EmptyString) m)))
    eqn:Hguard; [left; reflexivity|].
  right.
  exists {| toolName := p_toolName p; params := orElse (p_params p) [];
            riskLevel := p_riskLevel p; trustLevel := p_trustLevel p;
            reason := p_reason p; agentId := p_agentId p;
            sessionKey := p_sessionKey p |}, (orElse (p_timeoutMs p) 120000), explicitId.
  cbv zeta. rewrite create_spec, Hchosen. simpl.
  unfold waitForDecision. simpl. rewrite lookup_insert_eq. simpl.
  split; [|split; [reflexivity|split; reflexivity]].
  rewrite <- Hchosen. unfold explicitId, chosenId in *.
  destruct (p_id p) as [s|]; [|exact Hfree].
  destruct (0 <? String.length (trim s))%nat eqn:E; [|exact Hfree].
  rewrite JsProps.trim_idempotent, E.
  destruct (trim s) as [|c r] eqn:Ht; [discriminate E|]. simpl in Hguard.
  destruct (pending m !! String c r) as [e|] eqn:He; [|reflexivity].
  rewrite bool_decide_eq_true_2 in Hguard; [discriminate Hguard|].
  apply getSnapshot_pending; [exact Hwf | rewrite He; eauto].
Qed.

Lemma approvalRequest_keeps p now uuid m :
  wf m -> linked m -> pending m !! uuid = None ->
  wf (snd (approvalRequest p now uuid m)) /\ linked (snd (approvalRequest p now uuid m)).
Proof.
  intros Hwf Hl Hfree.
  destruct (approvalRequest_steps p now uuid m Hwf Hfree)
    as [E | (request & timeoutMs & explicit & Hi & Hrec & Hw & E)];
    rewrite E; simpl; [split; assumption|].
  split.
  - eapply wf_waitForDecision; [|exact Hw]. apply wf_create, Hwf.
  - eapply linked_waitForDecision; [| |exact Hrec| |exact Hw].
    + apply wf_create, Hwf.
    + apply linked_create; assumption.
    + rewrite create_spec. simpl. exact Hi.
Qed.

Lemma reachable_inv m : reachable m -> wf m /\ linked m.
Proof.
  induction 1 as [|p now uuid m _ [Hwf Hl] Hfree|t m _ [Hwf Hl]|i d by_ now m _ [Hwf Hl]].
  - split; [apply wf_empty | apply linked_empty].
  - apply approvalRequest_keeps; assumption.
  - split; [apply wf_fire | apply linked_fire]; assumption.
  - split; [apply wf_resolve | apply linked_resolve]; assumption.
Qed.

(** X25: an invariant of the approval manager.  In every manager that
    requests, callbacks of timers and resolutions bring about, every pending
    entry is filed under the id of its record, its timer is armed for its
    record and its promise, and its promise is not settled; every armed timer
    is the
    timer of the entry that is pending under the id of its record, so that no
    timer is left armed for an approval that is gone; and an id has a
    snapshot exactly when it is pending. *)
Theorem pending_timers_promises :
  forall m,
    reachable m ->
    (forall i e, pending m !! i = Some e ->
       (exists rec, records m !! record e = Some rec /\ id rec = i
                    /\ getSnapshot i m = Some rec)
       /\ timers m !! timer e = Some (record e, promise e)
       /\ promises m !! promise e = None)
    /\ (forall t loc p, timers m !! t = Some (loc, p) ->
          exists rec, records m !! loc = Some rec
            /\ pending m !! id rec = Some {| record := loc; promise := p; timer := t |})
    /\ (forall i, getSnapshot i m = None <-> pending m !! i = None).
Proof.
  intros m Hreach. destruct (reachable_inv m Hreach) as [[Hp Hr] (H1 & H2 & _)].
  split; [|split].
  - intros i e He. destruct (Hp i e He) as (rec & Hrec & Hid).
    destruct (H1 i e He) as (_ & Ha & Hu).
    split; [|split; assumption].
    exists rec. split; [exact Hrec|]. split; [exact Hid|].
    unfold getSnapshot. rewrite He. exact Hrec.
  - exact H2.
  - intros i. unfold getSnapshot. destruct (pending m !! i) as [e|] eqn:He.
    + destruct (Hp i e He) as (rec & Hrec & _). rewrite Hrec. split; discriminate.
    + split; reflexivity.
Qed.

Lemma reachable_pendingA : reachable pendingA.
Proof. apply (reach_request requestA 0 "u1" empty reach_empty). reflexivity. Qed.

Lemma pending_timers_promises_witness :
  reachable pendingA
  /\ timers pendingA !! 2%nat = Some (0%nat, 1%nat)
  /\ promises pendingA !! 1%nat = None.
Proof.
  split; [exact reachable_pendingA|].
  destruct (proj1 (pending_timers_promises pendingA reachable_pendingA) "a"
              {| record := 0%nat; promise := 1%nat; timer := 2%nat |})
    as (_ & Ha & Hu); [vm_compute; reflexivity|].
  split; [exact Ha | exact Hu].
Defined.

(** X26: the timeout.  When the timer of a pending approval fires, the
    approval is no longer pending, its promise is settled with [null], so the
    waiting request is answered with no decision, its record is left
    unstamped, a later [resolve] of its id returns false, and every other
    pending approval stays pending with its timer armed and its promise
    unsettled. *)
Theorem timeout_settles_null :
  forall m i e,
    reachable m -> pending m !! i = Some e ->
    let m' := fire (timer e) m in
    pending m' = delete i (pending m)
    /\ promises m' !! promise e = Some None
    /\ records m' = records m
    /\ getSnapshot i m' = None
    /\ (forall d by_ now, resolve i d by_ now m' = (false, m'))
    /\ (forall j e', j <> i -> pending m !! j = Some e' ->
          pending m' !! j = Some e'
          /\ timers m' !! timer e' = Some (record e', promise e')
          /\ promises m' !! promise e' = None).
Proof.
  intros m i e Hreach He m'.
  destruct (reachable_inv m Hreach) as [Hwf Hl].
  assert (Hl' : linked m') by (apply linked_fire; assumption).
  unfold m' in *. rewrite (fire_pending m i e Hwf Hl He) in *. simpl.
  split; [reflexivity|]. split; [apply lookup_insert_eq|]. split; [reflexivity|].
  split; [unfold getSnapshot; simpl; rewrite lookup_delete_eq; reflexivity|].
  split; [intros d by_ now; apply resolve_absent; simpl; apply lookup_delete_eq|].
  intros j e' Hne He'.
  assert (Hj : delete i (pending m) !! j = Some e').
  { rewrite lookup_delete_ne; [exact He' | congruence]. }
  split; [exact Hj|].
  destruct Hl' as (H1 & _). destruct (H1 j e' Hj) as (_ & Ha & Hu).
  split; [exact Ha | exact Hu].
Qed.

Lemma timeout_settles_null_witness :
  let m' := fire 2%nat pendingA in
  pending pendingA !! "a" = Some {| record := 0%nat; promise := 1%nat; timer := 2%nat |}
  /\ promises m' !! 1%nat = Some None
  /\ resolve "a" allow_once None 9 m' = (false, m').
Proof.
  intros m'.
  assert (He : pending pendingA !! "a"
               = Some {| record := 0%nat; promise := 1%nat; timer := 2%nat |})
    by (vm_compute; reflexivity).
  split; [exact He|].
  destruct (timeout_settles_null pendingA "a" _ reachable_pendingA He)
    as (_ & Hp & _ & _ & Hr & _).
  split; [exact Hp | apply Hr].
Defined.

(** X27: the decision reaches the caller.  A successful [resolve]
    settles the promise of the approval, which was not settled before, with
    the decision; the timeout of that approval can no longer fire, so the
    decision is never replaced by [null]; and every other pending approval
    stays pending with its timer armed and its promise unsettled. *)
Theorem decision_reaches_the_caller :
  forall m i d by_ now m',
    reachable m -> resolve i d by_ now m = (true, m') ->
    exists e,
      pending m !! i = Some e
      /\ promises m !! promise e = None
      /\ promises m' !! promise e = Some (Some d)
      /\ fire (timer e) m' = m'
      /\ (forall j e', j <> i -> pending m !! j = Some e' ->
            pending m' !! j = Some e'
            /\ timers m' !! timer e' = Some (record e', promise e')
            /\ promises m' !! promise e' = None).
Proof.
  intros m i d by_ now m' Hreach H.
  destruct (reachable_inv m Hreach) as [Hwf Hl].
  assert (Hl' : linked m').
  { replace m' with (snd (resolve i d by_ now m)) by (rewrite H; reflexivity).
    apply linked_resolve; assumption. }
  destruct (pending m !! i) as [e|] eqn:He;
    [|rewrite (resolve_absent _ _ _ _ _ He) in H; discriminate H].
  rewrite (resolve_pending m i e d by_ now Hl He) in H. inversion H; subst m'; clear H.
  exists e. split; [reflexivity|].
  pose proof Hl as (H1 & _). destruct (H1 i e He) as (_ & _ & Hu).
  split; [exact Hu|]. simpl.
  split; [apply lookup_insert_eq|].
  split; [apply fire_unarmed; simpl; apply lookup_delete_eq|].
  intros j e' Hne He'.
  assert (Hj : delete i (pending m) !! j = Some e').
  { rewrite lookup_delete_ne; [exact He' | congruence]. }
  split; [exact Hj|].
  destruct Hl' as (H1' & _). destruct (H1' j e' Hj) as (_ & Ha & Hu').
  split; [exact Ha | exact Hu'].
Qed.

Lemma decision_reaches_the_caller_witness :
  let m' := snd (resolve "a" allow_session (Some "operator") 5 pendingA) in
  resolve "a" allow_session (Some "operator") 5 pendingA = (true, m')
  /\ promises m' !! 1%nat = Some (Some allow_session)
  /\ fire 2%nat m' = m'.
Proof.
  intros m'.
  assert (H : resolve "a" allow_session (Some "operator") 5 pendingA = (true, m'))
    by (vm_compute; reflexivity).
  split; [exact H|].
  destruct (decision_reaches_the_caller _ _ _ _ _ _ reachable_pendingA H)
    as (e & He & _ & Hp & Hf & _).
  vm_compute in He. inversion He; subst e; clear He.
  split; [exact Hp | exact Hf].
Defined.

Lemma decisionOfString_name d : decisionOfString (decisionName d) = Some d.
Proof. destruct d; reflexivity. Qed.

Lemma decisionOfString_inv s d : decisionOfString s = Some d -> s = decisionName d.
Proof.
  unfold decisionOfString.
  destruct (String.eqb_spec s "allow-once"); [intros E; inversion E; subst; reflexivity|].
  destruct (String.eqb_spec s "allow-session"); [intros E; inversion E; subst; reflexivity|].
  destruct (String.eqb_spec s "allow-always"); [intros E; inversion E; subst; reflexivity|].
  destruct (String.eqb_spec s "deny"); [intros E; inversion E; subst; reflexivity|].
  discriminate.
Qed.

(** X28: request and resolve are a round trip.  After a request that the
    handler registered, the resolve handler called with the id of the record
    and the name of a decision succeeds: the promise of the request is
    settled with that decision; the record, which had no decision, now
    carries that decision, the time of the call as its time of resolution and
    the resolver given, its id, request and times of creation and expiry
    being those of the request; and the pending set, the armed timers and
    all other records are as they were before the request. *)
Theorem request_resolve_round_trip :
  forall p now uuid m loc pr m1 d by_ now',
    reachable m -> pending m !! uuid = None ->
    approvalRequest p now uuid m = (Registered loc pr, m1) ->
    exists m2 rec rec2,
      approvalResolve (chosenId (p_id p) uuid) (decisionName d) by_ now' m1
        = (RespondOk, m2)
      /\ promises m2 !! pr = Some (Some d)
      /\ records m1 !! loc = Some rec
      /\ decision rec = None /\ resolvedAtMs rec = None /\ resolvedBy rec = None
      /\ id rec = chosenId (p_id p) uuid
      /\ createdAtMs rec = now
      /\ records m2 !! loc = Some rec2
      /\ rec2 = stamp rec now' d by_
      /\ decision rec2 = Some d
      /\ resolvedAtMs rec2 = Some now'
      /\ resolvedBy rec2 = Some by_
      /\ id rec2 = id rec
      /\ request rec2 = request rec
      /\ createdAtMs rec2 = createdAtMs rec
      /\ expiresAtMs rec2 = expiresAtMs rec
      /\ pending m2 = pending m
      /\ timers m2 = timers m
      /\ (forall l, l <> loc -> records m2 !! l = records m !! l).
Proof.
  intros p now uuid m loc pr m1 d by_ now' Hreach Hfree H.
  destruct (reachable_inv m Hreach) as [Hwf Hl].
  pose proof (proj2 (approvalRequest_keeps p now uuid m Hwf Hl Hfree)) as Hl1.
  destruct (approvalRequest_steps p now uuid m Hwf Hfree)
    as [E | (request & timeoutMs & explicit & Hi & _ & _ & E)];
    rewrite E in H; [discriminate H|].
  rewrite E in Hl1. simpl in Hl1. inversion H; subst loc pr m1; clear H E.
  unfold approvalResolve. rewrite decisionOfString_name.
  erewrite (resolve_pending _ _ _ d by_ now' Hl1); [|simpl; apply lookup_insert_eq].
  simpl. eexists. eexists. eexists. split; [reflexivity|]. simpl.
  split; [apply lookup_insert_eq|].
  split; [apply lookup_insert_eq|].
  split; [reflexivity|]. split; [reflexivity|]. split; [reflexivity|].
  split; [reflexivity|]. split; [reflexivity|].
  split; [rewrite lookup_alter, decide_True by reflexivity;
          rewrite lookup_insert_eq; reflexivity|].
  split; [reflexivity|].
  split; [reflexivity|]. split; [reflexivity|]. split; [reflexivity|].
  split; [reflexivity|]. split; [reflexivity|]. split; [reflexivity|].
  split; [reflexivity|].
  split; [apply delete_insert_id; exact Hi|].
  split.
  - apply delete_insert_id.
    destruct (timers m !! S (S (fresh m))) as [x|] eqn:Ht; [|reflexivity].
    destruct Hl as (_ & _ & H3 & _). pose proof (H3 _ _ Ht). lia.
  - intros l Hne. rewrite lookup_alter, decide_False by congruence.
    rewrite lookup_insert_ne by congruence. reflexivity.
Qed.

Lemma request_resolve_round_trip_witness :
  exists m2 rec2,
    approvalResolve "a" "allow-always" (Some "operator") 5 pendingA = (RespondOk, m2)
    /\ promises m2 !! 1%nat = Some (Some allow_always)
    /\ records m2 !! 0%nat = Some rec2
    /\ decision rec2 = Some allow_always
    /\ resolvedAtMs rec2 = Some 5
    /\ resolvedBy rec2 = Some (Some "operator")
    /\ pending m2 = pending empty.
Proof.
  destruct (request_resolve_round_trip requestA 0 "u1" empty 0%nat 1%nat pendingA
              allow_always (Some "operator") 5 reach_empty eq_refl)
    as (m2 & rec & rec2 & H & Hp & _ & _ & _ & _ & _ & _ & Hrec2 & _ & Hd & Ht & Hby
        & _ & _ & _ & _ & Hpend & _);
    [vm_compute; reflexivity|].
  exists m2, rec2. repeat split; assumption.
Defined.

(** X29: what the resolve handler refuses.  A decision that is not one of
    the four names is answered with "invalid decision", and an id that is not
    pending with "unknown approval id", in both cases without any change of
    the manager; the handler succeeds only on the name of a decision and an
    id for which [resolve] returns true.  The id is looked up as it is given:
    the handler does not trim it, unlike the request handler. *)
Theorem resolve_handler_rejections :
  forall id_ decision_ by_ now m,
    (~ In decision_ ["allow-once"; "allow-session"; "allow-always"; "deny"] ->
     approvalResolve id_ decision_ by_ now m = (RespondError "invalid decision", m))
    /\ (pending m !! id_ = None ->
        In decision_ ["allow-once"; "allow-session"; "allow-always"; "deny"] ->
        approvalResolve id_ decision_ by_ now m = (RespondError "unknown approval id", m))
    /\ (forall m', approvalResolve id_ decision_ by_ now m = (RespondOk, m') ->
        exists d, decision_ = decisionName d /\ resolve id_ d by_ now m = (true, m')).
Proof.
  intros id_ decision_ by_ now m. unfold approvalResolve. split; [|split].
  - intros Hnot. destruct (decisionOfString decision_) as [d|] eqn:E; [|reflexivity].
    exfalso. apply Hnot. rewrite (decisionOfString_inv _ _ E).
    destruct d; simpl; tauto.
  - intros Hnone Hin.
    assert (E : exists d, decisionOfString decision_ = Some d).
    { simpl in Hin. destruct Hin as [<-|[<-|[<-|[<-|[]]]]]; eexists; reflexivity. }
    destruct E as [d ->]. rewrite (resolve_absent _ _ _ _ _ Hnone). reflexivity.
  - intros m'. destruct (decisionOfString decision_) as [d|] eqn:E; [|discriminate].
    destruct (resolve id_ d by_ now m) as [[|] m1] eqn:Hr; [|discriminate].
    intros H. inversion H; subst. exists d. split; [|exact Hr].
    apply decisionOfString_inv, E.
Qed.

Lemma resolve_handler_rejections_witness :
  approvalResolve "a" "allow" None 5 pendingA = (RespondError "invalid decision", pendingA)
  /\ approvalResolve " a " "deny" None 5 pendingA = (RespondError "unknown approval id", pendingA).
Proof.
  split.
  - apply (proj1 (resolve_handler_rejections "a" "allow" None 5 pendingA)).
    simpl. intros [E|[E|[E|[E|[]]]]]; discriminate E.
  - apply (proj1 (proj2 (resolve_handler_rejections " a " "deny" None 5 pendingA)));
      [vm_compute; reflexivity | simpl; tauto].
Defined.

End ApprovalsExtra.
